(** * AVA run orchestrator ([lib/api.js]): watchdog, concurrency, partitioning
    and the [Api.run] control loop, embedded as executable definitions.

    Conventions.  Times are integers, in milliseconds, and every clock
    reading is passed in as [now].  JavaScript exceptions are values of
    [Result]; a handler that throws leaves the variables as it has set them
    so far ([Completion]).  The variables [run] closes over form a record that the
    handlers transform; what [run] does to its collaborators (events
    emitted, workers forked, exited or notified, the status ended) is
    appended to the [effects] of that record, in order.  While [run] awaits
    the worker pool, the host delivers occurrences (worker events, worker
    exits, timer expiry, the interrupt signal) one at a time, each handled
    to completion. *)

From Stdlib Require Import ZArith List String Bool Arith Lia Permutation Sorted.
Import ListNotations.

Set Implicit Arguments.

(** ** JavaScript exceptions as an error monad *)

Inductive Error : Type :=
| TypeError (message : string)
| Thrown (message : string).

Inductive Result (A : Type) : Type :=
| Ok (value : A)
| Throw (error : Error).

Arguments Ok {A} value.
Arguments Throw {A} error.

Definition bind {A B : Type} (c : Result A) (k : A -> Result B) : Result B :=
  match c with
  | Ok a => k a
  | Throw e => Throw e
  end.

Notation "x <- c ;; k" := (bind c (fun x => k))
  (at level 61, c at next level, right associativity).

(** ** [class TimeoutTrigger] *)

Module TimeoutTrigger.

(** The two closures [run] hands to the constructor: the timeout handler
    (closing over the parsed period) and [() => {}]. *)
Inductive Callback : Type :=
| TimeoutHandler (timeout : Z)
| Noop.

(** Modelled from the spec: the host timer handle returned by
    [setCappedTimeout] ([lib/now-and-timers.cjs]).  A handle remembers its delay; it is scheduled with a
    deadline, has fired, or has been cleared.  [refresh] restarts a handle
    that is scheduled or has fired; on a cleared handle it does nothing,
    which is what the note in [discard] relies on. *)
Inductive TimerState : Type :=
| Scheduled (deadline : Z)
| Fired
| Cleared.

Record TimerHandle : Type := mkTimer { delay : Z; state : TimerState }.

Definition setCappedTimeout (now waitMs : Z) : TimerHandle :=
  mkTimer waitMs (Scheduled (now + waitMs)).

Definition refresh (now : Z) (h : TimerHandle) : TimerHandle :=
  match state h with
  | Cleared => h
  | _ => mkTimer (delay h) (Scheduled (now + delay h))
  end.

(** [clearTimeout(undefined)] does nothing. *)
Definition clearTimeout (timer : option TimerHandle) : option TimerHandle :=
  match timer with
  | None => None
  | Some h => Some (mkTimer (delay h) Cleared)
  end.

Record t : Type := mk {
  fn : Callback;
  ignoreUntil : Z;
  waitMs : Z;
  timer : option TimerHandle
}.

(** [constructor(fn, waitMs = 0)] *)
Definition new (fn : Callback) (waitMs : Z) : t := mk fn 0 waitMs None.

Definition debounce (now : Z) (this : t) : t :=
  match timer this with
  | None =>
      mk (fn this) (ignoreUntil this) (waitMs this)
         (Some (setCappedTimeout now (waitMs this)))
  | Some h =>
      mk (fn this) (ignoreUntil this) (waitMs this) (Some (refresh now h))
  end.

Definition discard (this : t) : t :=
  mk (fn this) (ignoreUntil this) (waitMs this) (clearTimeout (timer this)).

Definition ignoreFor (now periodMs : Z) (this : t) : t :=
  mk (fn this) (Z.max (ignoreUntil this) (now + periodMs)) (waitMs this)
     (timer this).

(** [trigger()]: the closure to call, if any. *)
Definition trigger (now : Z) (this : t) : option Callback :=
  if (ignoreUntil this <=? now)%Z then Some (fn this) else None.

(** The time at which the host will run [trigger], if it will. *)
Definition scheduledAt (this : t) : option Z :=
  match timer this with
  | Some (mkTimer _ (Scheduled d)) => Some d
  | _ => None
  end.

(** The host runs the timer's function once its deadline has passed: the
    handle becomes [Fired] and [trigger] decides about the callback.
    [None] when no deadline is due at [now]. *)
Definition expire (now : Z) (this : t) : option (t * option Callback) :=
  match timer this with
  | Some (mkTimer w (Scheduled d)) =>
      if (d <=? now)%Z
      then Some (mk (fn this) (ignoreUntil this) (waitMs this)
                    (Some (mkTimer w Fired)),
                 trigger now this)
      else None
  | _ => None
  end.

End TimeoutTrigger.

(** ** Options, host facts *)

Record DebugOptions : Type := mkDebug { active : bool }.

Record ParallelRuns : Type := mkParallel { currentIndex : nat; totalRuns : nat }.

(** [this.options], as far as [run] reads it.  [timeout] is the configured
    duration text, [debug] is an object or absent. *)
Record Options : Type := mkOptions {
  failFast : bool;                       (* apiOptions.failFast === true *)
  serial : bool;
  concurrency : option Z;
  timeout : option string;
  debug : option DebugOptions;
  parallelRuns : option ParallelRuns;
  sortTestFiles : option (string -> string -> Z);
  cacheEnabled : bool
}.

(** What the run reads from its host: [is-ci], [os.cpus().length], the [ms]
    duration parser and [localeCompare(b, [], {numeric: true})]. *)
Record Host : Type := mkHost {
  isCi : bool;
  cpus : nat;
  ms : string -> Z;
  localeCompareNumeric : string -> string -> Z
}.

(** JavaScript truthiness of an optional string, of an optional object. *)
Definition truthyString (s : option string) : bool :=
  match s with
  | Some s => negb (String.eqb s "")
  | None => false
  end.

Definition truthyObject {A : Type} (o : option A) : bool :=
  match o with Some _ => true | None => false end.

(** [apiOptions.concurrency > 0]; comparing [undefined] gives false. *)
Definition positive (c : option Z) : bool :=
  match c with
  | Some c => (0 <? c)%Z
  | None => false
  end.

(** Lines 246-256 of [run]. *)
Definition resolveConcurrency (host : Host) (apiOptions : Options) : Z :=
  let concurrency0 := Z.max 1 (Z.of_nat (cpus host)) in
  if serial apiOptions then 1%Z
  else if positive (concurrency apiOptions) then
         match concurrency apiOptions with Some c => c | None => concurrency0 end
  else if isCi host then 2%Z
  else concurrency0.

(** ** Sorting and partitioning for parallel runs *)

(** A consistent comparator: every file compares as equal to itself,
    [b] sorts before [a] exactly when [a] sorts after [b], and standing
    before-or-beside is transitive.  These are the comparators for which
    [Array.prototype.sort] has a determined result. *)
Record consistent (cmp : string -> string -> Z) : Prop := mkConsistent {
  cmp_refl : forall a, cmp a a = 0%Z;
  cmp_converse : forall a b, (0 < cmp a b)%Z <-> (cmp b a < 0)%Z;
  cmp_trans :
    forall a b c, (cmp a b <= 0)%Z -> (cmp b c <= 0)%Z -> (cmp a c <= 0)%Z
}.

(** [a] and [b] compare as equal. *)
Definition equivalent (cmp : string -> string -> Z) (a b : string) : bool :=
  (cmp a b =? 0)%Z.

(** [Array.prototype.sort] with a comparator is a stable sort.  For a
    consistent comparator its result is determined: the one arrangement in
    comparator order that keeps files comparing as equal in their former
    order, which a stable insertion sort computes.  For any other
    comparator the engine's order is implementation-defined, and [sort]
    does not stand for it. *)
Fixpoint insertSorted (cmp : string -> string -> Z) (x : string)
         (l : list string) : list string :=
  match l with
  | [] => [x]
  | y :: l' => if (0 <? cmp x y)%Z then y :: insertSorted cmp x l' else x :: l
  end.

Definition sort (cmp : string -> string -> Z) (l : list string) : list string :=
  fold_right (insertSorted cmp) [] l.

(** [a] may stand before [b] under the comparator. *)
Definition ordered (cmp : string -> string -> Z) (a b : string) : Prop :=
  (cmp a b <= 0)%Z.

(** [array.slice(start, end)] for [0 <= start <= end]. *)
Definition slice {A : Type} (start stop : nat) (array : list A) : list A :=
  firstn (stop - start) (skipn start array).

(** Modelled from the spec: [chunkd(array, index, total)], the npm package
    behind the Partition Splitter: the
    contiguous slice of balanced size assigned to job [index] of [total]. *)
Definition chunkd {A : Type} (array : list A) (index total : nat) : list A :=
  let length := List.length array in
  let size := length / total in
  let remainder := length mod total in
  let offset := Nat.min index remainder + index * size in
  let chunk := size + (if index <? remainder then 1 else 0) in
  slice offset (offset + chunk) array.

(** Lines 180-182: the comparator used, and the files of one job. *)
Definition comparator (host : Host) (options : Options) : string -> string -> Z :=
  match sortTestFiles options with
  | Some cmp => cmp
  | None => localeCompareNumeric host
  end.

Definition parallelFiles (host : Host) (options : Options)
           (selectedFiles : list string) (currentIndex totalRuns : nat)
  : list string :=
  chunkd (sort (comparator host options) selectedFiles) currentIndex totalRuns.

(** ** State-change records, workers, observable effects *)

(** What a Worker Handle reports through [onStateChange]. *)
Inductive WorkerEvent : Type :=
| HookFailed
| TestFailed
| WorkerFailed
| WorkerStdout
| WorkerStderr
| TestTimeoutConfigured (period : Z)
| TestPassed
| WorkerFinished
| OtherEvent (type : string).

(** Records on the Run Status stream: the synthetic ones emitted by [run],
    and worker events, which [observeWorker] tags with their file. *)
Inductive StateChange : Type :=
| EvTimeout (period : Z)
| EvInterrupt
| EvInternalError (err : Error)
| EvTouchedFiles (files : list string)
| EvWorker (testFile : string) (data : WorkerEvent).

Definition testFile (record : StateChange) : option string :=
  match record with
  | EvWorker f _ => Some f
  | _ => None
  end.

(** [record.type === 'worker-stderr' || record.type === 'worker-stdout'] *)
Definition isOutput (record : StateChange) : bool :=
  match record with
  | EvWorker _ WorkerStdout | EvWorker _ WorkerStderr => true
  | _ => false
  end.

(** [record.type] is ['hook-failed'], ['test-failed'] or ['worker-failed']. *)
Definition isFailure (record : StateChange) : bool :=
  match record with
  | EvWorker _ HookFailed | EvWorker _ TestFailed | EvWorker _ WorkerFailed => true
  | _ => false
  end.

(** A Worker Handle: the object [fork] returns, identified by the order of
    its creation. *)
Record Worker : Type := mkWorker { id : nat; file : string }.

Definition sameWorker (a b : Worker) : bool := Nat.eqb (id a) (id b).

(** Lines 167-172, without the properties [applyTestFileFilter] may attach
    to the array it returns. *)
Record SelectionInsights : Type := mkInsights {
  filter : list string;
  testFileCount : nat;
  selectionCount : nat
}.

(** Modelled from the spec: the Run Status object ([lib/run-status.js]), as
    constructed by [run]: the file count, the partition descriptor and the
    selection insights.  Its event stream is recorded in the effects of the
    run. *)
Record RunStatus : Type := mkRunStatus {
  files : nat;
  partition : option (nat * ParallelRuns);   (* currentFileCount, {currentIndex, totalRuns} *)
  selectionInsights : SelectionInsights
}.

(** Payload of the ['run'] announcement. *)
Record RunPlan : Type := mkPlan {
  bailWithoutReporting : bool;
  debugging : bool;
  failFastEnabled : bool;
  planFiles : list string;
  status : RunStatus
}.

(** Everything [run] does to its collaborators, in order. *)
Inductive Effect : Type :=
| EmitRun (plan : RunPlan)
| EmitStateChange (record : StateChange)
| Fork (worker : Worker)
| Exit (worker : Worker)
| NotifyOfPeerFailure (worker : Worker)
| End.

Definition isRun (e : Effect) : bool :=
  match e with EmitRun _ => true | _ => false end.
Definition isInternalError (e : Effect) : bool :=
  match e with EmitStateChange (EvInternalError _) => true | _ => false end.
Definition isTimeoutEvent (e : Effect) : bool :=
  match e with EmitStateChange (EvTimeout _) => true | _ => false end.
Definition isInterruptEvent (e : Effect) : bool :=
  match e with EmitStateChange EvInterrupt => true | _ => false end.
Definition isFork (e : Effect) : bool :=
  match e with Fork _ => true | _ => false end.
Definition isExit (e : Effect) : bool :=
  match e with Exit _ => true | _ => false end.
Definition isNotify (e : Effect) : bool :=
  match e with NotifyOfPeerFailure _ => true | _ => false end.
Definition isExitOf (w : Worker) (e : Effect) : bool :=
  match e with Exit w' => sameWorker w w' | _ => false end.
Definition isNotifyOf (w : Worker) (e : Effect) : bool :=
  match e with NotifyOfPeerFailure w' => sameWorker w w' | _ => false end.
Definition isEnd (e : Effect) : bool :=
  match e with End => true | _ => false end.

Definition count (p : Effect -> bool) (l : list Effect) : nat :=
  List.length (List.filter p l).

(** ** The variables [run] closes over *)

Record RunState : Type := mkState {
  bailed : bool;
  pendingWorkers : list Worker;            (* a Set, in insertion order *)
  timedOutWorkerFiles : list string;       (* a Set, in insertion order *)
  timeoutTrigger : TimeoutTrigger.t;
  runStatus : option RunStatus;            (* [let runStatus;] *)
  listening : bool;                        (* the stateChange listener is attached *)
  effects : list Effect
}.

Definition setBailed (b : bool) (st : RunState) : RunState :=
  mkState b (pendingWorkers st) (timedOutWorkerFiles st) (timeoutTrigger st)
          (runStatus st) (listening st) (effects st).
Definition setPendingWorkers (ws : list Worker) (st : RunState) : RunState :=
  mkState (bailed st) ws (timedOutWorkerFiles st) (timeoutTrigger st)
          (runStatus st) (listening st) (effects st).
Definition setTimedOutWorkerFiles (fs : list string) (st : RunState) : RunState :=
  mkState (bailed st) (pendingWorkers st) fs (timeoutTrigger st)
          (runStatus st) (listening st) (effects st).
Definition setTimeoutTrigger (trig : TimeoutTrigger.t) (st : RunState) : RunState :=
  mkState (bailed st) (pendingWorkers st) (timedOutWorkerFiles st) trig
          (runStatus st) (listening st) (effects st).
Definition setRunStatus (rs : RunStatus) (st : RunState) : RunState :=
  mkState (bailed st) (pendingWorkers st) (timedOutWorkerFiles st)
          (timeoutTrigger st) (Some rs) (listening st) (effects st).
Definition setListening (st : RunState) : RunState :=
  mkState (bailed st) (pendingWorkers st) (timedOutWorkerFiles st)
          (timeoutTrigger st) (runStatus st) true (effects st).
Definition perform (e : Effect) (st : RunState) : RunState :=
  mkState (bailed st) (pendingWorkers st) (timedOutWorkerFiles st)
          (timeoutTrigger st) (runStatus st) (listening st) (effects st ++ [e]).

(** [Set.prototype.has], [add] and [delete]. *)
Definition hasFile (f : string) (s : list string) : bool :=
  existsb (String.eqb f) s.
Definition addFile (f : string) (s : list string) : list string :=
  if hasFile f s then s else s ++ [f].
Definition hasWorker (w : Worker) (s : list Worker) : bool :=
  existsb (sameWorker w) s.
Definition addWorker (w : Worker) (s : list Worker) : list Worker :=
  if hasWorker w s then s else s ++ [w].
Definition deleteWorker (w : Worker) (s : list Worker) : list Worker :=
  List.filter (fun w' => negb (sameWorker w w')) s.

(** Lines 107-126: the watchdog [run] constructs. *)
Definition newTimeoutTrigger (host : Host) (apiOptions : Options)
  : TimeoutTrigger.t :=
  if truthyString (timeout apiOptions) && negb (truthyObject (debug apiOptions))
  then
    let timeout :=
      ms host (match timeout apiOptions with Some s => s | None => EmptyString end) in
    TimeoutTrigger.new (TimeoutTrigger.TimeoutHandler timeout) timeout
  else TimeoutTrigger.new TimeoutTrigger.Noop 0.

(** Line 222: the record has an originating file, that file has not timed
    out, and the record is not process output. *)
Definition qualifies (record : StateChange) (timedOut : list string) : bool :=
  match testFile record with
  | Some f =>
      truthyString (Some f) && negb (hasFile f timedOut) && negb (isOutput record)
  | None => false
  end.

(** Lines 221-236: the listener on the Run Status stream. *)
Definition stateChangeListener (apiOptions : Options) (now : Z)
           (record : StateChange) (st : RunState) : RunState :=
  let st1 :=
    if qualifies record (timedOutWorkerFiles st)
    then setTimeoutTrigger (TimeoutTrigger.debounce now (timeoutTrigger st)) st
    else st in
  if failFast apiOptions && isFailure record
  then
    fold_left (fun s worker => perform (NotifyOfPeerFailure worker) s)
              (pendingWorkers st1) (setBailed true st1)
  else st1.

(** Modelled from the spec: [runStatus.emitStateChange(record)]
    ([lib/run-status.js]) puts the record on the stream, in arrival order,
    where the listener of lines 221-236 receives it once attached.  Reading
    the method off an undefined [runStatus] throws. *)
Definition emitStateChange (apiOptions : Options) (now : Z)
           (record : StateChange) (st : RunState) : Result RunState :=
  match runStatus st with
  | None => Throw (TypeError "runStatus is undefined")
  | Some _ =>
      let st1 := perform (EmitStateChange record) st in
      Ok (if listening st then stateChangeListener apiOptions now record st1
          else st1)
  end.

(** How a handler of [run] ends: normally, or with an exception, which
    leaves the variables of [run] as the statements before it have set
    them. *)
Inductive Completion : Type :=
| Normal (st : RunState)
| Abrupt (error : Error) (st : RunState).

(** The rest of a handler, run from [st]: when it throws, [st] is what the
    handler leaves behind. *)
Definition complete (st : RunState) (rest : Result RunState) : Completion :=
  match rest with
  | Ok st' => Normal st'
  | Throw error => Abrupt error st
  end.

(** An exception nobody catches leaves the host callback. *)
Definition uncaught (c : Completion) : Result RunState :=
  match c with
  | Normal st => Ok st
  | Abrupt error _ => Throw error
  end.

(** Lines 110-123: the watchdog's callback. *)
Definition timeoutHandler (apiOptions : Options) (now timeout : Z)
           (st : RunState) : Completion :=
  let st1 := if failFast apiOptions then setBailed true st else st in
  complete st1
    (st2 <- emitStateChange apiOptions now (EvTimeout timeout) st1 ;;
     Ok (fold_left
           (fun s worker =>
              perform (Exit worker)
                      (setTimedOutWorkerFiles
                         (addFile (file worker) (timedOutWorkerFiles s)) s))
           (pendingWorkers st2) st2)).

Definition call (apiOptions : Options) (now : Z)
           (fn : TimeoutTrigger.Callback) (st : RunState) : Completion :=
  match fn with
  | TimeoutTrigger.TimeoutHandler timeout => timeoutHandler apiOptions now timeout st
  | TimeoutTrigger.Noop => Normal st
  end.

(** Lines 128-145: [this._interruptHandler]. *)
Definition interruptHandler (apiOptions : Options) (now : Z) (st : RunState)
  : Completion :=
  if bailed st then Normal st
  else
    let st1 := setBailed true st in
    let st2 := setTimeoutTrigger (TimeoutTrigger.discard (timeoutTrigger st1)) st1 in
    complete st2
      (st3 <- emitStateChange apiOptions now EvInterrupt st2 ;;
       Ok (fold_left (fun s worker => perform (Exit worker) s)
                     (pendingWorkers st3) st3)).

(** Lines 285-289: the listener the mapper installs on its worker. *)
Definition noteTestTimeout (apiOptions : Options) (now : Z)
           (data : WorkerEvent) (trig : TimeoutTrigger.t) : TimeoutTrigger.t :=
  match data with
  | TestTimeoutConfigured period =>
      if negb (truthyObject (debug apiOptions))
      then TimeoutTrigger.ignoreFor now period trig
      else trig
  | _ => trig
  end.

(** What an event of a forked worker sets off: first the mapper's listener,
    then [observeWorker]'s forwarding (line 290), tagged with the file. *)
Definition onStateChange (apiOptions : Options) (now : Z) (worker : Worker)
           (data : WorkerEvent) (st : RunState) : Result RunState :=
  let st1 :=
    setTimeoutTrigger
      (noteTestTimeout apiOptions now data (timeoutTrigger st)) st in
  emitStateChange apiOptions now (EvWorker (file worker) data) st1.

(** ** The bounded worker pool *)

(** Modelled from the spec: [pMap(selectedFiles, mapper, {concurrency})],
    the npm package driving the pool: files are handed to the mapper in
    order, at most [limit] mappers wait for their worker at any instant, and
    a mapper that returns at once frees its slot at once.  [forked] lists
    the handles created so far; [queue] is what has not been handed over. *)
Record Pool : Type := mkPool {
  closure : RunState;
  queue : list string;
  forked : list Worker;
  limit : Z
}.

Definition setClosure (st : RunState) (p : Pool) : Pool :=
  mkPool st (queue p) (forked p) (limit p).
Definition setQueue (q : list string) (p : Pool) : Pool :=
  mkPool (closure p) q (forked p) (limit p).

(** Lines 261-299: the mapper up to [await worker.promise]. *)
Definition mapper (now : Z) (file : string) (p : Pool) : Pool :=
  let st := closure p in
  if bailed st then p
  else
    let worker := mkWorker (List.length (forked p)) file in
    let st1 := perform (Fork worker) st in
    let st2 := setPendingWorkers (addWorker worker (pendingWorkers st1)) st1 in
    let st3 :=
      setTimeoutTrigger (TimeoutTrigger.debounce now (timeoutTrigger st2)) st2 in
    mkPool st3 (queue p) (forked p ++ [worker]) (limit p).

(** Hand over files while a slot is free. *)
Fixpoint pump (now : Z) (files : list string) (p : Pool) : Pool :=
  match files with
  | [] => setQueue [] p
  | file :: rest =>
      if (Z.of_nat (List.length (pendingWorkers (closure p))) <? limit p)%Z
      then pump now rest (mapper now file p)
      else setQueue files p
  end.

(** What happens while the pool is awaited. *)
Inductive Occurrence : Type :=
| WorkerStateChange (worker : nat) (data : WorkerEvent)
| WorkerExited (worker : nat)            (* worker.promise settles *)
| TimerExpired                           (* the host runs the timer *)
| Sigint.                                (* this._interruptHandler() *)

Definition step (apiOptions : Options) (now : Z) (occ : Occurrence) (p : Pool)
  : Result Pool :=
  match occ with
  | WorkerStateChange w data =>
      match nth_error (forked p) w with
      | Some worker =>
          st <- onStateChange apiOptions now worker data (closure p) ;;
          Ok (setClosure st p)
      | None => Ok p
      end
  | WorkerExited w =>
      match nth_error (forked p) w with
      | Some worker =>
          if hasWorker worker (pendingWorkers (closure p))
          then
            let st := setPendingWorkers
                        (deleteWorker worker (pendingWorkers (closure p)))
                        (closure p) in
            Ok (pump now (queue p) (setClosure st p))
          else Ok p
      | None => Ok p
      end
  | TimerExpired =>
      match TimeoutTrigger.expire now (timeoutTrigger (closure p)) with
      | Some (trig, fn) =>
          let st := setTimeoutTrigger trig (closure p) in
          match fn with
          | Some fn =>
              st' <- uncaught (call apiOptions now fn st) ;;
              Ok (setClosure st' p)
          | None => Ok (setClosure st p)
          end
      | None => Ok p
      end
  | Sigint =>
      st <- uncaught (interruptHandler apiOptions now (closure p)) ;;
      Ok (setClosure st p)
  end.

(** [pMap]'s promise resolves once nothing is queued or pending. *)
Definition settled (p : Pool) : bool :=
  match pendingWorkers (closure p), queue p with
  | [], [] => true
  | _, _ => false
  end.

(** Deliver timestamped occurrences until the pool has settled. *)
Fixpoint drive (apiOptions : Options) (schedule : list (Z * Occurrence))
         (p : Pool) : Result Pool :=
  match schedule with
  | [] => Ok p
  | (now, occ) :: rest =>
      if settled p then Ok p
      else p' <- step apiOptions now occ p ;; drive apiOptions rest p'
  end.

(** ** [Api.run] *)

(** The arguments of [run]. *)
Record RunArgs : Type := mkArgs {
  selectedFiles : list string;                                  (* files *)
  filterPatterns : list string;                                 (* filter *)
  testFileSelector :
    option (list string -> list string -> Result (list string))
}.

(** The collaborators of one invocation: [globs.findTests],
    [globs.applyTestFileFilter], [scheduler.failingTestsFirst], the
    providers' [compile], [scheduler.storeFailedTestFiles], and the clock
    reading when the pool starts. *)
Record Collaborators : Type := mkCollaborators {
  findTests : Result (list string);
  applyTestFileFilter : list string -> list string -> Result (list string);
  failingTestsFirst : list string -> list string;
  compileProviders : Result unit;
  storeFailedTestFiles : option (list string);
  startTime : Z
}.

Inductive Outcome : Type :=
| Rejected (error : Error) (effects : list Effect)   (* the promise rejects *)
| Crashed (error : Error)                (* an exception left a host callback *)
| Awaiting (pool : Pool)                 (* still awaiting workers *)
| Returned (status : RunStatus) (final : RunState).

(** Lines 152-161: the files chosen among the discovered ones. *)
Definition chosen (env : Collaborators) (args : RunArgs)
           (testFiles : list string) : Result (list string) :=
  match testFileSelector args with
  | Some selector => selector testFiles (selectedFiles args)
  | None =>
      if Nat.eqb (List.length (selectedFiles args)) 0
      then if Nat.eqb (List.length (filterPatterns args)) 0
           then Ok testFiles
           else applyTestFileFilter env (filterPatterns args) testFiles
      else Ok (selectedFiles args)
  end.

(** Lines 149-165: [testFiles] (undefined when [findTests] threw),
    [selectedFiles] and [setupOrGlobError]. *)
Definition select (env : Collaborators) (args : RunArgs)
  : option (list string) * list string * option Error :=
  match findTests env with
  | Throw error => (None, [], Some error)
  | Ok testFiles =>
      match chosen env args testFiles with
      | Ok selectedFiles => (Some testFiles, selectedFiles, None)
      | Throw error => (Some testFiles, [], Some error)
      end
  end.

(** Lines 175-194: sorting, partitioning and the Run Status. *)
Definition schedule (host : Host) (options : Options)
           (insights : SelectionInsights) (selectedFiles : list string)
  : list string * RunStatus :=
  match parallelRuns options with
  | Some pr =>
      let fileCount := List.length selectedFiles in
      let selectedFiles :=
        parallelFiles host options selectedFiles (currentIndex pr) (totalRuns pr) in
      (selectedFiles,
       mkRunStatus fileCount (Some (List.length selectedFiles, pr)) insights)
  | None =>
      let selectedFiles :=
        match sortTestFiles options with
        | Some cmp => sort cmp selectedFiles
        | None => selectedFiles
        end in
      (selectedFiles, mkRunStatus (List.length selectedFiles) None insights)
  end.

(** The options of job [currentIndex] of [totalRuns] of a parallel run:
    [options] with [parallelRuns] set. *)
Definition forJob (options : Options) (currentIndex totalRuns : nat) : Options :=
  mkOptions (failFast options) (serial options) (concurrency options)
            (timeout options) (debug options)
            (Some (mkParallel currentIndex totalRuns))
            (sortTestFiles options) (cacheEnabled options).

(** Line 198. *)
Definition debugWithoutSpecificFile (options : Options)
           (selectedFiles : list string) : bool :=
  match debug options with
  | Some d => negb (active d) && negb (Nat.eqb (List.length selectedFiles) 1)
  | None => false
  end.

(** How the [try] block of lines 174-310 ends. *)
Inductive TryBlock : Type :=
| ReturnsEarly (st : RunState)              (* line 218 *)
| Completes (st : RunState)                 (* falls through to line 312 *)
| Catches (error : Error) (st : RunState)   (* line 308 *)
| Suspended (p : Pool)                      (* awaiting pMap *)
| Escapes (error : Error).

(** Line 261: the pool as [pMap] starts it, handing over files up to the
    resolved concurrency. *)
Definition startPool (host : Host) (env : Collaborators) (options : Options)
           (selectedFiles : list string) (st : RunState) : Pool :=
  pump (startTime env) selectedFiles
       (mkPool st [] [] (resolveConcurrency host options)).

Definition tryBlock (host : Host) (env : Collaborators) (options : Options)
           (setupOrGlobError : option Error) (selectedFiles : list string)
           (occurrences : list (Z * Occurrence)) (st : RunState) : TryBlock :=
  match setupOrGlobError with
  | Some error => Catches error st
  | None =>
      if Nat.eqb (List.length selectedFiles) 0
         || debugWithoutSpecificFile options selectedFiles
      then ReturnsEarly st
      else
        let st := setListening st in
        match compileProviders env with
        | Throw error => Catches error st
        | Ok _ =>
            match drive options occurrences
                        (startPool host env options selectedFiles st) with
            | Throw error => Escapes error
            | Ok p =>
                if settled p
                then
                  match storeFailedTestFiles env with
                  | Some files =>
                      match emitStateChange options (startTime env)
                                            (EvTouchedFiles files) (closure p) with
                      | Ok st' => Completes st'
                      | Throw error => Catches error (closure p)
                      end
                  | None => Completes (closure p)
                  end
                else Suspended p
            end
        end
  end.

(** Lines 312-313. *)
Definition finish (rs : RunStatus) (st : RunState) : Outcome :=
  Returned rs
    (perform End
       (setTimeoutTrigger (TimeoutTrigger.discard (timeoutTrigger st)) st)).

(** Lines 149-198: what [run] settles before the announcement: the files to
    run, the Run Status and the remembered selection error; [None] when line
    170 reads [testFiles.length] off an undefined [testFiles]. *)
Definition prepare (host : Host) (env : Collaborators) (options : Options)
           (args : RunArgs) : option (list string * RunStatus * option Error) :=
  match select env args with
  | (None, _, _) => None
  | (Some testFiles, selectedFiles, setupOrGlobError) =>
      let insights :=
        mkInsights (filterPatterns args) (List.length testFiles)
                   (List.length selectedFiles) in
      let '(selectedFiles, rs) := schedule host options insights selectedFiles in
      Some (failingTestsFirst env selectedFiles, rs, setupOrGlobError)
  end.

(** Lines 200-210: the payload of the announcement, and the variables of
    [run] once it has been emitted. *)
Definition plan (options : Options) (selectedFiles : list string)
           (rs : RunStatus) : RunPlan :=
  mkPlan (debugWithoutSpecificFile options selectedFiles)
         (truthyObject (debug options)) (failFast options) selectedFiles rs.

(** Lines 98-145: the variables of [run] from the moment the interrupt
    handler is installed until the Run Status is constructed, that is while
    [globs.findTests] is awaited: nothing has bailed, nothing is pending,
    [runStatus] is undefined and nothing has been emitted. *)
Definition discovering (host : Host) (options : Options) : RunState :=
  mkState false [] [] (newTimeoutTrigger host options) None false [].

Definition announced (host : Host) (options : Options)
           (selectedFiles : list string) (rs : RunStatus) : RunState :=
  perform (EmitRun (plan options selectedFiles rs))
          (setRunStatus rs (discovering host options)).

Definition run (host : Host) (env : Collaborators) (options : Options)
           (args : RunArgs) (occurrences : list (Z * Occurrence)) : Outcome :=
  match prepare host env options args with
  | None =>
      (* the TypeError is thrown outside any try, before anything is emitted *)
      Rejected (TypeError "testFiles is undefined") []
  | Some (selectedFiles, rs, setupOrGlobError) =>
      match tryBlock host env options setupOrGlobError selectedFiles
                     occurrences (announced host options selectedFiles rs) with
      | ReturnsEarly st => Returned rs st
      | Completes st => finish rs st
      | Catches error st =>
          match emitStateChange options (startTime env)
                                (EvInternalError error) st with
          | Ok st' => finish rs st'
          | Throw error' => Rejected error' (effects st)
          end
      | Suspended p => Awaiting p
      | Escapes error => Crashed error
      end
  end.

(** Line 217, when no selection error was remembered: the early return. *)
Definition returnsEarly (host : Host) (env : Collaborators) (options : Options)
           (args : RunArgs) : bool :=
  match prepare host env options args with
  | Some (selectedFiles, _, None) =>
      Nat.eqb (List.length selectedFiles) 0
      || debugWithoutSpecificFile options selectedFiles
  | _ => false
  end.

Definition effectsOf (o : Outcome) : list Effect :=
  match o with
  | Rejected _ effs => effs
  | Crashed _ => []
  | Awaiting p => effects (closure p)
  | Returned _ st => effects st
  end.

(** What holds of the pool whenever [run] awaits it: the Run Status exists
    and is listened to, the limit is at least 1 and is used up while files
    are queued, the pending handles are distinct handles this run forked,
    and the watchdog has a timer handle once a worker has been forked. *)
Record Invariant (p : Pool) : Prop := mkInvariant {
  inv_status : runStatus (closure p) <> None;
  inv_listening : listening (closure p) = true;
  inv_limit : (1 <= limit p)%Z;
  inv_saturated :
    queue p = []
    \/ (limit p <= Z.of_nat (List.length (pendingWorkers (closure p))))%Z;
  inv_pending :
    forall w, In w (pendingWorkers (closure p)) ->
              nth_error (forked p) (id w) = Some w;
  inv_distinct : NoDup (map id (pendingWorkers (closure p)));
  inv_timer :
    forked p = [] \/ TimeoutTrigger.timer (timeoutTrigger (closure p)) <> None
}.

(** After an interrupt the watchdog is cleared for good: the pool has
    bailed, the timer handle is cleared (or none exists and nothing was
    forked), and [n] timeouts have been announced. *)
Definition silenced (n : nat) (p : Pool) : Prop :=
  bailed (closure p) = true
  /\ ((TimeoutTrigger.timer (timeoutTrigger (closure p)) = None /\ forked p = [])
      \/ exists w, TimeoutTrigger.timer (timeoutTrigger (closure p))
                   = Some (TimeoutTrigger.mkTimer w TimeoutTrigger.Cleared))
  /\ count isTimeoutEvent (effects (closure p)) = n.

(** The watchdog holds the no-op callback and no timeout was announced. *)
Definition quiet (p : Pool) : Prop :=
  TimeoutTrigger.fn (timeoutTrigger (closure p)) = TimeoutTrigger.Noop
  /\ count isTimeoutEvent (effects (closure p)) = 0.

(** ** Further parts of [lib/api.js] *)

(** Calls made on a watchdog over its life: its three methods, and the host
    running the timer's function. *)
Inductive TriggerCall : Type :=
| CallDebounce (now : Z)
| CallDiscard
| CallIgnoreFor (now periodMs : Z)
| HostExpiry (now : Z).

Definition isDiscard (c : TriggerCall) : bool :=
  match c with CallDiscard => true | _ => false end.

Definition triggerCall (c : TriggerCall) (this : TimeoutTrigger.t)
  : TimeoutTrigger.t :=
  match c with
  | CallDebounce now => TimeoutTrigger.debounce now this
  | CallDiscard => TimeoutTrigger.discard this
  | CallIgnoreFor now periodMs => TimeoutTrigger.ignoreFor now periodMs this
  | HostExpiry now =>
      match TimeoutTrigger.expire now this with
      | Some (this', _) => this'
      | None => this
      end
  end.

Definition triggerCalls (cs : list TriggerCall) (this : TimeoutTrigger.t)
  : TimeoutTrigger.t :=
  fold_left (fun t c => triggerCall c t) cs this.

(** The watchdog's timer handle, if any, was made with the watchdog's own
    wait and has not been cleared. *)
Definition live (this : TimeoutTrigger.t) : Prop :=
  match TimeoutTrigger.timer this with
  | Some h =>
      TimeoutTrigger.delay h = TimeoutTrigger.waitMs this
      /\ TimeoutTrigger.state h <> TimeoutTrigger.Cleared
  | None => True
  end.

(** The files of the workers forked, in the order of forking. *)
Definition forkedFiles (effs : list Effect) : list string :=
  flat_map (fun e => match e with Fork w => [file w] | _ => [] end) effs.

(** Handles are numbered in the order [fork] made them. *)
Definition numbered (p : Pool) : Prop :=
  forall i w, nth_error (forked p) i = Some w -> id w = i.

(** The files of a pool against the files announced: those forked, then
    those passed over after bailing, then those still queued. *)
Definition accounted (selected : list string) (p : Pool) : Prop :=
  forkedFiles (effects (closure p)) = map file (forked p)
  /\ exists skipped,
      map file (forked p) ++ skipped ++ queue p = selected
      /\ (bailed (closure p) = false -> skipped = []).

(** JavaScript values as far as [normalizeRequireOption] tells them apart:
    [JsOther] stands for a value that is neither nullish, nor a string, nor
    iterable. *)
#[local] Unset Elimination Schemes.
Inductive Js : Type :=
| JsUndefined
| JsNull
| JsString (s : string)
| JsArray (items : list Js)
| JsOther (tag : string).
#[local] Set Elimination Schemes.

(** [typeof name === 'string'] *)
Definition isString (v : Js) : bool :=
  match v with JsString _ => true | _ => false end.

Section Require.

(** [arrify], an npm package: taken as given. *)
Variable arrify : Js -> list Js.

(** Lines 24-32. *)
Definition normalizeRequireOption (require : Js) : list Js :=
  map (fun name => if isString name then JsArray (arrify name) else name)
      (arrify require).

End Require.

(** What [arrify] documents: nullish values give the empty array, an array
    is returned as it is, a string or any other value is wrapped. *)
Definition arrifyDocumented (v : Js) : list Js :=
  match v with
  | JsUndefined | JsNull => []
  | JsArray items => items
  | _ => [v]
  end.

(** The cache directory (lines 316-335).  [path.join], [temp-dir],
    [path.sep] and the directory [fs.mkdtempSync] creates for a prefix are
    the platform's. *)
Record Platform : Type := mkPlatform {
  join : list string -> string;
  tempDir : string;
  sep : string;
  mkdtempSync : string -> string
}.

Inductive FsCall : Type :=
| Mkdtemp (prefix : string)
| Mkdir (dir : string).                  (* {recursive: true} *)

Definition _getLocalCacheDir (platform : Platform) (projectDir : string)
  : string :=
  join platform [projectDir; "node_modules"; ".cache"; "ava"]%string.

(** [_createCacheDir()] on an instance whose [_cacheDir] is [cached]:
    the directory returned, the new [_cacheDir], the file-system calls. *)
Definition _createCacheDir (platform : Platform) (projectDir : string)
           (options : Options) (cached : option string)
  : string * option string * list FsCall :=
  if truthyString cached
  then (match cached with Some dir => dir | None => EmptyString end, cached, [])
  else
    let prefix := String.append (tempDir platform) (sep platform) in
    let cacheDir :=
      if negb (cacheEnabled options)               (* === false *)
      then mkdtempSync platform prefix
      else _getLocalCacheDir platform projectDir in
    (cacheDir, Some cacheDir,
     (if negb (cacheEnabled options) then [Mkdtemp prefix] else [])
     ++ [Mkdir cacheDir]).

(** ** The reporter's [LineWriter] *)

Module LineWriter.

(** [dest] is seen through the chunks written to it, in order. *)
Record t : Type := mk {
  written : list string;
  columns : nat;
  lastLineIsEmpty : bool
}.

(** [constructor(dest)], with [dest.columns ?? 80]. *)
Definition new (destColumns : option nat) : t :=
  mk [] (match destColumns with Some c => c | None => 80 end) true.

Section Methods.

(** [os.EOL] and the [indent-string] package. *)
Variable EOL : string.
Variable indentString : string -> nat -> string.

(** [write(string)], down to [dest.write(chunk)]. *)
Definition write (string : string) (this : t) : t :=
  mk (written this ++ [string]) (columns this) false.

(** [writeLine(string, indent = true)]; [None] is a call without string. *)
Definition writeLine (string : option string) (indent : bool) (this : t) : t :=
  if truthyString string
  then
    let s := match string with Some s => s | None => EmptyString end in
    let this1 :=
      write (String.append (if indent then indentString s 2 else s) EOL) this in
    mk (written this1) (columns this1) false
  else
    let this1 := write EOL this in
    mk (written this1) (columns this1) true.

Definition ensureEmptyLine (this : t) : t :=
  if negb (lastLineIsEmpty this) then writeLine None true this else this.

(** Calls made on a line writer. *)
Inductive Call : Type :=
| CallWrite (string : string)
| CallWriteLine (string : option string) (indent : bool)
| CallEnsureEmptyLine.

Definition call (c : Call) (this : t) : t :=
  match c with
  | CallWrite s => write s this
  | CallWriteLine s indent => writeLine s indent this
  | CallEnsureEmptyLine => ensureEmptyLine this
  end.

Definition calls (cs : list Call) (this : t) : t :=
  fold_left (fun w c => call c w) cs this.

End Methods.

End LineWriter.

(** ** Sample configurations, used to exercise the statements below *)

Module Samples.

Definition trigger : TimeoutTrigger.t :=
  TimeoutTrigger.ignoreFor 0 500
    (TimeoutTrigger.debounce 0
       (TimeoutTrigger.new TimeoutTrigger.Noop 100)).

Definition host : Host :=
  mkHost false 0 (fun _ => 100%Z)
         (fun a b => match String.compare a b with
                     | Lt => (-1)%Z | Eq => 0%Z | Gt => 1%Z
                     end).

Definition sevenFiles : list string :=
  ["g.js"; "b.js"; "e.js"; "a.js"; "f.js"; "c.js"; "d.js"]%string.

Definition parallelOptions : Options :=
  mkOptions false false None None None (Some (mkParallel 1 3)) None true.

Definition failFastOptions : Options :=
  mkOptions true false (Some 2%Z) (Some "100ms"%string) None None None true.

Definition threeFiles : list string := ["a.js"; "b.js"; "c.js"]%string.

Definition status : RunStatus := mkRunStatus 3 None (mkInsights [] 3 3).

(** The variables of a run about to start its pool, and the pool once the
    first two of three files have been handed over at time 0. *)
Definition started : RunState :=
  mkState false [] [] (newTimeoutTrigger host failFastOptions) (Some status)
          true [].

Definition pool : Pool := pump 0 threeFiles (mkPool started [] [] 2).

Definition noArgs : RunArgs := mkArgs [] [] None.

Definition brokenDiscovery : Collaborators :=
  mkCollaborators (Throw (Thrown "EACCES")) (fun _ l => Ok l) (fun l => l)
                  (Ok tt) None 0.

Definition nothingFound : Collaborators :=
  mkCollaborators (Ok []) (fun _ l => Ok l) (fun l => l) (Ok tt) None 0.

Definition threeFound : Collaborators :=
  mkCollaborators (Ok threeFiles) (fun _ l => Ok l) (fun l => l) (Ok tt)
                  None 0.

Definition debugOptions : Options :=
  mkOptions false false None (Some "100ms"%string) (Some (mkDebug true))
            None None true.

Definition oneFile : RunArgs := mkArgs ["a.js"%string] [] None.

End Samples.

(** ** Scenarios for the further properties *)

Module Scenarios.

(** The sample pool after an interrupt at time 7, and after its first
    worker has exited at time 9. *)
Definition interrupted : Pool :=
  match step Samples.failFastOptions 7 Sigint Samples.pool with
  | Ok p => p
  | Throw _ => Samples.pool
  end.

Definition firstExited : Pool :=
  match step Samples.failFastOptions 9 (WorkerExited 0) Samples.pool with
  | Ok p => p
  | Throw _ => Samples.pool
  end.

(** No fail-fast, a timeout of 100 ms, three files at concurrency 2. *)
Definition patientOptions : Options :=
  mkOptions false false (Some 2%Z) (Some "100ms"%string) None None None true.

(** Two workers time out, the third file still runs. *)
Definition timeoutThenFinish : list (Z * Occurrence) :=
  [(150%Z, TimerExpired); (151%Z, WorkerExited 0); (152%Z, WorkerExited 1);
   (160%Z, WorkerStateChange 2 TestPassed); (170%Z, WorkerExited 2)].

Definition brokenFilter : Collaborators :=
  mkCollaborators (Ok Samples.threeFiles)
                  (fun _ _ => Throw (Thrown "bad pattern"))
                  (fun l => l) (Ok tt) None 0.

Definition filtered : RunArgs := mkArgs [] ["b*"%string] None.

(** A comparator by length of name, and five files it puts in order. *)
Definition byLength (a b : string) : Z :=
  (Z.of_nat (String.length a) - Z.of_nat (String.length b))%Z.

Definition lengthOptions : Options :=
  mkOptions false false None None None None (Some byLength) true.

Definition fiveFiles : list string :=
  ["ccc.js"; "a.js"; "dddd.js"; "bb.js"; "b.js"]%string.

Definition fiveFound : Collaborators :=
  mkCollaborators (Ok fiveFiles) (fun _ l => Ok l) (fun l => l) (Ok tt)
                  None 0.

Definition posix : Platform :=
  mkPlatform (fun parts => String.concat "/" parts) "/tmp" "/"
             (fun prefix => String.append prefix "abc123").

End Scenarios.

(** * Properties *)

(** ** Watchdog timer *)

Module TimeoutTriggerFacts.
Import TimeoutTrigger.

Lemma discard_scheduledAt (this : t) : scheduledAt (discard this) = None.
Proof.
  unfold scheduledAt, discard; simpl.
  destruct (timer this); reflexivity.
Qed.

Lemma discard_expire (this : t) (now : Z) : expire now (discard this) = None.
Proof.
  unfold expire, discard; simpl.
  destruct (timer this); reflexivity.
Qed.

Lemma debounce_discard_fixed (this : t) (now : Z) :
  timer this <> None -> debounce now (discard this) = discard this.
Proof.
  intros Hsome. unfold debounce, discard; simpl.
  destruct (timer this) as [h|]; [reflexivity | contradiction].
Qed.

Lemma debounce_keeps_ignoreUntil (this : t) (now : Z) :
  ignoreUntil (debounce now this) = ignoreUntil this.
Proof. unfold debounce; destruct (timer this); reflexivity. Qed.

Lemma debounce_keeps_fn (this : t) (now : Z) :
  fn (debounce now this) = fn this.
Proof. unfold debounce; destruct (timer this); reflexivity. Qed.

(** C6: [ignoreFor(P)] at time [T] sets the ignore horizon to
    [max(horizon, T+P)], so the horizon never moves backward; and when a
    scheduled deadline [d] fires at a time [F] strictly before the horizon,
    no callback is handed out, nothing is scheduled afterwards and no
    later expiry exists, until a [debounce()] at [T'] schedules the handle
    again, at [T'] plus its delay. *)
Theorem ignoreFor_horizon_and_suppressed_firing :
  forall (this : t) (T P : Z),
    ignoreUntil (ignoreFor T P this) = Z.max (ignoreUntil this) (T + P)
    /\ (ignoreUntil this <= ignoreUntil (ignoreFor T P this))%Z
    /\ forall (w d F : Z),
        timer this = Some (mkTimer w (Scheduled d)) ->
        (d <= F)%Z ->
        (F < ignoreUntil this)%Z ->
        exists this',
          expire F this = Some (this', None)
          /\ scheduledAt this' = None
          /\ (forall F', expire F' this' = None)
          /\ ignoreUntil this' = ignoreUntil this
          /\ forall T', scheduledAt (debounce T' this') = Some (T' + w)%Z.
Proof.
  intros this T P. split; [reflexivity|]. split.
  - simpl. apply Z.le_max_l.
  - intros w d F Htimer Hdue Hearly.
    unfold expire, trigger. rewrite Htimer.
    assert (Hd : (d <=? F)%Z = true) by (apply Z.leb_le; exact Hdue).
    assert (Hi : (ignoreUntil this <=? F)%Z = false) by (apply Z.leb_gt; exact Hearly).
    rewrite Hd, Hi.
    eexists. split; [reflexivity|].
    repeat split; reflexivity.
Qed.

Lemma ignoreFor_horizon_and_suppressed_firing_witness :
  ignoreUntil Samples.trigger = 500%Z
  /\ exists this',
      expire 100 Samples.trigger = Some (this', None)
      /\ scheduledAt this' = None
      /\ (forall F', expire F' this' = None)
      /\ ignoreUntil this' = ignoreUntil Samples.trigger
      /\ forall T', scheduledAt (debounce T' this') = Some (T' + 100)%Z.
Proof.
  split; [reflexivity|].
  destruct (ignoreFor_horizon_and_suppressed_firing Samples.trigger 0 0)
    as [_ [_ H]].
  apply (H 100%Z 100%Z 100%Z); [reflexivity | lia | simpl; lia].
Defined.

(** C7, as stated, fails: after [discard()] a [debounce()] does not always
    schedule a firing at now+wait. *)
Lemma debounce_after_discard_does_not_rearm :
  ~ (forall (this : t) (now : Z),
        scheduledAt (debounce now (discard this)) = Some (now + waitMs this)%Z).
Proof.
  intros H.
  specialize (H (debounce 0 (new Noop 100)) 5%Z).
  discriminate H.
Qed.

(** C7, amended: [discard()] cancels any pending timer (nothing is
    scheduled and no expiry can occur), but it keeps the cleared handle:
    once a timer has been created, a later [debounce()] only refreshes the
    cleared handle and changes nothing, so the watchdog stays disabled;
    only when no timer had been created does a [debounce()] after
    [discard()] schedule a firing at now+wait. *)
Theorem discard_keeps_cleared_handle :
  forall (this : t) (now : Z),
    scheduledAt (discard this) = None
    /\ (forall F, expire F (discard this) = None)
    /\ (timer this <> None ->
        debounce now (discard this) = discard this
        /\ scheduledAt (debounce now (discard this)) = None)
    /\ (timer this = None ->
        scheduledAt (debounce now (discard this)) = Some (now + waitMs this)%Z).
Proof.
  intros this now. split; [apply discard_scheduledAt|].
  split; [intros F; apply discard_expire|]. split.
  - intros Hsome. rewrite (debounce_discard_fixed this now Hsome).
    split; [reflexivity | apply discard_scheduledAt].
  - intros Hnone. unfold debounce, discard, scheduledAt; simpl.
    rewrite Hnone. reflexivity.
Qed.

Lemma discard_keeps_cleared_handle_witness :
  (let this := debounce 0 (new Noop 100) in
   debounce 5 (discard this) = discard this
   /\ scheduledAt (debounce 5 (discard this)) = None)
  /\ scheduledAt (debounce 5 (discard (new Noop 100))) = Some (5 + 100)%Z.
Proof.
  split.
  - destruct (discard_keeps_cleared_handle (debounce 0 (new Noop 100)) 5)
      as [_ [_ [H _]]].
    apply H. discriminate.
  - destruct (discard_keeps_cleared_handle (new Noop 100) 5)
      as [_ [_ [_ H]]].
    apply H. reflexivity.
Defined.

End TimeoutTriggerFacts.

(** ** Concurrency *)

(** C2, as stated, fails: an explicitly configured positive concurrency does
    not win over serial mode. *)
Lemma explicit_concurrency_does_not_override_serial :
  ~ (forall (host : Host) (apiOptions : Options) (c : Z),
        concurrency apiOptions = Some c -> (0 < c)%Z ->
        resolveConcurrency host apiOptions = c).
Proof.
  intros H.
  specialize (H (mkHost false 8 (fun _ => 0%Z) (fun _ _ => 0%Z))
                (mkOptions false true (Some 4%Z) None None None None true)
                4%Z eq_refl eq_refl).
  discriminate H.
Qed.

(** C2, amended: serial mode forces concurrency 1; otherwise an explicitly
    configured positive concurrency is used; otherwise a CI-detected
    environment yields 2; otherwise the host's logical core count with a
    floor of 1.  The result is at least 1 in every case. *)
Theorem resolveConcurrency_precedence :
  forall (host : Host) (apiOptions : Options),
    (serial apiOptions = true -> resolveConcurrency host apiOptions = 1%Z)
    /\ (forall c, serial apiOptions = false ->
                  concurrency apiOptions = Some c -> (0 < c)%Z ->
                  resolveConcurrency host apiOptions = c)
    /\ (serial apiOptions = false -> positive (concurrency apiOptions) = false ->
        isCi host = true -> resolveConcurrency host apiOptions = 2%Z)
    /\ (serial apiOptions = false -> positive (concurrency apiOptions) = false ->
        isCi host = false ->
        resolveConcurrency host apiOptions = Z.max 1 (Z.of_nat (cpus host)))
    /\ (1 <= resolveConcurrency host apiOptions)%Z.
Proof.
  intros host apiOptions. unfold resolveConcurrency, positive.
  repeat split.
  - intros ->. reflexivity.
  - intros c -> -> Hc. apply Z.ltb_lt in Hc. rewrite Hc. reflexivity.
  - intros -> -> ->. reflexivity.
  - intros -> -> ->. reflexivity.
  - destruct (serial apiOptions); [lia|].
    destruct (concurrency apiOptions) as [c|].
    + destruct (0 <? c)%Z eqn:Hc.
      * apply Z.ltb_lt in Hc. lia.
      * destruct (isCi host); lia.
    + destruct (isCi host); lia.
Qed.

Lemma resolveConcurrency_precedence_witness :
  resolveConcurrency Samples.host
    (mkOptions false true (Some 4%Z) None None None None true) = 1%Z
  /\ resolveConcurrency Samples.host
       (mkOptions false false (Some 4%Z) None None None None true) = 4%Z
  /\ resolveConcurrency (mkHost true 8 (ms Samples.host) (localeCompareNumeric Samples.host))
       (mkOptions false false (Some 0%Z) None None None None true) = 2%Z
  /\ resolveConcurrency Samples.host
       (mkOptions false false None None None None None true) = Z.max 1 (Z.of_nat 0).
Proof.
  split; [|split; [|split]].
  - destruct (resolveConcurrency_precedence Samples.host
                (mkOptions false true (Some 4%Z) None None None None true))
      as [H _].
    apply H. reflexivity.
  - destruct (resolveConcurrency_precedence Samples.host
                (mkOptions false false (Some 4%Z) None None None None true))
      as [_ [H _]].
    apply H; [reflexivity | reflexivity | lia].
  - destruct (resolveConcurrency_precedence
                (mkHost true 8 (ms Samples.host) (localeCompareNumeric Samples.host))
                (mkOptions false false (Some 0%Z) None None None None true))
      as [_ [_ [H _]]].
    apply H; reflexivity.
  - destruct (resolveConcurrency_precedence Samples.host
                (mkOptions false false None None None None None true))
      as [_ [_ [_ [H _]]]].
    apply H; reflexivity.
Defined.

(** ** Sorting and partitioning *)

Section Partition.

Variable cmp : string -> string -> Z.

Lemma insertSorted_perm (x : string) (l : list string) :
  Permutation (insertSorted cmp x l) (x :: l).
Proof.
  induction l as [|y l IH]; simpl.
  - apply Permutation_refl.
  - destruct (0 <? cmp x y)%Z.
    + apply perm_trans with (y :: x :: l).
      * apply perm_skip. exact IH.
      * apply perm_swap.
    + apply Permutation_refl.
Qed.

Lemma sort_perm (l : list string) : Permutation (sort cmp l) l.
Proof.
  induction l as [|x l IH]; simpl.
  - apply perm_nil.
  - apply perm_trans with (x :: sort cmp l).
    + apply insertSorted_perm.
    + apply perm_skip. exact IH.
Qed.

(** Adjacent files of the result are in comparator order as soon as the
    comparator never puts two files each strictly after the other, which a
    consistent comparator never does. *)
Hypothesis cmp_consistent : forall a b, (0 < cmp a b)%Z -> (cmp b a <= 0)%Z.

Lemma insertSorted_sorted (x : string) (l : list string) :
  Sorted (ordered cmp) l -> Sorted (ordered cmp) (insertSorted cmp x l).
Proof.
  induction l as [|y l IH]; simpl; intros Hs.
  - constructor; constructor.
  - destruct (0 <? cmp x y)%Z eqn:Hxy.
    + apply Z.ltb_lt in Hxy.
      inversion Hs as [|y' l' Hl Hhd]; subst.
      constructor; [apply IH; exact Hl|].
      destruct l as [|z l]; simpl.
      * constructor. apply cmp_consistent. exact Hxy.
      * destruct (0 <? cmp x z)%Z.
        -- constructor. inversion Hhd; subst. assumption.
        -- constructor. apply cmp_consistent. exact Hxy.
    + apply Z.ltb_ge in Hxy.
      constructor; [exact Hs|]. constructor. exact Hxy.
Qed.

Lemma sort_sorted (l : list string) : Sorted (ordered cmp) (sort cmp l).
Proof.
  induction l as [|x l IH]; simpl.
  - constructor.
  - apply insertSorted_sorted. exact IH.
Qed.

End Partition.

Lemma firstn_plus {A : Type} (a b : nat) (l : list A) :
  firstn (a + b) l = firstn a l ++ firstn b (skipn a l).
Proof.
  revert l. induction a as [|a IH]; intros l; simpl.
  - reflexivity.
  - destruct l as [|x l]; simpl.
    + rewrite firstn_nil. reflexivity.
    + rewrite IH. reflexivity.
Qed.

Lemma chunkd_unfold {A : Type} (l : list A) (i total : nat) :
  chunkd l i total =
  firstn (List.length l / total + (if i <? List.length l mod total then 1 else 0))
         (skipn (Nat.min i (List.length l mod total) + i * (List.length l / total)) l).
Proof.
  unfold chunkd, slice. f_equal. lia.
Qed.

Lemma chunkd_prefix {A : Type} (l : list A) (total k : nat) :
  List.concat (map (fun i => chunkd l i total) (seq 0 k)) =
  firstn (Nat.min k (List.length l mod total) + k * (List.length l / total)) l.
Proof.
  induction k as [|k IH].
  - reflexivity.
  - rewrite seq_S, map_app, concat_app, IH.
    change (0 + k) with k. cbn [map List.concat].
    rewrite app_nil_r, chunkd_unfold.
    rewrite <- firstn_plus. f_equal.
    rewrite Nat.mul_succ_l.
    destruct (Nat.ltb_spec k (List.length l mod total)); lia.
Qed.

Lemma chunkd_concat {A : Type} (l : list A) (N : nat) :
  0 < N -> List.concat (map (fun i => chunkd l i N) (seq 0 N)) = l.
Proof.
  intros HN. rewrite chunkd_prefix.
  assert (Hr : List.length l mod N < N) by (apply Nat.mod_upper_bound; lia).
  assert (Hdm : List.length l = N * (List.length l / N) + List.length l mod N)
    by (apply Nat.div_mod_eq).
  replace (Nat.min N (List.length l mod N) + N * (List.length l / N))
    with (List.length l) by lia.
  apply firstn_all.
Qed.

(** *** Consistent comparators: order, stability, uniqueness *)

Section Consistent.

Variable cmp : string -> string -> Z.
Hypothesis cmp_ok : consistent cmp.

Lemma consistent_weak (a b : string) : (0 < cmp a b)%Z -> (cmp b a <= 0)%Z.
Proof.
  intros H. apply (cmp_converse cmp_ok) in H. lia.
Qed.

Lemma equivalent_sym (a b : string) :
  equivalent cmp a b = true -> equivalent cmp b a = true.
Proof.
  unfold equivalent. rewrite !Z.eqb_eq. intros H.
  destruct (Z.lt_trichotomy (cmp b a) 0) as [Hlt|[Heq|Hgt]].
  - apply (cmp_converse cmp_ok) in Hlt. lia.
  - exact Heq.
  - apply (cmp_converse cmp_ok) in Hgt. lia.
Qed.

Lemma ordered_transitive : Relations_1.Transitive (ordered cmp).
Proof.
  intros a b c. unfold ordered. apply (cmp_trans cmp_ok).
Qed.

Lemma sort_strongly_sorted (l : list string) :
  StronglySorted (ordered cmp) (sort cmp l).
Proof.
  apply Sorted_StronglySorted; [exact ordered_transitive|].
  apply sort_sorted. exact consistent_weak.
Qed.

(** Files that compare as equal keep their order. *)
Lemma insertSorted_stable (a x : string) (l : list string) :
  List.filter (equivalent cmp a) (insertSorted cmp x l)
  = List.filter (equivalent cmp a) (x :: l).
Proof.
  induction l as [|y l IH].
  - reflexivity.
  - cbn [insertSorted]. destruct (0 <? cmp x y)%Z eqn:Hxy; [|reflexivity].
    apply Z.ltb_lt in Hxy.
    cbn [List.filter] in *. rewrite IH.
    destruct (equivalent cmp a x) eqn:Hax;
      destruct (equivalent cmp a y) eqn:Hay; try reflexivity.
    exfalso. apply equivalent_sym in Hax.
    unfold equivalent in Hax, Hay. rewrite Z.eqb_eq in Hax, Hay.
    assert (cmp x y <= 0)%Z by (apply (cmp_trans cmp_ok) with a; lia).
    lia.
Qed.

Lemma sort_stable (a : string) (l : list string) :
  List.filter (equivalent cmp a) (sort cmp l) = List.filter (equivalent cmp a) l.
Proof.
  induction l as [|x l IH].
  - reflexivity.
  - change (sort cmp (x :: l)) with (insertSorted cmp x (sort cmp l)).
    rewrite insertSorted_stable. cbn [List.filter]. rewrite IH. reflexivity.
Qed.

(** Two arrangements in comparator order that agree on the order of the
    files comparing as equal are the same list: the result of a stable sort
    is determined. *)
Lemma stable_sort_unique (l1 l2 : list string) :
  StronglySorted (ordered cmp) l1 ->
  StronglySorted (ordered cmp) l2 ->
  (forall a, List.filter (equivalent cmp a) l1
             = List.filter (equivalent cmp a) l2) ->
  l1 = l2.
Proof.
  revert l2. induction l1 as [|x l1 IH]; intros l2 Hs1 Hs2 Hsame.
  - destruct l2 as [|y l2]; [reflexivity|].
    specialize (Hsame y). cbn [List.filter] in Hsame.
    unfold equivalent in Hsame at 1. rewrite (cmp_refl cmp_ok) in Hsame.
    discriminate.
  - destruct l2 as [|y l2].
    + specialize (Hsame x). cbn [List.filter] in Hsame.
      unfold equivalent in Hsame at 1. rewrite (cmp_refl cmp_ok) in Hsame.
      discriminate.
    + inversion Hs1 as [|x' l1' Hs1' Hall1]; subst.
      inversion Hs2 as [|y' l2' Hs2' Hall2]; subst.
      rewrite Forall_forall in Hall1, Hall2.
      assert (Hxx : equivalent cmp x x = true)
        by (unfold equivalent; rewrite (cmp_refl cmp_ok); reflexivity).
      assert (Hyy : equivalent cmp y y = true)
        by (unfold equivalent; rewrite (cmp_refl cmp_ok); reflexivity).
      assert (Hxy : (cmp x y <= 0)%Z).
      { assert (Hy : In y (List.filter (equivalent cmp y) (y :: l2)))
          by (apply filter_In; split; [left; reflexivity | exact Hyy]).
        rewrite <- (Hsame y) in Hy. apply filter_In in Hy.
        destruct Hy as [[<- | Hin] _].
        - rewrite (cmp_refl cmp_ok). lia.
        - apply Hall1. exact Hin. }
      assert (Hyx : (cmp y x <= 0)%Z).
      { assert (Hx : In x (List.filter (equivalent cmp x) (x :: l1)))
          by (apply filter_In; split; [left; reflexivity | exact Hxx]).
        rewrite (Hsame x) in Hx. apply filter_In in Hx.
        destruct Hx as [[<- | Hin] _].
        - rewrite (cmp_refl cmp_ok). lia.
        - apply Hall2. exact Hin. }
      assert (Heqv : equivalent cmp x y = true).
      { unfold equivalent. rewrite Z.eqb_eq.
        destruct (Z.lt_trichotomy (cmp x y) 0) as [Hlt|[Heq|Hgt]];
          [|exact Heq|lia].
        assert (0 < cmp y x)%Z by (apply (cmp_converse cmp_ok); exact Hlt).
        lia. }
      assert (Hhead : x = y).
      { pose proof (Hsame x) as Hx. cbn [List.filter] in Hx.
        rewrite Hxx, Heqv in Hx. congruence. }
      subst y. f_equal. apply IH; try assumption.
      intros a. specialize (Hsame a). cbn [List.filter] in Hsame.
      destruct (equivalent cmp a x); congruence.
Qed.

(** Whatever sorts stably gives the list [sort] gives. *)
Lemma sort_determined (l sorted : list string) :
  StronglySorted (ordered cmp) sorted ->
  (forall a, List.filter (equivalent cmp a) sorted
             = List.filter (equivalent cmp a) l) ->
  sorted = sort cmp l.
Proof.
  intros Hs Hstable. apply stable_sort_unique.
  - exact Hs.
  - apply sort_strongly_sorted.
  - intros a. rewrite sort_stable. apply Hstable.
Qed.

End Consistent.

(** ** The handlers, in closed form *)

Ltac splits := repeat match goal with |- _ /\ _ => split end.

Lemma count_app (f : Effect -> bool) (l l' : list Effect) :
  count f (l ++ l') = count f l + count f l'.
Proof. unfold count. rewrite filter_app, length_app. reflexivity. Qed.

Lemma count_map_none (f : Effect -> bool) (g : Worker -> Effect)
      (ws : list Worker) :
  (forall w, f (g w) = false) -> count f (map g ws) = 0.
Proof.
  intros Hf. unfold count.
  induction ws as [|w ws IH]; simpl; [reflexivity|].
  rewrite Hf. exact IH.
Qed.

Lemma count_map_once (f : Worker -> Effect -> bool) (g : Worker -> Effect)
      (ws : list Worker) (w : Worker) :
  (forall a b, f a (g b) = sameWorker a b) ->
  NoDup (map id ws) -> In w ws -> count (f w) (map g ws) = 1.
Proof.
  intros Hf. unfold count.
  induction ws as [|x ws IH]; simpl; intros Hnd Hin; [contradiction|].
  inversion Hnd as [|i l Hnotin Hnd']; subst.
  rewrite Hf. unfold sameWorker.
  destruct Hin as [->|Hin].
  - rewrite Nat.eqb_refl. simpl. f_equal.
    clear IH Hnd Hnd'. induction ws as [|y ws IH]; simpl; [reflexivity|].
    rewrite Hf. unfold sameWorker.
    destruct (Nat.eqb_spec (id w) (id y)) as [Heq|Hne].
    + exfalso. apply Hnotin. simpl. left. symmetry. exact Heq.
    + apply IH. intros Hin. apply Hnotin. simpl. right. exact Hin.
  - destruct (Nat.eqb_spec (id w) (id x)) as [Heq|Hne].
    + exfalso. apply Hnotin. rewrite <- Heq. apply in_map. exact Hin.
    + apply IH; assumption.
Qed.

Lemma notify_loop (ws : list Worker) (st : RunState) :
  fold_left (fun s worker => perform (NotifyOfPeerFailure worker) s) ws st =
  mkState (bailed st) (pendingWorkers st) (timedOutWorkerFiles st)
          (timeoutTrigger st) (runStatus st) (listening st)
          (effects st ++ map NotifyOfPeerFailure ws).
Proof.
  revert st. induction ws as [|w ws IH]; intros st; simpl.
  - rewrite app_nil_r. destruct st; reflexivity.
  - rewrite IH. simpl. rewrite <- app_assoc. reflexivity.
Qed.

Lemma exit_loop (ws : list Worker) (st : RunState) :
  fold_left (fun s worker => perform (Exit worker) s) ws st =
  mkState (bailed st) (pendingWorkers st) (timedOutWorkerFiles st)
          (timeoutTrigger st) (runStatus st) (listening st)
          (effects st ++ map Exit ws).
Proof.
  revert st. induction ws as [|w ws IH]; intros st; simpl.
  - rewrite app_nil_r. destruct st; reflexivity.
  - rewrite IH. simpl. rewrite <- app_assoc. reflexivity.
Qed.

Lemma timeout_loop (ws : list Worker) (st : RunState) :
  fold_left
    (fun s worker =>
       perform (Exit worker)
               (setTimedOutWorkerFiles
                  (addFile (file worker) (timedOutWorkerFiles s)) s))
    ws st =
  mkState (bailed st) (pendingWorkers st)
          (fold_left (fun s worker => addFile (file worker) s) ws
                     (timedOutWorkerFiles st))
          (timeoutTrigger st) (runStatus st) (listening st)
          (effects st ++ map Exit ws).
Proof.
  revert st. induction ws as [|w ws IH]; intros st; simpl.
  - rewrite app_nil_r. destruct st; reflexivity.
  - rewrite IH. simpl. rewrite <- app_assoc. reflexivity.
Qed.

Lemma hasFile_addFile (f g : string) (s : list string) :
  hasFile f (addFile g s) = hasFile f s || String.eqb f g.
Proof.
  unfold addFile. destruct (hasFile g s) eqn:Hg.
  - destruct (String.eqb_spec f g) as [->|Hne].
    + rewrite Hg. reflexivity.
    + rewrite orb_false_r. reflexivity.
  - unfold hasFile. rewrite existsb_app. simpl. rewrite orb_false_r.
    reflexivity.
Qed.

Lemma hasFile_timed_out (ws : list Worker) (s : list string) (f : string) :
  hasFile f (fold_left (fun s worker => addFile (file worker) s) ws s) =
  hasFile f s || existsb (fun w => String.eqb f (file w)) ws.
Proof.
  revert s. induction ws as [|w ws IH]; intros s; simpl.
  - rewrite orb_false_r. reflexivity.
  - rewrite IH, hasFile_addFile, orb_assoc. reflexivity.
Qed.

Section Handlers.

Variable apiOptions : Options.

Lemma stateChangeListener_closed (now : Z) (record : StateChange)
      (st : RunState) :
  stateChangeListener apiOptions now record st =
  mkState (bailed st || (failFast apiOptions && isFailure record))
          (pendingWorkers st) (timedOutWorkerFiles st)
          (if qualifies record (timedOutWorkerFiles st)
           then TimeoutTrigger.debounce now (timeoutTrigger st)
           else timeoutTrigger st)
          (runStatus st) (listening st)
          (effects st ++
           if failFast apiOptions && isFailure record
           then map NotifyOfPeerFailure (pendingWorkers st) else []).
Proof.
  unfold stateChangeListener.
  destruct (failFast apiOptions && isFailure record);
    destruct (qualifies record (timedOutWorkerFiles st));
    rewrite ?notify_loop; destruct st; simpl;
    rewrite ?orb_true_r, ?orb_false_r, ?app_nil_r; reflexivity.
Qed.

Lemma emitStateChange_closed (now : Z) (record : StateChange)
      (st : RunState) (rs : RunStatus) :
  runStatus st = Some rs ->
  emitStateChange apiOptions now record st =
  Ok (mkState
        (bailed st || (listening st && (failFast apiOptions && isFailure record)))
        (pendingWorkers st) (timedOutWorkerFiles st)
        (if listening st && qualifies record (timedOutWorkerFiles st)
         then TimeoutTrigger.debounce now (timeoutTrigger st)
         else timeoutTrigger st)
        (Some rs) (listening st)
        (effects st ++ EmitStateChange record ::
         if listening st && (failFast apiOptions && isFailure record)
         then map NotifyOfPeerFailure (pendingWorkers st) else [])).
Proof.
  intros Hrs. unfold emitStateChange. rewrite Hrs. f_equal.
  destruct (listening st) eqn:Hl.
  - rewrite stateChangeListener_closed. simpl.
    rewrite Hrs, Hl, <- app_assoc. reflexivity.
  - destruct st; simpl in *. subst. rewrite orb_false_r. reflexivity.
Qed.

Lemma timeoutHandler_closed (now timeout : Z) (st : RunState)
      (rs : RunStatus) :
  runStatus st = Some rs ->
  timeoutHandler apiOptions now timeout st =
  Normal (mkState
        (failFast apiOptions || bailed st)
        (pendingWorkers st)
        (fold_left (fun s worker => addFile (file worker) s)
                   (pendingWorkers st) (timedOutWorkerFiles st))
        (timeoutTrigger st) (Some rs) (listening st)
        (effects st ++ EmitStateChange (EvTimeout timeout) ::
         map Exit (pendingWorkers st))).
Proof.
  intros Hrs. unfold timeoutHandler.
  rewrite emitStateChange_closed with (rs := rs).
  - simpl. rewrite timeout_loop. simpl.
    rewrite !andb_false_r, orb_false_r, <- app_assoc.
    destruct (failFast apiOptions); reflexivity.
  - destruct (failFast apiOptions); exact Hrs.
Qed.

Lemma interruptHandler_closed (now : Z) (st : RunState) (rs : RunStatus) :
  runStatus st = Some rs -> bailed st = false ->
  interruptHandler apiOptions now st =
  Normal (mkState true (pendingWorkers st) (timedOutWorkerFiles st)
              (TimeoutTrigger.discard (timeoutTrigger st)) (Some rs)
              (listening st)
              (effects st ++ EmitStateChange EvInterrupt ::
               map Exit (pendingWorkers st))).
Proof.
  intros Hrs Hb. unfold interruptHandler. rewrite Hb.
  rewrite emitStateChange_closed with (rs := rs) by exact Hrs.
  simpl. rewrite exit_loop. simpl.
  rewrite !andb_false_r, <- app_assoc. reflexivity.
Qed.

Lemma onStateChange_closed (now : Z) (worker : Worker) (data : WorkerEvent)
      (st : RunState) (rs : RunStatus) :
  runStatus st = Some rs ->
  onStateChange apiOptions now worker data st =
  Ok (mkState
        (bailed st
         || (listening st
             && (failFast apiOptions && isFailure (EvWorker (file worker) data))))
        (pendingWorkers st) (timedOutWorkerFiles st)
        (if listening st
            && qualifies (EvWorker (file worker) data) (timedOutWorkerFiles st)
         then TimeoutTrigger.debounce now
                (noteTestTimeout apiOptions now data (timeoutTrigger st))
         else noteTestTimeout apiOptions now data (timeoutTrigger st))
        (Some rs) (listening st)
        (effects st ++ EmitStateChange (EvWorker (file worker) data) ::
         if listening st
            && (failFast apiOptions && isFailure (EvWorker (file worker) data))
         then map NotifyOfPeerFailure (pendingWorkers st) else [])).
Proof.
  intros Hrs. unfold onStateChange.
  rewrite emitStateChange_closed with (rs := rs) by exact Hrs.
  reflexivity.
Qed.

End Handlers.

(** ** The pool: mapper and pump *)

Lemma debounce_timer (now : Z) (trig : TimeoutTrigger.t) :
  TimeoutTrigger.timer (TimeoutTrigger.debounce now trig) <> None.
Proof.
  unfold TimeoutTrigger.debounce.
  destruct (TimeoutTrigger.timer trig); simpl; discriminate.
Qed.

Lemma discard_timer (trig : TimeoutTrigger.t) :
  TimeoutTrigger.timer trig <> None ->
  TimeoutTrigger.timer (TimeoutTrigger.discard trig) <> None.
Proof.
  unfold TimeoutTrigger.discard; simpl.
  destruct (TimeoutTrigger.timer trig); simpl; [discriminate | tauto].
Qed.

Lemma noteTestTimeout_timer (o : Options) (now : Z) (data : WorkerEvent)
      (trig : TimeoutTrigger.t) :
  TimeoutTrigger.timer (noteTestTimeout o now data trig) = TimeoutTrigger.timer trig.
Proof.
  unfold noteTestTimeout. destruct data; try reflexivity.
  destruct (negb (truthyObject (debug o))); reflexivity.
Qed.

Lemma noteTestTimeout_fn (o : Options) (now : Z) (data : WorkerEvent)
      (trig : TimeoutTrigger.t) :
  TimeoutTrigger.fn (noteTestTimeout o now data trig) = TimeoutTrigger.fn trig.
Proof.
  unfold noteTestTimeout. destruct data; try reflexivity.
  destruct (negb (truthyObject (debug o))); reflexivity.
Qed.

Lemma expire_shape (now : Z) (trig trig' : TimeoutTrigger.t)
      (fn : option TimeoutTrigger.Callback) :
  TimeoutTrigger.expire now trig = Some (trig', fn) ->
  TimeoutTrigger.fn trig' = TimeoutTrigger.fn trig
  /\ TimeoutTrigger.ignoreUntil trig' = TimeoutTrigger.ignoreUntil trig
  /\ TimeoutTrigger.timer trig' <> None
  /\ TimeoutTrigger.scheduledAt trig <> None
  /\ (forall cb, fn = Some cb -> cb = TimeoutTrigger.fn trig).
Proof.
  unfold TimeoutTrigger.expire, TimeoutTrigger.trigger, TimeoutTrigger.scheduledAt.
  destruct (TimeoutTrigger.timer trig) as [[w [d| |]]|]; try discriminate.
  destruct (d <=? now)%Z; try discriminate.
  intros H. injection H as <- <-. simpl.
  repeat split; try discriminate.
  intros cb. destruct (TimeoutTrigger.ignoreUntil trig <=? now)%Z;
    intros Hcb; [injection Hcb as <-; reflexivity | discriminate].
Qed.

Lemma addWorker_in (w x : Worker) (s : list Worker) :
  In x (addWorker w s) -> x = w \/ In x s.
Proof.
  unfold addWorker. destruct (hasWorker w s).
  - intros H. right. exact H.
  - intros H. apply in_app_or in H. destruct H as [H|[H|[]]].
    + right. exact H.
    + left. symmetry. exact H.
Qed.

Lemma addWorker_distinct (w : Worker) (s : list Worker) :
  NoDup (map id s) -> NoDup (map id (addWorker w s)).
Proof.
  intros Hnd. unfold addWorker. destruct (hasWorker w s) eqn:Hhas; [exact Hnd|].
  rewrite map_app. simpl.
  apply NoDup_app; [exact Hnd | constructor; [intros [] | constructor] |].
  intros i Hi [Hw|[]]. subst i.
  apply in_map_iff in Hi. destruct Hi as [x [Hid Hx]].
  unfold hasWorker in Hhas.
  assert (Hex : existsb (sameWorker w) s = true).
  { apply existsb_exists. exists x. split; [exact Hx|].
    unfold sameWorker. rewrite Hid. apply Nat.eqb_refl. }
  rewrite Hex in Hhas. discriminate.
Qed.

Lemma addWorker_length (w : Worker) (s : list Worker) :
  List.length (addWorker w s) <= S (List.length s).
Proof.
  unfold addWorker. destruct (hasWorker w s).
  - lia.
  - rewrite length_app. simpl. lia.
Qed.

Lemma deleteWorker_in (w x : Worker) (s : list Worker) :
  In x (deleteWorker w s) -> In x s.
Proof. unfold deleteWorker. intros H. apply filter_In in H. tauto. Qed.

Lemma deleteWorker_distinct (w : Worker) (s : list Worker) :
  NoDup (map id s) -> NoDup (map id (deleteWorker w s)).
Proof.
  unfold deleteWorker. induction s as [|x s IH]; simpl; intros Hnd; [constructor|].
  inversion Hnd as [|i l Hnotin Hnd']; subst.
  destruct (negb (sameWorker w x)); simpl.
  - constructor; [|apply IH; exact Hnd'].
    intros Hin. apply Hnotin.
    apply in_map_iff in Hin. destruct Hin as [y [Hid Hy]].
    apply in_map_iff. exists y. split; [exact Hid|].
    apply filter_In in Hy. tauto.
  - apply IH. exact Hnd'.
Qed.

Lemma deleteWorker_length (w : Worker) (s : list Worker) :
  hasWorker w s = true -> List.length (deleteWorker w s) < List.length s.
Proof.
  unfold hasWorker, deleteWorker.
  induction s as [|x s IH]; simpl; [discriminate|].
  destruct (sameWorker w x); simpl.
  - intros _. pose proof (filter_length_le (fun w' => negb (sameWorker w w')) s). lia.
  - intros H. apply IH in H. lia.
Qed.

Lemma hasWorker_self (w : Worker) (s : list Worker) :
  In w s -> hasWorker w s = true.
Proof.
  intros H. unfold hasWorker. apply existsb_exists.
  exists w. split; [exact H|]. unfold sameWorker. apply Nat.eqb_refl.
Qed.

Lemma mapper_bailed (now : Z) (f : string) (p : Pool) :
  bailed (closure p) = true -> mapper now f p = p.
Proof. intros H. unfold mapper. rewrite H. reflexivity. Qed.

Lemma mapper_fresh (now : Z) (f : string) (p : Pool) :
  bailed (closure p) = false ->
  mapper now f p =
  mkPool
    (mkState false
             (addWorker (mkWorker (List.length (forked p)) f)
                        (pendingWorkers (closure p)))
             (timedOutWorkerFiles (closure p))
             (TimeoutTrigger.debounce now (timeoutTrigger (closure p)))
             (runStatus (closure p)) (listening (closure p))
             (effects (closure p) ++ [Fork (mkWorker (List.length (forked p)) f)]))
    (queue p)
    (forked p ++ [mkWorker (List.length (forked p)) f])
    (limit p).
Proof.
  intros Hb. unfold mapper. rewrite Hb.
  destruct p as [st q fk lim]. destruct st. simpl in *. subst. reflexivity.
Qed.

Lemma pump_bailed (now : Z) (fs : list string) (p : Pool) :
  bailed (closure p) = true ->
  pump now fs p = p \/ exists q, pump now fs p = setQueue q p.
Proof.
  intros Hb. induction fs as [|f fs IH]; simpl.
  - right. exists []. reflexivity.
  - rewrite (mapper_bailed now f p Hb).
    destruct (Z.of_nat (List.length (pendingWorkers (closure p))) <? limit p)%Z.
    + exact IH.
    + right. exists (f :: fs). reflexivity.
Qed.

(** What the pump leaves alone. *)
Lemma pump_frame (now : Z) (fs : list string) (p : Pool) :
  let p' := pump now fs p in
  bailed (closure p') = bailed (closure p)
  /\ timedOutWorkerFiles (closure p') = timedOutWorkerFiles (closure p)
  /\ runStatus (closure p') = runStatus (closure p)
  /\ listening (closure p') = listening (closure p)
  /\ limit p' = limit p
  /\ TimeoutTrigger.fn (timeoutTrigger (closure p'))
     = TimeoutTrigger.fn (timeoutTrigger (closure p))
  /\ TimeoutTrigger.ignoreUntil (timeoutTrigger (closure p'))
     = TimeoutTrigger.ignoreUntil (timeoutTrigger (closure p))
  /\ (TimeoutTrigger.timer (timeoutTrigger (closure p)) <> None ->
      TimeoutTrigger.timer (timeoutTrigger (closure p')) <> None)
  /\ (forall f, (forall w, f (Fork w) = false) ->
                count f (effects (closure p')) = count f (effects (closure p))).
Proof.
  revert p. induction fs as [|f fs IH]; intros p; simpl.
  - splits; try reflexivity. tauto.
  - destruct (Z.of_nat (List.length (pendingWorkers (closure p))) <? limit p)%Z.
    + specialize (IH (mapper now f p)). simpl in IH.
      destruct IH as (Hb & Ht & Hr & Hl & Hlim & Hfn & Hig & Htim & Hcnt).
      rewrite Hb, Ht, Hr, Hl, Hlim, Hfn, Hig.
      destruct (bailed (closure p)) eqn:Hbailed.
      * rewrite (mapper_bailed now f p Hbailed) in *.
        splits; try reflexivity; try assumption.
      * pose proof (mapper_fresh now f p Hbailed) as Hm.
        rewrite Hm in *. simpl in *.
        splits; try reflexivity.
        -- apply TimeoutTriggerFacts.debounce_keeps_fn.
        -- apply TimeoutTriggerFacts.debounce_keeps_ignoreUntil.
        -- intros _. apply Htim. apply debounce_timer.
        -- intros g Hg. rewrite (Hcnt g Hg).
           rewrite count_app. unfold count at 2. simpl. rewrite Hg.
           simpl. lia.
    + simpl. splits; try reflexivity. tauto.
Qed.

Lemma pump_invariant (now : Z) (fs : list string) (p : Pool) :
  runStatus (closure p) <> None ->
  listening (closure p) = true ->
  (1 <= limit p)%Z ->
  (forall w, In w (pendingWorkers (closure p)) ->
             nth_error (forked p) (id w) = Some w) ->
  NoDup (map id (pendingWorkers (closure p))) ->
  (forked p = [] \/ TimeoutTrigger.timer (timeoutTrigger (closure p)) <> None) ->
  Invariant (pump now fs p).
Proof.
  revert p. induction fs as [|f fs IH]; intros p Hrs Hl Hlim Hpend Hnd Htim; simpl.
  - constructor; simpl; auto.
  - destruct (Z.of_nat (List.length (pendingWorkers (closure p))) <? limit p)%Z
      eqn:Hfree.
    + destruct (bailed (closure p)) eqn:Hb.
      * rewrite (mapper_bailed now f p Hb). apply IH; assumption.
      * apply IH; rewrite (mapper_fresh now f p Hb); simpl; auto.
        -- intros w Hw. apply addWorker_in in Hw. destruct Hw as [->|Hw].
           ++ simpl. rewrite nth_error_app2 by lia.
              rewrite Nat.sub_diag. reflexivity.
           ++ specialize (Hpend w Hw).
              rewrite nth_error_app1; [exact Hpend|].
              apply nth_error_Some. rewrite Hpend. discriminate.
        -- apply addWorker_distinct. exact Hnd.
        -- right. apply debounce_timer.
    + apply Z.ltb_ge in Hfree. constructor; simpl; auto.
Qed.

Lemma pump_measure (now : Z) (fs : list string) (p : Pool) :
  2 * List.length (queue (pump now fs p))
  + List.length (pendingWorkers (closure (pump now fs p)))
  <= 2 * List.length fs + List.length (pendingWorkers (closure p)).
Proof.
  revert p. induction fs as [|f fs IH]; intros p; simpl.
  - lia.
  - destruct (Z.of_nat (List.length (pendingWorkers (closure p))) <? limit p)%Z.
    + specialize (IH (mapper now f p)).
      destruct (bailed (closure p)) eqn:Hb.
      * rewrite (mapper_bailed now f p Hb) in *. lia.
      * assert (Hlen :
          List.length (pendingWorkers (closure (mapper now f p)))
          <= S (List.length (pendingWorkers (closure p)))).
        { rewrite (mapper_fresh now f p Hb). simpl. apply addWorker_length. }
        lia.
    + simpl. lia.
Qed.

Lemma status_some (st : RunState) :
  runStatus st <> None -> exists rs, runStatus st = Some rs.
Proof. destruct (runStatus st) as [rs|]; [eauto | tauto]. Qed.

Section Steps.

Variable apiOptions : Options.

Lemma step_invariant (now : Z) (occ : Occurrence) (p : Pool) :
  Invariant p ->
  exists p', step apiOptions now occ p = Ok p' /\ Invariant p'.
Proof.
  intros [Hrs Hl Hlim Hsat Hpend Hnd Htim].
  destruct (status_some _ Hrs) as [rs Hsome].
  destruct occ as [w data|w| |]; simpl.
  - destruct (nth_error (forked p) w) as [worker|].
    + rewrite (onStateChange_closed apiOptions now worker data _ Hsome). simpl.
      eexists. split; [reflexivity|].
      constructor; simpl; auto; try discriminate.
      destruct Htim as [Htim|Htim]; [left; exact Htim | right].
      destruct (listening (closure p)
                && qualifies (EvWorker (file worker) data)
                             (timedOutWorkerFiles (closure p))).
      * apply debounce_timer.
      * rewrite noteTestTimeout_timer. exact Htim.
    + exists p. split; [reflexivity | constructor; assumption].
  - destruct (nth_error (forked p) w) as [worker|].
    + destruct (hasWorker worker (pendingWorkers (closure p))).
      * eexists. split; [reflexivity|].
        apply pump_invariant; simpl; auto.
        -- intros x Hx. apply Hpend. eapply deleteWorker_in. exact Hx.
        -- apply deleteWorker_distinct. exact Hnd.
      * exists p. split; [reflexivity | constructor; assumption].
    + exists p. split; [reflexivity | constructor; assumption].
  - destruct (TimeoutTrigger.expire now (timeoutTrigger (closure p)))
      as [[trig fn]|] eqn:Hexp.
    + destruct (expire_shape _ _ Hexp) as (_ & _ & Htimer & _ & _).
      destruct fn as [[timeout|]|]; simpl.
      * rewrite timeoutHandler_closed with (rs := rs) by exact Hsome. simpl.
        eexists. split; [reflexivity|].
        constructor; simpl; auto; discriminate.
      * eexists. split; [reflexivity|]. constructor; simpl; auto.
      * eexists. split; [reflexivity|]. constructor; simpl; auto.
    + exists p. split; [reflexivity | constructor; assumption].
  - destruct (bailed (closure p)) eqn:Hb.
    + unfold interruptHandler. rewrite Hb. simpl.
      exists (setClosure (closure p) p). split; [reflexivity|].
      constructor; simpl; assumption.
    + rewrite (interruptHandler_closed apiOptions now _ Hsome Hb). simpl.
      eexists. split; [reflexivity|].
      constructor; simpl; auto; try discriminate.
      destruct Htim as [Htim|Htim]; [left; exact Htim | right].
      apply discard_timer. exact Htim.
Qed.

Lemma drive_invariant (occs : list (Z * Occurrence)) (p : Pool) :
  Invariant p ->
  exists p', drive apiOptions occs p = Ok p' /\ Invariant p'.
Proof.
  revert p. induction occs as [|[now occ] occs IH]; intros p Hinv; simpl.
  - exists p. split; [reflexivity | exact Hinv].
  - destruct (settled p).
    + exists p. split; [reflexivity | exact Hinv].
    + destruct (step_invariant now occ Hinv) as [p1 [Hstep Hinv1]].
      rewrite Hstep. simpl. apply IH. exact Hinv1.
Qed.

(** A property kept by every step on occurrences allowed by [allowed]
    is kept by driving a schedule of such occurrences. *)
Lemma drive_preserves (allowed : Occurrence -> Prop) (P : Pool -> Prop) :
  (forall now occ p p',
      allowed occ -> Invariant p -> P p ->
      step apiOptions now occ p = Ok p' -> P p') ->
  forall occs p p',
    Forall (fun x => allowed (snd x)) occs ->
    Invariant p -> P p ->
    drive apiOptions occs p = Ok p' -> P p'.
Proof.
  intros Hkeep occs. induction occs as [|[now occ] occs IH];
    intros p p' Hall Hinv HP Hdrive; simpl in Hdrive.
  - injection Hdrive as <-. exact HP.
  - destruct (settled p).
    + injection Hdrive as <-. exact HP.
    + inversion Hall as [|x l Hocc Hall']; subst. simpl in Hocc.
      destruct (step_invariant now occ Hinv) as [p1 [Hstep Hinv1]].
      rewrite Hstep in Hdrive. simpl in Hdrive.
      apply (IH p1 p' Hall' Hinv1); [|exact Hdrive].
      apply (Hkeep now occ p p1); assumption.
Qed.

Lemma drive_app (occs more : list (Z * Occurrence)) (p : Pool) :
  drive apiOptions (occs ++ more) p =
  (p' <- drive apiOptions occs p ;;
   if settled p' then Ok p' else drive apiOptions more p').
Proof.
  revert p. induction occs as [|[now occ] occs IH]; intros p; simpl.
  - destruct more as [|[now occ] more]; simpl.
    + destruct (settled p); reflexivity.
    + destruct (settled p); reflexivity.
  - destruct (settled p) eqn:Hs; simpl.
    + rewrite Hs. reflexivity.
    + destruct (step apiOptions now occ p) as [p1|e]; simpl.
      * apply IH.
      * reflexivity.
Qed.

End Steps.

(** ** What single steps keep *)

Lemma count_cons (f : Effect -> bool) (e : Effect) (l : list Effect) :
  count f (e :: l) = (if f e then 1 else 0) + count f l.
Proof. unfold count. simpl. destruct (f e); reflexivity. Qed.

Lemma count_nil (f : Effect -> bool) : count f [] = 0.
Proof. reflexivity. Qed.

Lemma debounce_cleared (now w : Z) (trig : TimeoutTrigger.t) :
  TimeoutTrigger.timer trig = Some (TimeoutTrigger.mkTimer w TimeoutTrigger.Cleared) ->
  TimeoutTrigger.timer (TimeoutTrigger.debounce now trig)
  = Some (TimeoutTrigger.mkTimer w TimeoutTrigger.Cleared).
Proof.
  intros H. unfold TimeoutTrigger.debounce. rewrite H. reflexivity.
Qed.

Lemma Forall_any (occs : list (Z * Occurrence)) :
  Forall (fun x => (fun _ : Occurrence => True) (snd x)) occs.
Proof. apply Forall_forall. intros; exact I. Qed.

(** Case analysis of one step from a pool satisfying the invariant: the
    resulting pool is substituted in closed form. *)
Ltac step_cases Hinv Hstep :=
  let rs := fresh "rs" in
  let Hsome := fresh "Hsome" in
  let Hnth := fresh "Hnth" in
  let Hhas := fresh "Hhas" in
  let Hexp := fresh "Hexp" in
  let Hb := fresh "Hb" in
  destruct (status_some _ (inv_status Hinv)) as [rs Hsome];
  match type of Hstep with
  | step ?o ?now ?occ ?p = Ok ?p' =>
      destruct occ as [?w ?data|?w| |]; simpl in Hstep;
      [ destruct (nth_error (forked p) _) as [?worker|] eqn:Hnth;
        [ rewrite (onStateChange_closed o now _ _ _ Hsome) in Hstep |]
      | destruct (nth_error (forked p) _) as [?worker|] eqn:Hnth;
        [ destruct (hasWorker _ (pendingWorkers (closure p))) eqn:Hhas |]
      | destruct (TimeoutTrigger.expire now (timeoutTrigger (closure p)))
          as [[?trig [[?timeout|]|]]|] eqn:Hexp;
        simpl in Hstep;
        [ rewrite (@timeoutHandler_closed
                     o now _ (setTimeoutTrigger _ (closure p)) rs Hsome) in Hstep
        | | | ]
      | destruct (bailed (closure p)) eqn:Hb;
        [ unfold interruptHandler in Hstep; rewrite Hb in Hstep
        | rewrite (interruptHandler_closed o now _ Hsome Hb) in Hstep ]
      ];
      simpl in Hstep; injection Hstep as <-
  end.

Section Kept.

Variable apiOptions : Options.

(** Once [bailed], always [bailed], and nothing is forked any more. *)
Lemma step_keeps_bailed (forks : list Worker) (n : nat)
      (now : Z) (occ : Occurrence) (p p' : Pool) :
  Invariant p ->
  bailed (closure p) = true /\ forked p = forks
  /\ count isFork (effects (closure p)) = n ->
  step apiOptions now occ p = Ok p' ->
  bailed (closure p') = true /\ forked p' = forks
  /\ count isFork (effects (closure p')) = n.
Proof.
  intros Hinv (Hbailed & Hforked & Hcount) Hstep.
  step_cases Hinv Hstep; simpl; auto.
  - rewrite Hbailed. simpl. splits; auto.
    rewrite count_app, count_cons. simpl.
    destruct (listening (closure p) && _).
    + rewrite count_map_none by reflexivity. lia.
    + rewrite count_nil. lia.
  - destruct (pump_bailed now (queue p)
                (setClosure
                   (setPendingWorkers
                      (deleteWorker worker (pendingWorkers (closure p)))
                      (closure p)) p)) as [Heq|[q Heq]];
      try (simpl; exact Hbailed); rewrite Heq; simpl; auto.
  - splits; auto.
    + rewrite Hbailed. apply orb_true_r.
    + rewrite count_app, count_cons. simpl.
      rewrite count_map_none by reflexivity. lia.
  - congruence.
Qed.

(** A file recorded as timed out stays recorded. *)
Lemma step_keeps_timedOut (f : string) (now : Z) (occ : Occurrence)
      (p p' : Pool) :
  Invariant p ->
  hasFile f (timedOutWorkerFiles (closure p)) = true ->
  step apiOptions now occ p = Ok p' ->
  hasFile f (timedOutWorkerFiles (closure p')) = true.
Proof.
  intros Hinv Hf Hstep.
  step_cases Hinv Hstep; simpl; auto.
  - destruct (pump_frame now (queue p)
                (setClosure
                   (setPendingWorkers
                      (deleteWorker worker (pendingWorkers (closure p)))
                      (closure p)) p)) as (_ & Ht & _).
    rewrite Ht. simpl. exact Hf.
  - rewrite hasFile_timed_out, Hf. reflexivity.
Qed.

Lemma silenced_unscheduled (n : nat) (p : Pool) :
  silenced n p -> TimeoutTrigger.scheduledAt (timeoutTrigger (closure p)) = None.
Proof.
  intros (_ & [[H _]|[w H]] & _); unfold TimeoutTrigger.scheduledAt;
    rewrite H; reflexivity.
Qed.

Lemma step_keeps_silenced (n : nat) (now : Z) (occ : Occurrence)
      (p p' : Pool) :
  Invariant p -> silenced n p ->
  step apiOptions now occ p = Ok p' -> silenced n p'.
Proof.
  intros Hinv Hsil Hstep.
  pose proof (silenced_unscheduled Hsil) as Hun.
  destruct Hsil as (Hbailed & Htimer & Hcount).
  step_cases Hinv Hstep; unfold silenced; simpl; auto.
  - rewrite Hbailed. simpl. splits; auto.
    + right. destruct Htimer as [[_ Hnil]|[w0 Hw]].
      * rewrite Hnil in Hnth. destruct w; discriminate.
      * exists w0.
        destruct (listening (closure p) && _).
        -- apply debounce_cleared. rewrite noteTestTimeout_timer. exact Hw.
        -- rewrite noteTestTimeout_timer. exact Hw.
    + rewrite count_app, count_cons. simpl.
      destruct (listening (closure p) && _).
      * rewrite count_map_none by reflexivity. lia.
      * rewrite count_nil. lia.
  - destruct (pump_bailed now (queue p)
                (setClosure
                   (setPendingWorkers
                      (deleteWorker worker (pendingWorkers (closure p)))
                      (closure p)) p)) as [Heq|[q Heq]];
      try (simpl; exact Hbailed); rewrite Heq; simpl; auto.
  - destruct (expire_shape _ _ Hexp) as (_ & _ & _ & Hsched & _). contradiction.
  - destruct (expire_shape _ _ Hexp) as (_ & _ & _ & Hsched & _). contradiction.
  - destruct (expire_shape _ _ Hexp) as (_ & _ & _ & Hsched & _). contradiction.
  - congruence.
Qed.

Lemma step_keeps_quiet (now : Z) (occ : Occurrence) (p p' : Pool) :
  Invariant p -> quiet p ->
  step apiOptions now occ p = Ok p' -> quiet p'.
Proof.
  intros Hinv (Hfn & Hcount) Hstep.
  step_cases Hinv Hstep; unfold quiet; simpl; auto.
  - split.
    + destruct (listening (closure p) && _);
        rewrite ?TimeoutTriggerFacts.debounce_keeps_fn, noteTestTimeout_fn;
        exact Hfn.
    + rewrite count_app, count_cons. simpl.
      destruct (listening (closure p) && _).
      * rewrite count_map_none by reflexivity. lia.
      * rewrite count_nil. lia.
  - destruct (pump_frame now (queue p)
                (setClosure
                   (setPendingWorkers
                      (deleteWorker worker (pendingWorkers (closure p)))
                      (closure p)) p)) as (_ & _ & _ & _ & _ & Hf & _ & _ & Hc).
    rewrite Hf, Hc by reflexivity. simpl. auto.
  - destruct (expire_shape _ _ Hexp) as (_ & _ & _ & _ & Hcb).
    specialize (Hcb _ eq_refl). congruence.
  - destruct (expire_shape _ _ Hexp) as (Hf & _). rewrite Hf. auto.
  - destruct (expire_shape _ _ Hexp) as (Hf & _). rewrite Hf. auto.
  - split; [exact Hfn|].
    rewrite count_app, count_cons. simpl.
    rewrite count_map_none by reflexivity. lia.
Qed.

Lemma step_keeps_unexited (now : Z) (occ : Occurrence) (p p' : Pool) :
  occ <> Sigint ->
  Invariant p ->
  quiet p /\ count isExit (effects (closure p)) = 0 ->
  step apiOptions now occ p = Ok p' ->
  quiet p' /\ count isExit (effects (closure p')) = 0.
Proof.
  intros Hocc Hinv [Hq Hcount] Hstep.
  split; [eapply step_keeps_quiet; eassumption|].
  destruct Hq as [Hfn _].
  step_cases Hinv Hstep; simpl; auto; try contradiction.
  - rewrite count_app, count_cons. simpl.
    destruct (listening (closure p) && _).
    + rewrite count_map_none by reflexivity. lia.
    + rewrite count_nil. lia.
  - destruct (pump_frame now (queue p)
                (setClosure
                   (setPendingWorkers
                      (deleteWorker worker (pendingWorkers (closure p)))
                      (closure p)) p)) as (_ & _ & _ & _ & _ & _ & _ & _ & Hc).
    rewrite Hc by reflexivity. simpl. exact Hcount.
  - destruct (expire_shape _ _ Hexp) as (_ & _ & _ & _ & Hcb).
    specialize (Hcb _ eq_refl). congruence.
Qed.

(** In debug mode the ignore horizon never moves. *)
Lemma step_keeps_horizon (now : Z) (occ : Occurrence) (p p' : Pool) :
  truthyObject (debug apiOptions) = true ->
  Invariant p ->
  step apiOptions now occ p = Ok p' ->
  TimeoutTrigger.ignoreUntil (timeoutTrigger (closure p'))
  = TimeoutTrigger.ignoreUntil (timeoutTrigger (closure p)).
Proof.
  intros Hdebug Hinv Hstep.
  step_cases Hinv Hstep; simpl; auto.
  - assert (Hnote : noteTestTimeout apiOptions now data (timeoutTrigger (closure p))
                    = timeoutTrigger (closure p)).
    { unfold noteTestTimeout. rewrite Hdebug. destruct data; reflexivity. }
    rewrite Hnote.
    destruct (listening (closure p) && _);
      rewrite ?TimeoutTriggerFacts.debounce_keeps_ignoreUntil; reflexivity.
  - destruct (pump_frame now (queue p)
                (setClosure
                   (setPendingWorkers
                      (deleteWorker worker (pendingWorkers (closure p)))
                      (closure p)) p)) as (_ & _ & _ & _ & _ & _ & Hi & _).
    rewrite Hi. reflexivity.
  - destruct (expire_shape _ _ Hexp) as (_ & Hi & _). exact Hi.
  - destruct (expire_shape _ _ Hexp) as (_ & Hi & _). exact Hi.
  - destruct (expire_shape _ _ Hexp) as (_ & Hi & _). exact Hi.
Qed.

(** Once [bailed], no further interrupt is announced. *)
Lemma step_keeps_uninterrupted (n : nat) (now : Z) (occ : Occurrence)
      (p p' : Pool) :
  Invariant p ->
  bailed (closure p) = true ->
  count isInterruptEvent (effects (closure p)) = n ->
  step apiOptions now occ p = Ok p' ->
  count isInterruptEvent (effects (closure p')) = n.
Proof.
  intros Hinv Hbailed Hcount Hstep.
  step_cases Hinv Hstep; simpl; auto.
  - rewrite count_app, count_cons. simpl.
    destruct (listening (closure p) && _).
    + rewrite count_map_none by reflexivity. lia.
    + rewrite count_nil. lia.
  - destruct (pump_frame now (queue p)
                (setClosure
                   (setPendingWorkers
                      (deleteWorker worker (pendingWorkers (closure p)))
                      (closure p)) p)) as (_ & _ & _ & _ & _ & _ & _ & _ & Hc).
    rewrite Hc by reflexivity. simpl. exact Hcount.
  - rewrite count_app, count_cons. simpl.
    rewrite count_map_none by reflexivity. lia.
  - congruence.
Qed.

End Kept.

(** ** Fail-fast, timeout and interrupt *)

Lemma sample_pool_invariant : Invariant Samples.pool.
Proof.
  unfold Samples.pool. apply pump_invariant; simpl.
  - discriminate.
  - reflexivity.
  - lia.
  - intros w [].
  - constructor.
  - left. reflexivity.
Qed.

(** C3: with fail-fast enabled, when a forked worker reports [hook-failed],
    [test-failed] or [worker-failed], the step sets [bailed]; the calls it
    makes are exactly one [notifyOfPeerFailure] for each pending Worker
    Handle and no [exit]; and whatever happens afterwards, [bailed] stays
    true and no further Worker Handle is forked. *)
Theorem failFast_failure_bails_and_notifies :
  forall (apiOptions : Options) (now : Z) (w : nat) (worker : Worker)
         (data : WorkerEvent) (p : Pool),
    Invariant p ->
    failFast apiOptions = true ->
    nth_error (forked p) w = Some worker ->
    data = HookFailed \/ data = TestFailed \/ data = WorkerFailed ->
    exists p',
      step apiOptions now (WorkerStateChange w data) p = Ok p'
      /\ bailed (closure p') = true
      /\ forked p' = forked p
      /\ pendingWorkers (closure p') = pendingWorkers (closure p)
      /\ (exists calls,
             effects (closure p')
             = effects (closure p)
               ++ EmitStateChange (EvWorker (file worker) data) :: calls
             /\ calls = map NotifyOfPeerFailure (pendingWorkers (closure p))
             /\ count isExit calls = 0
             /\ forall pending,
                 In pending (pendingWorkers (closure p)) ->
                 count (isNotifyOf pending) calls = 1)
      /\ forall occs,
          exists p'',
            drive apiOptions occs p' = Ok p''
            /\ bailed (closure p'') = true
            /\ forked p'' = forked p'
            /\ count isFork (effects (closure p''))
               = count isFork (effects (closure p')).
Proof.
  intros apiOptions now w worker data p Hinv Hff Hnth Hdata.
  destruct (step_invariant apiOptions now (WorkerStateChange w data) Hinv)
    as [p' [Hstep Hinv']].
  exists p'. split; [exact Hstep|].
  assert (Hfail : isFailure (EvWorker (file worker) data) = true)
    by (destruct Hdata as [->|[->| ->]]; reflexivity).
  destruct (status_some _ (inv_status Hinv)) as [rs Hsome].
  pose proof Hstep as Hclosed. simpl in Hclosed. rewrite Hnth in Hclosed.
  rewrite (onStateChange_closed apiOptions now worker data _ Hsome) in Hclosed.
  rewrite (inv_listening Hinv), Hff, Hfail in Hclosed. simpl in Hclosed.
  injection Hclosed as Hp'.
  assert (Hbailed : bailed (closure p') = true)
    by (rewrite <- Hp'; simpl; apply orb_true_r).
  splits.
  - exact Hbailed.
  - rewrite <- Hp'. reflexivity.
  - rewrite <- Hp'. reflexivity.
  - exists (map NotifyOfPeerFailure (pendingWorkers (closure p))). splits.
    + rewrite <- Hp'. reflexivity.
    + reflexivity.
    + apply count_map_none. reflexivity.
    + intros pending Hin.
      apply count_map_once; [reflexivity | exact (inv_distinct Hinv) | exact Hin].
  - intros occs.
    destruct (drive_invariant apiOptions occs Hinv') as [p'' [Hdrive _]].
    exists p''. split; [exact Hdrive|].
    refine (@drive_preserves apiOptions (fun _ => True)
              (fun q => bailed (closure q) = true /\ forked q = forked p'
                        /\ count isFork (effects (closure q))
                           = count isFork (effects (closure p')))
              _ occs p' p'' (Forall_any occs) Hinv' _ Hdrive).
    + intros now' occ q q' _ Hq HP Hs. eapply step_keeps_bailed; eassumption.
    + splits; auto.
Qed.

Lemma failFast_failure_bails_and_notifies_witness :
  Invariant Samples.pool
  /\ nth_error (forked Samples.pool) 1 = Some (mkWorker 1 "b.js")
  /\ exists p',
      step Samples.failFastOptions 5 (WorkerStateChange 1 TestFailed) Samples.pool
      = Ok p'
      /\ bailed (closure p') = true
      /\ forked p' = forked Samples.pool
      /\ pendingWorkers (closure p') = pendingWorkers (closure Samples.pool)
      /\ (exists calls,
             effects (closure p')
             = effects (closure Samples.pool)
               ++ EmitStateChange (EvWorker "b.js" TestFailed) :: calls
             /\ calls = map NotifyOfPeerFailure (pendingWorkers (closure Samples.pool))
             /\ count isExit calls = 0
             /\ forall pending,
                 In pending (pendingWorkers (closure Samples.pool)) ->
                 count (isNotifyOf pending) calls = 1)
      /\ forall occs,
          exists p'',
            drive Samples.failFastOptions occs p' = Ok p''
            /\ bailed (closure p'') = true
            /\ forked p'' = forked p'
            /\ count isFork (effects (closure p''))
               = count isFork (effects (closure p')).
Proof.
  split; [exact sample_pool_invariant|].
  split; [reflexivity|].
  apply (failFast_failure_bails_and_notifies
           Samples.failFastOptions 5 1 (worker := mkWorker 1 "b.js")
           (data := TestFailed) sample_pool_invariant).
  - reflexivity.
  - reflexivity.
  - right. left. reflexivity.
Defined.

Lemma expire_unscheduled (now : Z) (trig : TimeoutTrigger.t) :
  TimeoutTrigger.scheduledAt trig = None -> TimeoutTrigger.expire now trig = None.
Proof.
  unfold TimeoutTrigger.scheduledAt, TimeoutTrigger.expire.
  destruct (TimeoutTrigger.timer trig) as [[w [d| |]]|];
    try reflexivity; discriminate.
Qed.

Lemma newTimeoutTrigger_configured (host : Host) (apiOptions : Options)
      (s : string) :
  timeout apiOptions = Some s -> s <> EmptyString -> debug apiOptions = None ->
  newTimeoutTrigger host apiOptions
  = TimeoutTrigger.new (TimeoutTrigger.TimeoutHandler (ms host s)) (ms host s).
Proof.
  intros Ht Hs Hd. unfold newTimeoutTrigger. rewrite Ht, Hd. simpl.
  destruct (String.eqb_spec s ""); [contradiction | reflexivity].
Qed.

(** C4: when the watchdog's deadline has passed, at or after the ignore
    horizon, and the watchdog holds the timeout handler, the firing sets
    [bailed] when fail-fast is active and leaves it alone otherwise, emits
    one [timeout] record carrying the handler's period (the configured
    duration as parsed by [ms]), and then calls [exit()], never
    [notifyOfPeerFailure()], exactly once on every pending Worker Handle,
    recording the handle's file as timed out; the file stays recorded,
    and a later event tagged with it leaves the timer as it is. *)
Theorem timeout_firing_exits_pending_workers :
  forall (apiOptions : Options) (now period d : Z) (p : Pool),
    Invariant p ->
    TimeoutTrigger.fn (timeoutTrigger (closure p))
    = TimeoutTrigger.TimeoutHandler period ->
    TimeoutTrigger.scheduledAt (timeoutTrigger (closure p)) = Some d ->
    (d <= now)%Z ->
    (TimeoutTrigger.ignoreUntil (timeoutTrigger (closure p)) <= now)%Z ->
    (forall host s,
        timeout apiOptions = Some s -> s <> EmptyString ->
        debug apiOptions = None ->
        newTimeoutTrigger host apiOptions
        = TimeoutTrigger.new (TimeoutTrigger.TimeoutHandler (ms host s)) (ms host s))
    /\ exists p',
      step apiOptions now TimerExpired p = Ok p'
      /\ (failFast apiOptions = true -> bailed (closure p') = true)
      /\ (failFast apiOptions = false -> bailed (closure p') = bailed (closure p))
      /\ forked p' = forked p
      /\ pendingWorkers (closure p') = pendingWorkers (closure p)
      /\ (exists calls,
             effects (closure p')
             = effects (closure p) ++ EmitStateChange (EvTimeout period) :: calls
             /\ calls = map Exit (pendingWorkers (closure p))
             /\ count isTimeoutEvent calls = 0
             /\ count isNotify calls = 0
             /\ forall pending,
                 In pending (pendingWorkers (closure p)) ->
                 count (isExitOf pending) calls = 1)
      /\ forall pending,
          In pending (pendingWorkers (closure p)) ->
          hasFile (file pending) (timedOutWorkerFiles (closure p')) = true
          /\ forall occs,
              exists p'',
                drive apiOptions occs p' = Ok p''
                /\ hasFile (file pending) (timedOutWorkerFiles (closure p'')) = true
                /\ forall now' w data worker,
                    nth_error (forked p'') w = Some worker ->
                    file worker = file pending ->
                    exists p3,
                      step apiOptions now' (WorkerStateChange w data) p'' = Ok p3
                      /\ TimeoutTrigger.timer (timeoutTrigger (closure p3))
                         = TimeoutTrigger.timer (timeoutTrigger (closure p'')).
Proof.
  intros apiOptions now period d p Hinv Hfn Hsched Hdue Hig.
  split; [intros host s; apply newTimeoutTrigger_configured|].
  destruct (step_invariant apiOptions now TimerExpired Hinv)
    as [p' [Hstep Hinv']].
  exists p'. split; [exact Hstep|].
  destruct (status_some _ (inv_status Hinv)) as [rs Hsome].
  unfold TimeoutTrigger.scheduledAt in Hsched.
  destruct (TimeoutTrigger.timer (timeoutTrigger (closure p)))
    as [[w0 [d0| |]]|] eqn:Htimer; try discriminate.
  injection Hsched as ->.
  pose proof Hstep as Hclosed. simpl in Hclosed.
  unfold TimeoutTrigger.expire, TimeoutTrigger.trigger in Hclosed.
  rewrite Htimer in Hclosed.
  rewrite (proj2 (Z.leb_le d now) Hdue), (proj2 (Z.leb_le _ now) Hig), Hfn
    in Hclosed.
  simpl in Hclosed.
  rewrite timeoutHandler_closed with (rs := rs) in Hclosed by exact Hsome.
  simpl in Hclosed. injection Hclosed as Hp'.
  assert (Hrecorded : forall pending,
             In pending (pendingWorkers (closure p)) ->
             hasFile (file pending) (timedOutWorkerFiles (closure p')) = true).
  { intros pending Hin. rewrite <- Hp'. simpl.
    rewrite hasFile_timed_out. apply orb_true_iff. right.
    apply existsb_exists. exists pending. split; [exact Hin|].
    apply String.eqb_refl. }
  splits.
  - intros Hff. rewrite <- Hp'. simpl. rewrite Hff. reflexivity.
  - intros Hff. rewrite <- Hp'. simpl. rewrite Hff. reflexivity.
  - rewrite <- Hp'. reflexivity.
  - rewrite <- Hp'. reflexivity.
  - exists (map Exit (pendingWorkers (closure p))). splits.
    + rewrite <- Hp'. reflexivity.
    + reflexivity.
    + apply count_map_none. reflexivity.
    + apply count_map_none. reflexivity.
    + intros pending Hin.
      apply count_map_once; [reflexivity | exact (inv_distinct Hinv) | exact Hin].
  - intros pending Hin. split; [apply Hrecorded; exact Hin|].
    intros occs.
    destruct (drive_invariant apiOptions occs Hinv') as [p'' [Hdrive Hinv'']].
    exists p''. split; [exact Hdrive|].
    assert (Hkept : hasFile (file pending) (timedOutWorkerFiles (closure p'')) = true).
    { refine (@drive_preserves apiOptions (fun _ => True)
                (fun q => hasFile (file pending) (timedOutWorkerFiles (closure q)) = true)
                _ occs p' p'' (Forall_any occs) Hinv' _ Hdrive).
      - intros now' occ q q' _ Hq HP Hs. eapply step_keeps_timedOut; eassumption.
      - apply Hrecorded. exact Hin. }
    split; [exact Hkept|].
    intros now' w data worker Hnth Hfile.
    destruct (step_invariant apiOptions now' (WorkerStateChange w data) Hinv'')
      as [p3 [Hstep3 _]].
    exists p3. split; [exact Hstep3|].
    destruct (status_some _ (inv_status Hinv'')) as [rs'' Hsome''].
    simpl in Hstep3. rewrite Hnth in Hstep3.
    rewrite (onStateChange_closed apiOptions now' worker data _ Hsome'') in Hstep3.
    simpl in Hstep3. injection Hstep3 as <-. simpl.
    unfold qualifies. simpl. rewrite Hfile, Hkept. simpl.
    rewrite andb_false_r. simpl. rewrite andb_false_r.
    apply noteTestTimeout_timer.
Qed.

Lemma timeout_firing_exits_pending_workers_witness :
  Invariant Samples.pool
  /\ TimeoutTrigger.fn (timeoutTrigger (closure Samples.pool))
     = TimeoutTrigger.TimeoutHandler 100
  /\ TimeoutTrigger.scheduledAt (timeoutTrigger (closure Samples.pool)) = Some 100%Z
  /\ exists p',
      step Samples.failFastOptions 150 TimerExpired Samples.pool = Ok p'
      /\ bailed (closure p') = true
      /\ effects (closure p')
         = effects (closure Samples.pool)
           ++ EmitStateChange (EvTimeout 100)
              :: map Exit (pendingWorkers (closure Samples.pool))
      /\ hasFile "a.js" (timedOutWorkerFiles (closure p')) = true.
Proof.
  split; [exact sample_pool_invariant|].
  split; [reflexivity|]. split; [reflexivity|].
  destruct (timeout_firing_exits_pending_workers
              Samples.failFastOptions (now := 150) (period := 100) (d := 100)
              sample_pool_invariant)
    as [_ [p' (Hstep & Hbailed & _ & _ & _ & [calls (Heff & Hcalls & _)] & Hrec)]].
  - reflexivity.
  - reflexivity.
  - lia.
  - simpl. lia.
  - exists p'. split; [exact Hstep|]. split; [apply Hbailed; reflexivity|].
    split; [rewrite Heff, Hcalls; reflexivity|].
    apply (Hrec (mkWorker 0 "a.js")). simpl. left. reflexivity.
Defined.

(** Invoking the interrupt handler while [bailed] is set changes nothing
    and calls nothing.  While the pool is awaited, one invocation with
    [bailed] not set sets it, discards the watchdog, emits one [interrupt]
    record and then calls [exit()] exactly once on every pending Worker
    Handle; invoking it again is a no-op, and whatever happens afterwards
    no deadline is scheduled, no expiry occurs and no timeout is
    announced. *)
Lemma interruptHandler_idempotent_and_forceful :
  forall (apiOptions : Options) (now : Z),
    (forall st, bailed st = true -> interruptHandler apiOptions now st = Normal st)
    /\ forall p,
        Invariant p ->
        bailed (closure p) = false ->
        exists p',
          step apiOptions now Sigint p = Ok p'
          /\ bailed (closure p') = true
          /\ timeoutTrigger (closure p')
             = TimeoutTrigger.discard (timeoutTrigger (closure p))
          /\ forked p' = forked p
          /\ pendingWorkers (closure p') = pendingWorkers (closure p)
          /\ (exists calls,
                 effects (closure p')
                 = effects (closure p) ++ EmitStateChange EvInterrupt :: calls
                 /\ calls = map Exit (pendingWorkers (closure p))
                 /\ count isInterruptEvent calls = 0
                 /\ count isNotify calls = 0
                 /\ forall pending,
                     In pending (pendingWorkers (closure p)) ->
                     count (isExitOf pending) calls = 1)
          /\ (forall now',
                 interruptHandler apiOptions now' (closure p')
                 = Normal (closure p'))
          /\ forall occs,
              exists p'',
                drive apiOptions occs p' = Ok p''
                /\ TimeoutTrigger.scheduledAt (timeoutTrigger (closure p'')) = None
                /\ (forall now',
                       TimeoutTrigger.expire now' (timeoutTrigger (closure p''))
                       = None)
                /\ count isTimeoutEvent (effects (closure p''))
                   = count isTimeoutEvent (effects (closure p))
                /\ count isInterruptEvent (effects (closure p''))
                   = S (count isInterruptEvent (effects (closure p))).
Proof.
  intros apiOptions now. split.
  { intros st Hb. unfold interruptHandler. rewrite Hb. reflexivity. }
  intros p Hinv Hb.
  destruct (step_invariant apiOptions now Sigint Hinv) as [p' [Hstep Hinv']].
  exists p'. split; [exact Hstep|].
  destruct (status_some _ (inv_status Hinv)) as [rs Hsome].
  pose proof Hstep as Hclosed. simpl in Hclosed.
  rewrite (interruptHandler_closed apiOptions now _ Hsome Hb) in Hclosed.
  simpl in Hclosed. injection Hclosed as Hp'.
  assert (Hbailed : bailed (closure p') = true) by (rewrite <- Hp'; reflexivity).
  assert (Hsilenced : silenced (count isTimeoutEvent (effects (closure p))) p').
  { unfold silenced. rewrite <- Hp'. simpl. splits.
    - reflexivity.
    - destruct (TimeoutTrigger.timer (timeoutTrigger (closure p))) as [h|] eqn:Ht.
      + right. exists (TimeoutTrigger.delay h). reflexivity.
      + left. split; [reflexivity|].
        destruct (inv_timer Hinv) as [Hnil|Hne]; [exact Hnil | contradiction].
    - rewrite count_app, count_cons. simpl.
      rewrite count_map_none by reflexivity. lia. }
  splits.
  - exact Hbailed.
  - rewrite <- Hp'. reflexivity.
  - rewrite <- Hp'. reflexivity.
  - rewrite <- Hp'. reflexivity.
  - exists (map Exit (pendingWorkers (closure p))). splits.
    + rewrite <- Hp'. reflexivity.
    + reflexivity.
    + apply count_map_none. reflexivity.
    + apply count_map_none. reflexivity.
    + intros pending Hin.
      apply count_map_once; [reflexivity | exact (inv_distinct Hinv) | exact Hin].
  - intros now'. unfold interruptHandler. rewrite Hbailed. reflexivity.
  - intros occs.
    destruct (drive_invariant apiOptions occs Hinv') as [p'' [Hdrive _]].
    exists p''. split; [exact Hdrive|].
    assert (Hkept : silenced (count isTimeoutEvent (effects (closure p))) p''
                    /\ count isInterruptEvent (effects (closure p''))
                       = S (count isInterruptEvent (effects (closure p)))).
    { refine (@drive_preserves apiOptions (fun _ => True)
                (fun q => silenced (count isTimeoutEvent (effects (closure p))) q
                          /\ count isInterruptEvent (effects (closure q))
                             = S (count isInterruptEvent (effects (closure p))))
                _ occs p' p'' (Forall_any occs) Hinv' _ Hdrive).
      - intros now' occ q q' _ Hq [HP Hn] Hs.
        split; [eapply step_keeps_silenced; eassumption|].
        destruct HP as (Hqb & _ & _).
        eapply step_keeps_uninterrupted; eassumption.
      - split; [exact Hsilenced|].
        rewrite <- Hp'. simpl. rewrite count_app, count_cons. simpl.
        rewrite count_map_none by reflexivity. lia. }
    destruct Hkept as [Hs Hn].
    pose proof (silenced_unscheduled Hs) as Hun.
    splits.
    + exact Hun.
    + intros now'. apply expire_unscheduled. exact Hun.
    + destruct Hs as (_ & _ & Hc). exact Hc.
    + exact Hn.
Qed.

Lemma interruptHandler_idempotent_and_forceful_witness :
  Invariant Samples.pool
  /\ bailed (closure Samples.pool) = false
  /\ exists p',
      step Samples.failFastOptions 7 Sigint Samples.pool = Ok p'
      /\ bailed (closure p') = true
      /\ effects (closure p')
         = effects (closure Samples.pool)
           ++ EmitStateChange EvInterrupt
              :: map Exit (pendingWorkers (closure Samples.pool))
      /\ interruptHandler Samples.failFastOptions 8 (closure p')
         = Normal (closure p')
      /\ TimeoutTrigger.scheduledAt (timeoutTrigger (closure p')) = None.
Proof.
  split; [exact sample_pool_invariant|]. split; [reflexivity|].
  destruct (interruptHandler_idempotent_and_forceful Samples.failFastOptions 7)
    as [_ H].
  destruct (H Samples.pool sample_pool_invariant eq_refl)
    as [p' (Hstep & Hbailed & Htrig & _ & _ & [calls (Heff & Hcalls & _)] & Hagain & _)].
  exists p'. split; [exact Hstep|]. split; [exact Hbailed|].
  split; [rewrite Heff, Hcalls; reflexivity|].
  split; [apply Hagain|].
  rewrite Htrig. apply TimeoutTriggerFacts.discard_scheduledAt.
Defined.

(** C5: the interrupt handler is installed before the Run Status exists,
    and the handler dereferences it.  Invoked with [bailed] not set while
    [runStatus] is still undefined - as it is throughout test-file
    discovery - the handler sets [bailed] and discards the watchdog, then
    throws a [TypeError] that nothing catches: no [interrupt] record is
    emitted and no pending worker is told to exit.  As [bailed] stays set, every later invocation
    is a no-op, also once the Run Status exists: the interrupt is never
    announced and no worker is ever exited for it. *)
Theorem interrupt_before_status_throws :
  forall (apiOptions : Options) (now : Z) (st : RunState),
    bailed st = false ->
    runStatus st = None ->
    exists st',
      interruptHandler apiOptions now st
      = Abrupt (TypeError "runStatus is undefined") st'
      /\ uncaught (interruptHandler apiOptions now st)
         = Throw (TypeError "runStatus is undefined")
      /\ bailed st' = true
      /\ timeoutTrigger st' = TimeoutTrigger.discard (timeoutTrigger st)
      /\ pendingWorkers st' = pendingWorkers st
      /\ effects st' = effects st
      /\ count isInterruptEvent (effects st') = count isInterruptEvent (effects st)
      /\ count isExit (effects st') = count isExit (effects st)
      /\ forall now' rs,
          interruptHandler apiOptions now' st' = Normal st'
          /\ interruptHandler apiOptions now' (setRunStatus rs st')
             = Normal (setRunStatus rs st').
Proof.
  intros apiOptions now st Hb Hrs.
  exists (setTimeoutTrigger (TimeoutTrigger.discard (timeoutTrigger st))
                            (setBailed true st)).
  assert (Hcall :
    interruptHandler apiOptions now st
    = Abrupt (TypeError "runStatus is undefined")
             (setTimeoutTrigger (TimeoutTrigger.discard (timeoutTrigger st))
                                (setBailed true st))).
  { unfold interruptHandler, emitStateChange. rewrite Hb. simpl.
    rewrite Hrs. reflexivity. }
  splits; try reflexivity.
  - exact Hcall.
  - rewrite Hcall. reflexivity.
  - intros now' rs. split; reflexivity.
Qed.

Lemma interrupt_before_status_throws_witness :
  exists st',
    interruptHandler Samples.failFastOptions 3
                     (discovering Samples.host Samples.failFastOptions)
    = Abrupt (TypeError "runStatus is undefined") st'
    /\ bailed st' = true
    /\ effects st' = []
    /\ interruptHandler Samples.failFastOptions 4 st' = Normal st'.
Proof.
  destruct (@interrupt_before_status_throws
              Samples.failFastOptions 3
              (discovering Samples.host Samples.failFastOptions)
              eq_refl eq_refl)
    as [st' (Hcall & _ & Hbailed & _ & _ & Heffects & _ & _ & Hagain)].
  exists st'. splits.
  - exact Hcall.
  - exact Hbailed.
  - exact Heffects.
  - apply (Hagain 4%Z Samples.status).
Defined.

(** ** The run as a whole *)

Lemma resolveConcurrency_positive (host : Host) (apiOptions : Options) :
  (1 <= resolveConcurrency host apiOptions)%Z.
Proof.
  unfold resolveConcurrency, positive.
  destruct (serial apiOptions); [lia|].
  destruct (concurrency apiOptions) as [c|].
  - destruct (0 <? c)%Z eqn:Hc.
    + apply Z.ltb_lt in Hc. lia.
    + destruct (isCi host); lia.
  - destruct (isCi host); lia.
Qed.

Lemma startPool_invariant (host : Host) (env : Collaborators)
      (options : Options) (selected : list string) (rs : RunStatus) :
  Invariant (startPool host env options selected
                       (setListening (announced host options selected rs))).
Proof.
  unfold startPool. apply pump_invariant; simpl.
  - discriminate.
  - reflexivity.
  - apply resolveConcurrency_positive.
  - intros w [].
  - constructor.
  - left. reflexivity.
Qed.

Lemma settled_true (p : Pool) :
  settled p = true <-> pendingWorkers (closure p) = [] /\ queue p = [].
Proof.
  unfold settled.
  destruct (pendingWorkers (closure p)); destruct (queue p); split;
    intros H; try reflexivity; try discriminate; try (split; reflexivity);
    destruct H; discriminate.
Qed.

Section Whole.

Variable apiOptions : Options.

(** Steps only emit state changes, fork, exit and notify. *)
Lemma step_keeps_kind (f : Effect -> bool) (now : Z) (occ : Occurrence)
      (p p' : Pool) :
  (forall r, f (EmitStateChange r) = false) ->
  (forall w, f (Fork w) = false) ->
  (forall w, f (Exit w) = false) ->
  (forall w, f (NotifyOfPeerFailure w) = false) ->
  Invariant p ->
  step apiOptions now occ p = Ok p' ->
  count f (effects (closure p')) = count f (effects (closure p)).
Proof.
  intros Hsc Hfk Hex Hno Hinv Hstep.
  step_cases Hinv Hstep; simpl; auto.
  - rewrite count_app, count_cons, Hsc.
    destruct (listening (closure p) && _).
    + rewrite count_map_none by exact Hno. lia.
    + rewrite count_nil. lia.
  - destruct (pump_frame now (queue p)
                (setClosure
                   (setPendingWorkers
                      (deleteWorker worker (pendingWorkers (closure p)))
                      (closure p)) p)) as (_ & _ & _ & _ & _ & _ & _ & _ & Hc).
    rewrite Hc by exact Hfk. reflexivity.
  - rewrite count_app, count_cons, Hsc.
    rewrite count_map_none by exact Hex. lia.
  - rewrite count_app, count_cons, Hsc.
    rewrite count_map_none by exact Hex. lia.
Qed.

(** Every pool settles once its workers exit. *)
Lemma pool_settles (n : nat) (p : Pool) :
  2 * List.length (queue p) + List.length (pendingWorkers (closure p)) <= n ->
  Invariant p ->
  exists more p',
    drive apiOptions more p = Ok p' /\ settled p' = true /\ Invariant p'.
Proof.
  revert p. induction n as [|n IH]; intros p Hn Hinv.
  - exists [], p. split; [reflexivity|]. split; [|exact Hinv].
    apply settled_true.
    destruct (pendingWorkers (closure p)); destruct (queue p);
      simpl in Hn; try lia. split; reflexivity.
  - destruct (settled p) eqn:Hs.
    + exists [], p. split; [reflexivity|]. split; assumption.
    + assert (Hcase : pendingWorkers (closure p) = []
                       \/ exists pw, In pw (pendingWorkers (closure p))).
      { destruct (pendingWorkers (closure p)) as [|pw rest];
          [left; reflexivity | right; exists pw; left; reflexivity]. }
      destruct Hcase as [Hpend|[pw Hin]].
      * exfalso. destruct (inv_saturated Hinv) as [Hq|Hfull].
        -- unfold settled in Hs. rewrite Hpend, Hq in Hs. discriminate.
        -- rewrite Hpend in Hfull. simpl in Hfull.
           pose proof (inv_limit Hinv). lia.
      * destruct (step_invariant apiOptions 0 (WorkerExited (id pw)) Hinv)
          as [p1 [Hstep Hinv1]].
        pose proof Hstep as Hclosed. simpl in Hclosed.
        rewrite (inv_pending Hinv pw Hin), (hasWorker_self pw _ Hin) in Hclosed.
        injection Hclosed as Hp1.
        assert (Hless :
          2 * List.length (queue p1) + List.length (pendingWorkers (closure p1))
          <= n).
        { rewrite <- Hp1.
          set (q := setClosure
                      (setPendingWorkers
                         (deleteWorker pw (pendingWorkers (closure p)))
                         (closure p)) p).
          pose proof (pump_measure 0 (queue p) q) as Hm.
          assert (Hq : List.length (pendingWorkers (closure q))
                       < List.length (pendingWorkers (closure p)))
            by (apply deleteWorker_length, hasWorker_self; exact Hin).
          lia. }
        destruct (IH p1 Hless Hinv1) as [more [p' (Hdrive & Hset & Hinv')]].
        exists ((0%Z, WorkerExited (id pw)) :: more), p'.
        split; [|split; assumption].
        cbn [drive]. rewrite Hs, Hstep. exact Hdrive.
Qed.

End Whole.

Section RunCases.

Variables (host : Host) (env : Collaborators) (options : Options)
          (args : RunArgs).

Lemma prepare_discovered (testFiles : list string) :
  findTests env = Ok testFiles ->
  exists selected rs error,
    prepare host env options args = Some (selected, rs, error).
Proof.
  intros Hfind. unfold prepare, select. rewrite Hfind.
  destruct (chosen env args testFiles) as [sel|e];
    match goal with
    | |- context [schedule ?h ?o ?i ?l] => destruct (schedule h o i l)
    end; eauto.
Qed.

Lemma prepare_undiscovered (e : Error) :
  findTests env = Throw e -> prepare host env options args = None.
Proof. intros Hfind. unfold prepare, select. rewrite Hfind. reflexivity. Qed.

Variables (selected : list string) (rs : RunStatus).

Lemma run_setup_error (occs : list (Z * Occurrence)) (e : Error) :
  prepare host env options args = Some (selected, rs, Some e) ->
  exists st,
    run host env options args occs = Returned rs st
    /\ runStatus st = Some rs
    /\ effects st = [EmitRun (plan options selected rs);
                     EmitStateChange (EvInternalError e); End].
Proof.
  intros Hprep. unfold run. rewrite Hprep. simpl.
  eexists. split; [reflexivity|]. split; reflexivity.
Qed.

Hypothesis prepared : prepare host env options args = Some (selected, rs, None).

Lemma run_early (occs : list (Z * Occurrence)) :
  Nat.eqb (List.length selected) 0
  || debugWithoutSpecificFile options selected = true ->
  run host env options args occs
  = Returned rs (announced host options selected rs).
Proof.
  intros Hearly. unfold run. rewrite prepared. unfold tryBlock.
  rewrite Hearly. reflexivity.
Qed.

Hypothesis proceeds :
  Nat.eqb (List.length selected) 0
  || debugWithoutSpecificFile options selected = false.

Lemma run_compile_error (occs : list (Z * Occurrence)) (e : Error) :
  compileProviders env = Throw e ->
  exists st,
    run host env options args occs = Returned rs st
    /\ runStatus st = Some rs
    /\ effects st = [EmitRun (plan options selected rs);
                     EmitStateChange (EvInternalError e); End].
Proof.
  intros Hcompile. unfold run. rewrite prepared. unfold tryBlock.
  rewrite proceeds, Hcompile.
  rewrite emitStateChange_closed with (rs := rs) by reflexivity.
  simpl. rewrite andb_false_r. simpl.
  eexists. split; [reflexivity|]. split; reflexivity.
Qed.

Lemma run_pool (occs : list (Z * Occurrence)) (u : unit) :
  compileProviders env = Ok u ->
  exists p,
    drive options occs
          (startPool host env options selected
                     (setListening (announced host options selected rs)))
    = Ok p
    /\ Invariant p
    /\ ((settled p = false /\ run host env options args occs = Awaiting p)
        \/ (settled p = true
            /\ exists st,
                run host env options args occs = Returned rs st
                /\ runStatus st = Some rs
                /\ effects st
                   = effects (closure p)
                     ++ match storeFailedTestFiles env with
                        | Some touched => [EmitStateChange (EvTouchedFiles touched)]
                        | None => []
                        end ++ [End])).
Proof.
  intros Hcompile.
  destruct (drive_invariant options occs
              (startPool_invariant host env options selected rs))
    as [p [Hdrive Hinv]].
  exists p. split; [exact Hdrive|]. split; [exact Hinv|].
  unfold run. rewrite prepared. unfold tryBlock.
  rewrite proceeds, Hcompile, Hdrive.
  destruct (status_some _ (inv_status Hinv)) as [rs' Hsome].
  destruct (settled p) eqn:Hs; [right | left; split; reflexivity].
  split; [reflexivity|].
  assert (Hrs : runStatus (closure p) = Some rs).
  { refine (@drive_preserves options (fun _ => True)
              (fun q => runStatus (closure q) = Some rs)
              _ occs _ p (Forall_any occs)
              (startPool_invariant host env options selected rs) _ Hdrive).
    - intros now occ q q' _ Hq HP Hstep.
      step_cases Hq Hstep; simpl; auto; try congruence.
      destruct (pump_frame now (queue q)
                  (setClosure
                     (setPendingWorkers
                        (deleteWorker worker (pendingWorkers (closure q)))
                        (closure q)) q)) as (_ & _ & Hr & _).
      rewrite Hr. simpl. exact HP.
    - unfold startPool.
      destruct (pump_frame (startTime env) selected
                  (mkPool (setListening (announced host options selected rs))
                          [] [] (resolveConcurrency host options)))
        as (_ & _ & Hr & _).
      rewrite Hr. reflexivity. }
  destruct (storeFailedTestFiles env) as [touched|].
  - rewrite emitStateChange_closed with (rs := rs) by exact Hrs.
    simpl. rewrite !andb_false_r. simpl.
    eexists. split; [reflexivity|]. split; [reflexivity|].
    simpl. rewrite <- app_assoc. reflexivity.
  - simpl. eexists. split; [reflexivity|]. split; [exact Hrs|]. reflexivity.
Qed.

End RunCases.

(** The ways a run can go. *)
Lemma run_outcome (host : Host) (env : Collaborators) (options : Options)
      (args : RunArgs) (occs : list (Z * Occurrence)) :
  (prepare host env options args = None
   /\ run host env options args occs
      = Rejected (TypeError "testFiles is undefined") [])
  \/ (exists selected rs error e st,
         prepare host env options args = Some (selected, rs, error)
         /\ returnsEarly host env options args = false
         /\ run host env options args occs = Returned rs st
         /\ runStatus st = Some rs
         /\ effects st = [EmitRun (plan options selected rs);
                          EmitStateChange (EvInternalError e); End])
  \/ (exists selected rs,
         prepare host env options args = Some (selected, rs, None)
         /\ returnsEarly host env options args = true
         /\ run host env options args occs
            = Returned rs (announced host options selected rs))
  \/ (exists selected rs p,
         prepare host env options args = Some (selected, rs, None)
         /\ returnsEarly host env options args = false
         /\ drive options occs
                  (startPool host env options selected
                             (setListening (announced host options selected rs)))
            = Ok p
         /\ Invariant p
         /\ ((settled p = false /\ run host env options args occs = Awaiting p)
             \/ (settled p = true
                 /\ exists st,
                     run host env options args occs = Returned rs st
                     /\ runStatus st = Some rs
                     /\ effects st
                        = effects (closure p)
                          ++ match storeFailedTestFiles env with
                             | Some touched =>
                                 [EmitStateChange (EvTouchedFiles touched)]
                             | None => []
                             end ++ [End]))).
Proof.
  destruct (prepare host env options args) as [[[selected rs] [e|]]|] eqn:Hprep.
  - right. left.
    destruct (run_setup_error host env options args occs Hprep)
      as [st (Hrun & Hrs & Heff)].
    exists selected, rs, (Some e), e, st. splits; auto.
    unfold returnsEarly. rewrite Hprep. reflexivity.
  - destruct (Nat.eqb (List.length selected) 0
              || debugWithoutSpecificFile options selected) eqn:Hearly.
    + right. right. left. exists selected, rs. splits; auto.
      * unfold returnsEarly. rewrite Hprep. exact Hearly.
      * apply run_early; assumption.
    + assert (Hnot : returnsEarly host env options args = false)
        by (unfold returnsEarly; rewrite Hprep; exact Hearly).
      destruct (compileProviders env) as [u|e] eqn:Hcompile.
      * right. right. right.
        destruct (run_pool host env options args Hprep Hearly occs Hcompile)
          as [p (Hdrive & Hinv & Hcases)].
        exists selected, rs, p. splits; auto.
      * right. left.
        destruct (run_compile_error host env options args Hprep Hearly occs Hcompile)
          as [st (Hrun & Hrs & Heff)].
        exists selected, rs, None, e, st. splits; auto.
  - left. split; [reflexivity|]. unfold run. rewrite Hprep. reflexivity.
Qed.

Lemma startPool_frame (host : Host) (env : Collaborators) (options : Options)
      (selected : list string) (rs : RunStatus) :
  TimeoutTrigger.fn
    (timeoutTrigger
       (closure (startPool host env options selected
                           (setListening (announced host options selected rs)))))
  = TimeoutTrigger.fn (newTimeoutTrigger host options)
  /\ forall f, (forall w, f (Fork w) = false) ->
               count f (effects
                          (closure
                             (startPool host env options selected
                                (setListening
                                   (announced host options selected rs)))))
               = count f [EmitRun (plan options selected rs)].
Proof.
  unfold startPool.
  destruct (pump_frame (startTime env) selected
              (mkPool (setListening (announced host options selected rs))
                      [] [] (resolveConcurrency host options)))
    as (_ & _ & _ & _ & _ & Hfn & _ & _ & Hc).
  split; [exact Hfn | exact Hc].
Qed.

(** ** Selection errors *)

(** C1 (the code falls short of it): when [globs.findTests] throws, the
    remembered error leaves [testFiles] undefined, reading its length
    throws outside any [try], and the promise returned by [run] rejects
    with that [TypeError]: no [run] announcement and no [internal-error]
    record is emitted. *)
Theorem discovery_error_rejects_run :
  forall (host : Host) (env : Collaborators) (options : Options)
         (args : RunArgs) (occs : list (Z * Occurrence)) (e : Error),
    findTests env = Throw e ->
    run host env options args occs
    = Rejected (TypeError "testFiles is undefined") []
    /\ count isRun (effectsOf (run host env options args occs)) = 0
    /\ count isInternalError (effectsOf (run host env options args occs)) = 0.
Proof.
  intros host env options args occs e Hfind.
  assert (Hrun : run host env options args occs
                 = Rejected (TypeError "testFiles is undefined") []).
  { unfold run. rewrite (prepare_undiscovered host env options args Hfind).
    reflexivity. }
  rewrite Hrun. splits; reflexivity.
Qed.

Lemma discovery_error_rejects_run_witness :
  findTests Samples.brokenDiscovery = Throw (Thrown "EACCES")
  /\ run Samples.host Samples.brokenDiscovery Samples.failFastOptions
         Samples.noArgs []
     = Rejected (TypeError "testFiles is undefined") [].
Proof.
  split; [reflexivity|].
  apply (discovery_error_rejects_run Samples.host Samples.brokenDiscovery
           Samples.failFastOptions Samples.noArgs [] (e := Thrown "EACCES")).
  reflexivity.
Defined.

(** The sibling path: an error thrown while selecting among the discovered
    files is deferred; [run] announces once, emits one [internal-error]
    record carrying that error, ends the status and returns it. *)
Lemma selection_error_is_deferred (host : Host) (env : Collaborators)
      (options : Options) (args : RunArgs) (occs : list (Z * Occurrence))
      (testFiles : list string) (e : Error) :
  findTests env = Ok testFiles ->
  chosen env args testFiles = Throw e ->
  exists selected rs st,
    run host env options args occs = Returned rs st
    /\ effects st = [EmitRun (plan options selected rs);
                     EmitStateChange (EvInternalError e); End].
Proof.
  intros Hfind Hchosen.
  assert (Hprep : exists selected rs,
             prepare host env options args = Some (selected, rs, Some e)).
  { unfold prepare, select. rewrite Hfind, Hchosen.
    match goal with
    | |- context [schedule ?h ?o ?i ?l] => destruct (schedule h o i l)
    end; eauto. }
  destruct Hprep as [selected [rs Hprep]].
  destruct (run_setup_error host env options args occs Hprep)
    as [st (Hrun & _ & Heff)].
  exists selected, rs, st. split; assumption.
Qed.

(** ** Finalisation *)

Lemma pool_not_ended (host : Host) (env : Collaborators) (options : Options)
      (selected : list string) (rs : RunStatus) (occs : list (Z * Occurrence))
      (p : Pool) :
  drive options occs
        (startPool host env options selected
                   (setListening (announced host options selected rs)))
  = Ok p ->
  count isEnd (effects (closure p)) = 0.
Proof.
  intros Hdrive.
  refine (@drive_preserves options (fun _ => True)
            (fun q => count isEnd (effects (closure q)) = 0)
            _ occs _ p (Forall_any occs)
            (startPool_invariant host env options selected rs) _ Hdrive).
  - intros now occ q q' _ Hq HP Hstep.
    rewrite (@step_keeps_kind options isEnd now occ q q'); auto.
  - destruct (startPool_frame host env options selected rs) as [_ Hc].
    rewrite Hc by reflexivity. reflexivity.
Qed.

(** C8, as stated, fails: a returned status need not have been ended
    exactly once. *)
Lemma empty_selection_returns_unended_status :
  ~ (forall (host : Host) (env : Collaborators) (options : Options)
            (args : RunArgs) (occs : list (Z * Occurrence))
            (rs : RunStatus) (st : RunState),
        run host env options args occs = Returned rs st ->
        count isEnd (effects st) = 1).
Proof.
  intros H.
  assert (Hc : exists rs st,
             run Samples.host Samples.nothingFound Samples.failFastOptions
                 Samples.noArgs [] = Returned rs st
             /\ count isEnd (effects st) = 0).
  { eexists. eexists. split; [vm_compute; reflexivity | reflexivity]. }
  destruct Hc as [rs [st [Hrun Hcount]]].
  rewrite (H _ _ _ _ _ _ _ Hrun) in Hcount. discriminate Hcount.
Qed.

(** C8, amended: whenever test-file discovery succeeds, [run] constructs a
    Run Status and never rejects or crashes: it returns that status, at
    once or, while workers are pending, as soon as they have exited.  The
    returned status has been ended with [end()] exactly once, except on the
    early return (no selection error, and either no file selected or debug
    mode without a single specific file), where it is returned without
    [end()] having been called. *)
Theorem run_returns_status_ended_once_unless_early :
  forall (host : Host) (env : Collaborators) (options : Options)
         (args : RunArgs) (occs : list (Z * Occurrence))
         (testFiles : list string),
    findTests env = Ok testFiles ->
    exists selected rs error,
      prepare host env options args = Some (selected, rs, error)
      /\ match run host env options args occs with
         | Returned rs' st =>
             rs' = rs
             /\ runStatus st = Some rs
             /\ count isEnd (effects st)
                = (if returnsEarly host env options args then 0 else 1)
         | Awaiting p =>
             pendingWorkers (closure p) <> []
             /\ exists more st,
                 run host env options args (occs ++ more) = Returned rs st
                 /\ runStatus st = Some rs
                 /\ count isEnd (effects st) = 1
         | Rejected _ _ | Crashed _ => False
         end.
Proof.
  intros host env options args occs testFiles Hfind.
  destruct (prepare_discovered host env options args Hfind)
    as [selected0 [rs0 [error0 Hprep0]]].
  exists selected0, rs0, error0. split; [exact Hprep0|].
  destruct (run_outcome host env options args occs)
    as [[Hnone _]
       |[(selected & rs & error & e & st & Hprep & Hearly & Hrun & Hrs & Heff)
        |[(selected & rs & Hprep & Hearly & Hrun)
         |(selected & rs & p & Hprep & Hearly & Hdrive & Hinv & Hcases)]]].
  - congruence.
  - rewrite Hprep in Hprep0. injection Hprep0 as <- <- <-.
    rewrite Hrun, Hearly, Heff. splits; auto.
  - rewrite Hprep in Hprep0. injection Hprep0 as <- <- <-.
    rewrite Hrun, Hearly. splits; auto.
  - rewrite Hprep in Hprep0. injection Hprep0 as <- <- <-.
    assert (Hended : forall occs' q st,
               drive options occs'
                     (startPool host env options selected
                                (setListening (announced host options selected rs)))
               = Ok q ->
               effects st
               = effects (closure q)
                 ++ match storeFailedTestFiles env with
                    | Some touched => [EmitStateChange (EvTouchedFiles touched)]
                    | None => []
                    end ++ [End] ->
               count isEnd (effects st) = 1).
    { intros occs' q st Hq Heff. rewrite Heff, !count_app.
      rewrite (pool_not_ended _ _ _ _ _ _ Hq).
      destruct (storeFailedTestFiles env); reflexivity. }
    destruct Hcases as [[Hs Hrun]|[Hs (st & Hrun & Hrs & Heff)]].
    + rewrite Hrun. split.
      * intros Hnil. destruct (inv_saturated Hinv) as [Hq|Hfull].
        -- unfold settled in Hs. rewrite Hnil, Hq in Hs. discriminate.
        -- rewrite Hnil in Hfull. simpl in Hfull.
           pose proof (inv_limit Hinv). lia.
      * destruct (pool_settles options (n := 2 * List.length (queue p)
                                           + List.length (pendingWorkers (closure p)))
                               (p := p) (le_n _) Hinv)
          as [more [p' (Hmore & Hs' & _)]].
        destruct (run_outcome host env options args (occs ++ more))
          as [[Hnone _]
             |[(sel2 & rs2 & err2 & e2 & st2 & Hprep2 & Hearly2 & Hrun2 & Hrs2 & Heff2)
              |[(sel2 & rs2 & Hprep2 & Hearly2 & _)
               |(sel2 & rs2 & p2 & Hprep2 & _ & Hdrive2 & _ & Hcases2)]]];
          try congruence.
        -- rewrite Hprep in Hprep2. injection Hprep2 as <- <- <-.
           exists more, st2. splits; auto. rewrite Heff2. reflexivity.
        -- rewrite Hprep in Hprep2. injection Hprep2 as <- <-.
           rewrite drive_app, Hdrive in Hdrive2. simpl in Hdrive2.
           rewrite Hs, Hmore in Hdrive2. injection Hdrive2 as <-.
           destruct Hcases2 as [[Hs2 _]|[_ (st2 & Hrun2 & Hrs2 & Heff2)]];
             [congruence|].
           exists more, st2. splits; auto.
           apply (Hended (occs ++ more) p' st2); [|exact Heff2].
           rewrite drive_app, Hdrive. simpl. rewrite Hs. exact Hmore.
    + rewrite Hrun, Hearly. splits; auto.
      apply (Hended occs p st Hdrive Heff).
Qed.

Lemma run_returns_status_ended_once_unless_early_witness :
  findTests Samples.threeFound = Ok Samples.threeFiles
  /\ exists selected rs error,
      prepare Samples.host Samples.threeFound Samples.failFastOptions Samples.noArgs
      = Some (selected, rs, error)
      /\ match run Samples.host Samples.threeFound Samples.failFastOptions
                   Samples.noArgs
                   [(5%Z, WorkerExited 0); (6%Z, WorkerExited 1);
                    (7%Z, WorkerExited 2)] with
         | Returned rs' st =>
             rs' = rs
             /\ runStatus st = Some rs
             /\ count isEnd (effects st)
                = (if returnsEarly Samples.host Samples.threeFound
                                   Samples.failFastOptions Samples.noArgs
                   then 0 else 1)
         | Awaiting p =>
             pendingWorkers (closure p) <> []
             /\ exists more st,
                 run Samples.host Samples.threeFound Samples.failFastOptions
                     Samples.noArgs
                     ([(5%Z, WorkerExited 0); (6%Z, WorkerExited 1);
                       (7%Z, WorkerExited 2)] ++ more)
                 = Returned rs st
                 /\ runStatus st = Some rs
                 /\ count isEnd (effects st) = 1
         | Rejected _ _ | Crashed _ => False
         end.
Proof.
  split; [reflexivity|].
  apply (run_returns_status_ended_once_unless_early
           Samples.host Samples.threeFound Samples.failFastOptions Samples.noArgs
           [(5%Z, WorkerExited 0); (6%Z, WorkerExited 1); (7%Z, WorkerExited 2)]
           (testFiles := Samples.threeFiles)).
  reflexivity.
Defined.

(** ** A disabled watchdog *)

Lemma newTimeoutTrigger_disabled (host : Host) (options : Options) :
  truthyObject (debug options) = true \/ truthyString (timeout options) = false ->
  newTimeoutTrigger host options = TimeoutTrigger.new TimeoutTrigger.Noop 0.
Proof.
  intros [Hd|Ht]; unfold newTimeoutTrigger.
  - rewrite Hd, andb_false_r. reflexivity.
  - rewrite Ht. reflexivity.
Qed.

Lemma Forall_unless_sigint (occs : list (Z * Occurrence)) :
  Forall (fun x => snd x <> Sigint) occs ->
  Forall (fun x => (fun occ => occ <> Sigint) (snd x)) occs.
Proof. intros H. exact H. Qed.

(** C10: in debug mode, or without a configured timeout, the watchdog is
    constructed with the no-op callback and a wait of 0.  Then [run] never
    crashes, no [timeout] record is ever emitted, a firing of the timer
    performs nothing, and unless the run is interrupted no worker is made
    to exit.  In debug mode, moreover, a worker's [test-timeout-configured]
    notification leaves the ignore horizon where it is. *)
Theorem disabled_watchdog_never_times_out :
  forall (host : Host) (env : Collaborators) (options : Options)
         (args : RunArgs) (occs : list (Z * Occurrence)),
    truthyObject (debug options) = true \/ truthyString (timeout options) = false ->
    newTimeoutTrigger host options = TimeoutTrigger.new TimeoutTrigger.Noop 0
    /\ (forall e, run host env options args occs <> Crashed e)
    /\ count isTimeoutEvent (effectsOf (run host env options args occs)) = 0
    /\ (Forall (fun x => snd x <> Sigint) occs ->
        count isExit (effectsOf (run host env options args occs)) = 0)
    /\ (forall now p,
           Invariant p ->
           TimeoutTrigger.fn (timeoutTrigger (closure p)) = TimeoutTrigger.Noop ->
           exists p',
             step options now TimerExpired p = Ok p'
             /\ effects (closure p') = effects (closure p)
             /\ bailed (closure p') = bailed (closure p)
             /\ pendingWorkers (closure p') = pendingWorkers (closure p))
    /\ (truthyObject (debug options) = true ->
        forall now w period p,
          Invariant p ->
          exists p',
            step options now (WorkerStateChange w (TestTimeoutConfigured period)) p
            = Ok p'
            /\ TimeoutTrigger.ignoreUntil (timeoutTrigger (closure p'))
               = TimeoutTrigger.ignoreUntil (timeoutTrigger (closure p))).
Proof.
  intros host env options args occs Hoff.
  pose proof (newTimeoutTrigger_disabled host options Hoff) as Hnew.
  split; [exact Hnew|].
  assert (Hfire : forall now p,
             Invariant p ->
             TimeoutTrigger.fn (timeoutTrigger (closure p)) = TimeoutTrigger.Noop ->
             exists p',
               step options now TimerExpired p = Ok p'
               /\ effects (closure p') = effects (closure p)
               /\ bailed (closure p') = bailed (closure p)
               /\ pendingWorkers (closure p') = pendingWorkers (closure p)).
  { intros now p Hinv Hfn.
    destruct (step_invariant options now TimerExpired Hinv) as [p' [Hstep _]].
    exists p'. split; [exact Hstep|].
    simpl in Hstep.
    destruct (TimeoutTrigger.expire now (timeoutTrigger (closure p)))
      as [[trig [cb|]]|] eqn:Hexp.
    - destruct (expire_shape _ _ Hexp) as (_ & _ & _ & _ & Hcb).
      rewrite (Hcb _ eq_refl), Hfn in Hstep. simpl in Hstep.
      injection Hstep as <-. splits; reflexivity.
    - injection Hstep as <-. splits; reflexivity.
    - injection Hstep as <-. splits; reflexivity. }
  assert (Hdebug : truthyObject (debug options) = true ->
             forall now w period p,
               Invariant p ->
               exists p',
                 step options now
                      (WorkerStateChange w (TestTimeoutConfigured period)) p
                 = Ok p'
                 /\ TimeoutTrigger.ignoreUntil (timeoutTrigger (closure p'))
                    = TimeoutTrigger.ignoreUntil (timeoutTrigger (closure p))).
  { intros Hd now w period p Hinv.
    destruct (step_invariant options now
                (WorkerStateChange w (TestTimeoutConfigured period)) Hinv)
      as [p' [Hstep _]].
    exists p'. split; [exact Hstep|].
    eapply step_keeps_horizon; eassumption. }
  assert (Hquiet : forall selected rs,
             quiet (startPool host env options selected
                              (setListening (announced host options selected rs)))
             /\ count isExit
                  (effects (closure
                     (startPool host env options selected
                                (setListening (announced host options selected rs)))))
                = 0).
  { intros selected rs.
    destruct (startPool_frame host env options selected rs) as [Hfn Hc].
    unfold quiet. rewrite Hfn, Hnew.
    rewrite (Hc isTimeoutEvent) by reflexivity.
    rewrite (Hc isExit) by reflexivity.
    splits; reflexivity. }
  cut ((forall e, run host env options args occs <> Crashed e)
       /\ count isTimeoutEvent (effectsOf (run host env options args occs)) = 0
       /\ (Forall (fun x => snd x <> Sigint) occs ->
           count isExit (effectsOf (run host env options args occs)) = 0)).
  { intros (H1 & H2 & H3). splits; assumption. }
  destruct (run_outcome host env options args occs)
    as [[_ Hrun]
       |[(selected & rs & error & e & st & _ & _ & Hrun & _ & Heff)
        |[(selected & rs & _ & _ & Hrun)
         |(selected & rs & p & _ & _ & Hdrive & Hinv & Hcases)]]].
  - rewrite Hrun. splits; try reflexivity; try discriminate; try (intros; reflexivity).
  - rewrite Hrun. simpl. rewrite Heff.
    splits; try reflexivity; try discriminate; try (intros; reflexivity).
  - rewrite Hrun. splits; try reflexivity; try discriminate; try (intros; reflexivity).
  - assert (Hq : quiet p).
    { refine (@drive_preserves options (fun _ => True) quiet
                _ occs _ p (Forall_any occs)
                (startPool_invariant host env options selected rs) _ Hdrive).
      - intros now occ q q' _ Hqi HP Hs. eapply step_keeps_quiet; eassumption.
      - apply Hquiet. }
    assert (Hx : Forall (fun x => snd x <> Sigint) occs ->
                 count isExit (effects (closure p)) = 0).
    { intros Hno.
      apply (@drive_preserves options (fun occ => occ <> Sigint)
               (fun q => quiet q /\ count isExit (effects (closure q)) = 0)) with
          (occs := occs)
          (p := startPool host env options selected
                          (setListening (announced host options selected rs)))
          (p' := p).
      - intros now occ q q' Hocc Hqi HP Hs.
        eapply step_keeps_unexited; eassumption.
      - apply Forall_unless_sigint. exact Hno.
      - apply startPool_invariant.
      - apply Hquiet.
      - exact Hdrive. }
    destruct Hq as [_ Hcount].
    destruct Hcases as [[_ Hrun]|[_ (st & Hrun & _ & Heff)]]; rewrite Hrun; simpl.
    + splits; try discriminate; auto.
    + rewrite Heff, !count_app, Hcount.
      splits; try discriminate.
      * destruct (storeFailedTestFiles env); reflexivity.
      * intros Hno. rewrite (Hx Hno).
        destruct (storeFailedTestFiles env); reflexivity.
Qed.

Lemma disabled_watchdog_never_times_out_witness :
  (truthyObject (debug Samples.debugOptions) = true
   \/ truthyString (timeout Samples.debugOptions) = false)
  /\ newTimeoutTrigger Samples.host Samples.debugOptions
     = TimeoutTrigger.new TimeoutTrigger.Noop 0
  /\ count isTimeoutEvent
       (effectsOf (run Samples.host Samples.threeFound Samples.debugOptions
                       Samples.oneFile
                       [(5%Z, WorkerStateChange 0 (TestTimeoutConfigured 500));
                        (900%Z, TimerExpired); (901%Z, WorkerExited 0)]))
     = 0
  /\ count isExit
       (effectsOf (run Samples.host Samples.threeFound Samples.debugOptions
                       Samples.oneFile
                       [(5%Z, WorkerStateChange 0 (TestTimeoutConfigured 500));
                        (900%Z, TimerExpired); (901%Z, WorkerExited 0)]))
     = 0.
Proof.
  split; [left; reflexivity|].
  destruct (disabled_watchdog_never_times_out
              Samples.host Samples.threeFound Samples.debugOptions Samples.oneFile
              [(5%Z, WorkerStateChange 0 (TestTimeoutConfigured 500));
               (900%Z, TimerExpired); (901%Z, WorkerExited 0)])
    as (Hnew & _ & Hcount & Hexit & _).
  - left. reflexivity.
  - split; [exact Hnew|]. split; [exact Hcount|].
    apply Hexit. repeat constructor; discriminate.
Defined.

(** * Further properties *)

(** ** The watchdog over sequences of calls *)

Lemma triggerCall_kept (c : TriggerCall) (this : TimeoutTrigger.t) :
  TimeoutTrigger.fn (triggerCall c this) = TimeoutTrigger.fn this
  /\ TimeoutTrigger.waitMs (triggerCall c this) = TimeoutTrigger.waitMs this
  /\ (TimeoutTrigger.ignoreUntil this
      <= TimeoutTrigger.ignoreUntil (triggerCall c this))%Z.
Proof.
  destruct c as [now| |now periodMs|now]; simpl.
  - unfold TimeoutTrigger.debounce.
    destruct (TimeoutTrigger.timer this); simpl; splits; try reflexivity; lia.
  - splits; try reflexivity; lia.
  - splits; try reflexivity. apply Z.le_max_l.
  - destruct (TimeoutTrigger.expire now this) as [[this' cb]|] eqn:Hexp.
    + unfold TimeoutTrigger.expire in Hexp.
      destruct (TimeoutTrigger.timer this) as [[w [d| |]]|]; try discriminate.
      destruct (d <=? now)%Z; try discriminate.
      injection Hexp as <- _. simpl. splits; try reflexivity; lia.
    + splits; try reflexivity; lia.
Qed.

Lemma triggerCall_live (c : TriggerCall) (this : TimeoutTrigger.t) :
  isDiscard c = false -> live this -> live (triggerCall c this).
Proof.
  unfold live. destruct c as [now| |now periodMs|now]; simpl; intros Hc Hlive;
    try discriminate.
  - unfold TimeoutTrigger.debounce, TimeoutTrigger.refresh,
      TimeoutTrigger.setCappedTimeout.
    destruct (TimeoutTrigger.timer this) as [[w st]|]; simpl in *.
    + destruct Hlive as [Hw Hst].
      destruct st; simpl; try (split; [exact Hw | discriminate]).
      contradiction.
    + split; [reflexivity | discriminate].
  - exact Hlive.
  - destruct (TimeoutTrigger.expire now this) as [[this' cb]|] eqn:Hexp;
      [|exact Hlive].
    unfold TimeoutTrigger.expire in Hexp.
    destruct (TimeoutTrigger.timer this) as [[w [d| |]]|]; try discriminate.
    destruct (d <=? now)%Z; try discriminate.
    injection Hexp as <- _. simpl in *.
    split; [apply Hlive | discriminate].
Qed.

Lemma debounce_live (now : Z) (this : TimeoutTrigger.t) :
  live this ->
  TimeoutTrigger.scheduledAt (TimeoutTrigger.debounce now this)
  = Some (now + TimeoutTrigger.waitMs this)%Z.
Proof.
  unfold live, TimeoutTrigger.scheduledAt, TimeoutTrigger.debounce,
    TimeoutTrigger.refresh, TimeoutTrigger.setCappedTimeout.
  destruct (TimeoutTrigger.timer this) as [[w st]|]; simpl.
  - intros [Hw Hst]. destruct st; simpl; try (rewrite Hw; reflexivity).
    contradiction.
  - reflexivity.
Qed.

Lemma triggerCalls_kept (cs : list TriggerCall) (this : TimeoutTrigger.t) :
  TimeoutTrigger.fn (triggerCalls cs this) = TimeoutTrigger.fn this
  /\ TimeoutTrigger.waitMs (triggerCalls cs this) = TimeoutTrigger.waitMs this
  /\ (TimeoutTrigger.ignoreUntil this
      <= TimeoutTrigger.ignoreUntil (triggerCalls cs this))%Z.
Proof.
  unfold triggerCalls. revert this.
  induction cs as [|c cs IH]; intros this; simpl.
  - splits; try reflexivity; lia.
  - destruct (IH (triggerCall c this)) as (Hf & Hw & Hi).
    destruct (triggerCall_kept c this) as (Hf' & Hw' & Hi').
    splits; try congruence; lia.
Qed.

Lemma triggerCalls_live (cs : list TriggerCall) (this : TimeoutTrigger.t) :
  forallb (fun c => negb (isDiscard c)) cs = true ->
  live this -> live (triggerCalls cs this).
Proof.
  unfold triggerCalls. revert this.
  induction cs as [|c cs IH]; intros this Hcs Hlive; simpl in *.
  - exact Hlive.
  - apply andb_prop in Hcs. destruct Hcs as [Hc Hcs].
    apply IH; [exact Hcs|]. apply triggerCall_live; [|exact Hlive].
    destruct (isDiscard c); [discriminate | reflexivity].
Qed.

(** X1: for a wait the host timer takes as it is (at least 1 ms, at most
    2^31-1 ms): whatever calls a watchdog has received since its
    construction, as long as [discard()] is not among them, a [debounce()]
    at time [T] leaves the deadline at [T + waitMs], replacing any earlier
    deadline, whether the timer was never set, is scheduled, or has fired
    with or without its callback having run; and so does every further
    [debounce()]. *)
Theorem debounce_always_reschedules :
  forall (fn : TimeoutTrigger.Callback) (waitMs : Z) (cs : list TriggerCall),
    (1 <= waitMs <= 2147483647)%Z ->
    forallb (fun c => negb (isDiscard c)) cs = true ->
    let this := triggerCalls cs (TimeoutTrigger.new fn waitMs) in
    forall T,
      TimeoutTrigger.scheduledAt (TimeoutTrigger.debounce T this)
      = Some (T + waitMs)%Z
      /\ forall T',
          TimeoutTrigger.scheduledAt
            (TimeoutTrigger.debounce T' (TimeoutTrigger.debounce T this))
          = Some (T' + waitMs)%Z.
Proof.
  intros fn waitMs cs _ Hcs this T.
  destruct (triggerCalls_kept cs (TimeoutTrigger.new fn waitMs))
    as (_ & Hw & _).
  fold this in Hw. simpl in Hw.
  assert (Hlive : live this).
  { apply triggerCalls_live; [exact Hcs | exact I]. }
  split.
  - rewrite (debounce_live T this Hlive), Hw. reflexivity.
  - intros T'.
    assert (Hlive' : live (TimeoutTrigger.debounce T this))
      by (apply (triggerCall_live (CallDebounce T)); [reflexivity | exact Hlive]).
    rewrite (debounce_live T' _ Hlive').
    destruct (triggerCall_kept (CallDebounce T) this) as (_ & Hw' & _).
    simpl in Hw'. rewrite Hw', Hw. reflexivity.
Qed.

Lemma debounce_always_reschedules_witness :
  (1 <= 100 <= 2147483647)%Z
  /\ forallb (fun c => negb (isDiscard c))
             [CallDebounce 0; CallIgnoreFor 10 500; HostExpiry 100] = true
  /\ TimeoutTrigger.scheduledAt
       (TimeoutTrigger.debounce 130
          (triggerCalls [CallDebounce 0; CallIgnoreFor 10 500; HostExpiry 100]
                        (TimeoutTrigger.new TimeoutTrigger.Noop 100)))
     = Some (130 + 100)%Z.
Proof.
  assert (Hrange : (1 <= 100 <= 2147483647)%Z) by lia.
  split; [exact Hrange|]. split; [reflexivity|].
  destruct (@debounce_always_reschedules
              TimeoutTrigger.Noop 100
              [CallDebounce 0; CallIgnoreFor 10 500; HostExpiry 100]
              Hrange eq_refl 130%Z) as [H130 _].
  exact H130.
Defined.

(** ** Bailing *)

Lemma scenario_interrupted_invariant :
  Invariant Scenarios.interrupted /\ bailed (closure Scenarios.interrupted) = true.
Proof.
  unfold Scenarios.interrupted.
  destruct (step_invariant Samples.failFastOptions 7 Sigint sample_pool_invariant)
    as [p [Hstep Hinv]].
  rewrite Hstep. split; [exact Hinv|].
  vm_compute in Hstep. injection Hstep as <-. reflexivity.
Qed.

(** X2: once [bailed] is set, by whichever of its three triggers, it is
    never reset, and whatever happens afterwards no further Worker Handle
    is forked. *)
Theorem bailed_is_final :
  forall (apiOptions : Options) (occs : list (Z * Occurrence)) (p : Pool),
    Invariant p ->
    bailed (closure p) = true ->
    exists p',
      drive apiOptions occs p = Ok p'
      /\ bailed (closure p') = true
      /\ forked p' = forked p
      /\ count isFork (effects (closure p')) = count isFork (effects (closure p)).
Proof.
  intros apiOptions occs p Hinv Hb.
  destruct (drive_invariant apiOptions occs Hinv) as [p' [Hdrive _]].
  exists p'. split; [exact Hdrive|].
  refine (@drive_preserves apiOptions (fun _ => True)
            (fun q => bailed (closure q) = true /\ forked q = forked p
                      /\ count isFork (effects (closure q))
                         = count isFork (effects (closure p)))
            _ occs p p' (Forall_any occs) Hinv _ Hdrive).
  - intros now occ q q' _ Hq HP Hs. eapply step_keeps_bailed; eassumption.
  - splits; auto.
Qed.

Lemma bailed_is_final_witness :
  Invariant Scenarios.interrupted
  /\ bailed (closure Scenarios.interrupted) = true
  /\ exists p',
      drive Samples.failFastOptions
            [(10%Z, WorkerExited 0); (11%Z, WorkerExited 1)]
            Scenarios.interrupted = Ok p'
      /\ bailed (closure p') = true
      /\ forked p' = forked Scenarios.interrupted
      /\ count isFork (effects (closure p'))
         = count isFork (effects (closure Scenarios.interrupted)).
Proof.
  split; [apply scenario_interrupted_invariant|].
  split; [apply scenario_interrupted_invariant|].
  apply (bailed_is_final Samples.failFastOptions
           [(10%Z, WorkerExited 0); (11%Z, WorkerExited 1)]);
    apply scenario_interrupted_invariant.
Defined.

(** ** Which files are forked *)

Lemma forkedFiles_app (a b : list Effect) :
  forkedFiles (a ++ b) = forkedFiles a ++ forkedFiles b.
Proof. unfold forkedFiles. apply flat_map_app. Qed.

Lemma forkedFiles_calls (g : Worker -> Effect) (ws : list Worker) :
  (forall w, isFork (g w) = false) -> forkedFiles (map g ws) = [].
Proof.
  intros Hg. induction ws as [|w ws IH]; simpl; [reflexivity|].
  specialize (Hg w). destruct (g w); try discriminate; exact IH.
Qed.

Lemma forkedFiles_record (r : StateChange) (calls : list Effect) :
  forkedFiles (EmitStateChange r :: calls) = forkedFiles calls.
Proof. reflexivity. Qed.

(** What the pump starts and what it passes over. *)
Lemma pump_accounts (now : Z) (fs : list string) (p : Pool) :
  exists started skipped,
    map file (forked (pump now fs p)) = map file (forked p) ++ started
    /\ forkedFiles (effects (closure (pump now fs p)))
       = forkedFiles (effects (closure p)) ++ started
    /\ started ++ skipped ++ queue (pump now fs p) = fs
    /\ (bailed (closure p) = false -> skipped = [])
    /\ (bailed (closure p) = true -> started = []).
Proof.
  revert p. induction fs as [|f fs IH]; intros p; simpl.
  - exists [], []. rewrite !app_nil_r. splits; auto.
  - destruct (Z.of_nat (List.length (pendingWorkers (closure p))) <? limit p)%Z.
    + destruct (bailed (closure p)) eqn:Hb.
      * rewrite (mapper_bailed now f p Hb).
        destruct (IH p) as (started & skipped & Hf & He & Hq & _ & Hs).
        rewrite (Hs Hb) in *. exists [], (f :: skipped).
        splits; auto; try discriminate.
        simpl in *. rewrite Hq. reflexivity.
      * pose proof (mapper_fresh now f p Hb) as Hm.
        destruct (IH (mapper now f p))
          as (started & skipped & Hf & He & Hq & Hk & _).
        assert (Hfk : forked (mapper now f p)
                      = forked p ++ [mkWorker (List.length (forked p)) f])
          by (rewrite Hm; reflexivity).
        assert (Hef : effects (closure (mapper now f p))
                      = effects (closure p)
                        ++ [Fork (mkWorker (List.length (forked p)) f)])
          by (rewrite Hm; reflexivity).
        assert (Hbm : bailed (closure (mapper now f p)) = false)
          by (rewrite Hm; reflexivity).
        rewrite Hfk in Hf. rewrite Hef in He.
        exists (f :: started), skipped.
        rewrite Hf, He, map_app, forkedFiles_app. simpl.
        rewrite <- !app_assoc. simpl. rewrite Hq.
        splits; auto. discriminate.
    + exists [], []. simpl. rewrite !app_nil_r. splits; auto.
Qed.

Lemma step_keeps_accounted (apiOptions : Options) (selected : list string)
      (now : Z) (occ : Occurrence) (p p' : Pool) :
  Invariant p -> accounted selected p ->
  step apiOptions now occ p = Ok p' -> accounted selected p'.
Proof.
  intros Hinv (Heff & skipped & Hsel & Hskip) Hstep.
  step_cases Hinv Hstep; unfold accounted; simpl;
    try (split;
         [exact Heff
         | exists skipped; split;
           [exact Hsel | intros Hx; apply Hskip; congruence]]).
  - split.
    + rewrite forkedFiles_app, forkedFiles_record.
      destruct (listening (closure p) && _).
      * rewrite forkedFiles_calls by reflexivity. rewrite app_nil_r. exact Heff.
      * rewrite app_nil_r. exact Heff.
    + exists skipped. split; [exact Hsel|].
      intros Hb. apply orb_false_elim in Hb. apply Hskip. tauto.
  - set (q := setClosure
                (setPendingWorkers
                   (deleteWorker worker (pendingWorkers (closure p)))
                   (closure p)) p).
    destruct (pump_accounts now (queue p) q)
      as (started & passed & Hf & He & Hq & Hpassed & Hstarted).
    destruct (pump_frame now (queue p) q) as (Hb & _).
    simpl in Hf, He, Hpassed, Hstarted, Hb.
    rewrite He, Hf, Hb.
    split; [rewrite Heff; reflexivity|].
    destruct (bailed (closure p)) eqn:Hbailed.
    + rewrite (Hstarted eq_refl) in Hq. simpl in Hq.
      rewrite (Hstarted eq_refl).
      exists (skipped ++ passed). split; [|discriminate].
      rewrite <- Hq in Hsel. rewrite <- Hsel, app_nil_r, <- !app_assoc.
      reflexivity.
    + rewrite (Hpassed eq_refl) in Hq. simpl in Hq.
      rewrite (Hskip eq_refl) in Hsel. simpl in Hsel.
      exists []. split; [|reflexivity].
      rewrite <- Hq in Hsel. rewrite <- Hsel. simpl.
      rewrite <- app_assoc. reflexivity.
  - split.
    + rewrite forkedFiles_app, forkedFiles_record.
      rewrite forkedFiles_calls by reflexivity. rewrite app_nil_r. exact Heff.
    + exists skipped. split; [exact Hsel|].
      intros Hb. apply orb_false_elim in Hb. apply Hskip. tauto.
  - split.
    + rewrite forkedFiles_app, forkedFiles_record.
      rewrite forkedFiles_calls by reflexivity. rewrite app_nil_r. exact Heff.
    + exists skipped. split; [exact Hsel | discriminate].
Qed.

Lemma startPool_accounted (host : Host) (env : Collaborators)
      (options : Options) (selected : list string) (rs : RunStatus) :
  accounted selected
            (startPool host env options selected
                       (setListening (announced host options selected rs))).
Proof.
  unfold startPool.
  set (p0 := mkPool (setListening (announced host options selected rs))
                    [] [] (resolveConcurrency host options)).
  destruct (pump_accounts (startTime env) selected p0)
    as (started & skipped & Hf & He & Hq & Hskip & _).
  simpl in Hf, He, Hskip. unfold accounted.
  split; [rewrite He, Hf; reflexivity|].
  exists skipped. rewrite Hf. split; [exact Hq | intros _; apply Hskip; reflexivity].
Qed.

Lemma pool_accounted (host : Host) (env : Collaborators) (options : Options)
      (selected : list string) (rs : RunStatus) (occs : list (Z * Occurrence))
      (p : Pool) :
  drive options occs
        (startPool host env options selected
                   (setListening (announced host options selected rs)))
  = Ok p ->
  accounted selected p.
Proof.
  intros Hdrive.
  refine (@drive_preserves options (fun _ => True) (accounted selected)
            _ occs _ p (Forall_any occs)
            (startPool_invariant host env options selected rs) _ Hdrive).
  - intros now occ q q' _ Hq HP Hs. eapply step_keeps_accounted; eassumption.
  - apply startPool_accounted.
Qed.

(** X4: at every moment of a run, the files forked so far are, in order, a
    prefix of the files announced in the [run] event: files are started in
    the announced order, none twice, and none that was not announced. *)
Theorem forked_files_are_a_prefix :
  forall (host : Host) (env : Collaborators) (options : Options)
         (args : RunArgs) (occs : list (Z * Occurrence))
         (selected : list string) (rs : RunStatus) (error : option Error),
    prepare host env options args = Some (selected, rs, error) ->
    exists rest,
      selected = forkedFiles (effectsOf (run host env options args occs)) ++ rest.
Proof.
  intros host env options args occs selected0 rs0 error0 Hprep0.
  destruct (run_outcome host env options args occs)
    as [[Hnone _]
       |[(selected & rs & error & e & st & Hprep & _ & Hrun & _ & Heff)
        |[(selected & rs & Hprep & _ & Hrun)
         |(selected & rs & p & Hprep & _ & Hdrive & Hinv & Hcases)]]];
    try congruence;
    rewrite Hprep in Hprep0; injection Hprep0 as <- <- <-.
  - rewrite Hrun. simpl. rewrite Heff. exists selected. reflexivity.
  - rewrite Hrun. exists selected. reflexivity.
  - destruct (pool_accounted _ _ _ _ _ _ Hdrive)
      as (Heff & skipped & Hsel & _).
    destruct Hcases as [[_ Hrun]|[_ (st & Hrun & _ & Hst)]];
      rewrite Hrun; simpl.
    + exists (skipped ++ queue p). rewrite Heff. symmetry. exact Hsel.
    + exists (skipped ++ queue p).
      rewrite Hst, !forkedFiles_app, Heff.
      replace (forkedFiles
                 (match storeFailedTestFiles env with
                  | Some touched => [EmitStateChange (EvTouchedFiles touched)]
                  | None => []
                  end))
        with (@nil string) by (destruct (storeFailedTestFiles env); reflexivity).
      simpl. rewrite !app_nil_r. symmetry. exact Hsel.
Qed.

Lemma forked_files_are_a_prefix_witness :
  exists selected rs error rest,
    prepare Samples.host Samples.threeFound Samples.failFastOptions Samples.noArgs
    = Some (selected, rs, error)
    /\ selected
       = forkedFiles
           (effectsOf (run Samples.host Samples.threeFound
                           Samples.failFastOptions Samples.noArgs
                           [(5%Z, WorkerStateChange 1 TestFailed);
                            (6%Z, WorkerExited 0)]))
         ++ rest.
Proof.
  assert (Hprep : exists selected rs error,
             prepare Samples.host Samples.threeFound Samples.failFastOptions
                     Samples.noArgs = Some (selected, rs, error))
    by (do 3 eexists; vm_compute; reflexivity).
  destruct Hprep as (selected & rs & error & Hprep).
  destruct (forked_files_are_a_prefix
              Samples.host Samples.threeFound Samples.failFastOptions
              Samples.noArgs
              [(5%Z, WorkerStateChange 1 TestFailed); (6%Z, WorkerExited 0)]
              Hprep) as [rest Hrest].
  exists selected, rs, error, rest. split; [exact Hprep | exact Hrest].
Defined.

Lemma pool_status (host : Host) (env : Collaborators) (options : Options)
      (selected : list string) (rs : RunStatus) (occs : list (Z * Occurrence))
      (p : Pool) :
  drive options occs
        (startPool host env options selected
                   (setListening (announced host options selected rs)))
  = Ok p ->
  runStatus (closure p) = Some rs.
Proof.
  intros Hdrive.
  refine (@drive_preserves options (fun _ => True)
            (fun q => runStatus (closure q) = Some rs)
            _ occs _ p (Forall_any occs)
            (startPool_invariant host env options selected rs) _ Hdrive).
  - intros now occ q q' _ Hq HP Hstep.
    step_cases Hq Hstep; simpl; auto; try congruence.
    destruct (pump_frame now (queue q)
                (setClosure
                   (setPendingWorkers
                      (deleteWorker worker (pendingWorkers (closure q)))
                      (closure q)) q)) as (_ & _ & Hr & _).
    rewrite Hr. simpl. exact HP.
  - unfold startPool.
    destruct (pump_frame (startTime env) selected
                (mkPool (setListening (announced host options selected rs))
                        [] [] (resolveConcurrency host options)))
      as (_ & _ & Hr & _).
    rewrite Hr. reflexivity.
Qed.

(** Lines 302-313, once [pMap] has resolved. *)
Lemma run_settled (host : Host) (env : Collaborators) (options : Options)
      (args : RunArgs) (selected : list string) (rs : RunStatus)
      (occs : list (Z * Occurrence)) (u : unit) (p : Pool) :
  prepare host env options args = Some (selected, rs, None) ->
  Nat.eqb (List.length selected) 0
  || debugWithoutSpecificFile options selected = false ->
  compileProviders env = Ok u ->
  drive options occs
        (startPool host env options selected
                   (setListening (announced host options selected rs)))
  = Ok p ->
  settled p = true ->
  exists st,
    run host env options args occs = Returned rs st
    /\ bailed st = bailed (closure p)
    /\ pendingWorkers st = pendingWorkers (closure p)
    /\ timeoutTrigger st = TimeoutTrigger.discard (timeoutTrigger (closure p))
    /\ effects st
       = effects (closure p)
         ++ match storeFailedTestFiles env with
            | Some touched => [EmitStateChange (EvTouchedFiles touched)]
            | None => []
            end ++ [End].
Proof.
  intros Hprep Hearly Hcompile Hdrive Hs.
  pose proof (pool_status _ _ _ _ _ _ Hdrive) as Hrs.
  unfold run. rewrite Hprep. unfold tryBlock.
  rewrite Hearly, Hcompile, Hdrive, Hs.
  destruct (storeFailedTestFiles env) as [touched|].
  - rewrite emitStateChange_closed with (rs := rs) by exact Hrs.
    simpl. rewrite !andb_false_r. simpl.
    eexists. split; [reflexivity|]. simpl.
    rewrite orb_false_r, <- app_assoc. splits; reflexivity.
  - simpl. eexists. split; [reflexivity|]. splits; reflexivity.
Qed.

Lemma step_keeps_unbailed (apiOptions : Options) (now : Z) (occ : Occurrence)
      (p p' : Pool) :
  failFast apiOptions = false ->
  occ <> Sigint ->
  Invariant p ->
  bailed (closure p) = false ->
  step apiOptions now occ p = Ok p' ->
  bailed (closure p') = false.
Proof.
  intros Hff Hocc Hinv Hb Hstep.
  step_cases Hinv Hstep; simpl; auto; try contradiction.
  - rewrite Hb, Hff. simpl. rewrite andb_false_r. reflexivity.
  - destruct (pump_frame now (queue p)
                (setClosure
                   (setPendingWorkers
                      (deleteWorker worker (pendingWorkers (closure p)))
                      (closure p)) p)) as (Hbp & _).
    rewrite Hbp. exact Hb.
  - rewrite Hb, Hff. reflexivity.
Qed.

(** X5: when [run] has driven its pool and returns without having bailed,
    every announced file has been forked, each once and in the announced
    order.  Without fail-fast and without an interrupt the run never bails,
    so this holds even when the watchdog has fired and exited workers on
    the way. *)
Theorem every_file_forked_unless_bailed :
  forall (host : Host) (env : Collaborators) (options : Options)
         (args : RunArgs) (occs : list (Z * Occurrence))
         (selected : list string) (rs rs' : RunStatus) (u : unit)
         (st : RunState),
    prepare host env options args = Some (selected, rs, None) ->
    returnsEarly host env options args = false ->
    compileProviders env = Ok u ->
    run host env options args occs = Returned rs' st ->
    (bailed st = false -> forkedFiles (effects st) = selected)
    /\ (failFast options = false ->
        Forall (fun x => snd x <> Sigint) occs ->
        bailed st = false).
Proof.
  intros host env options args occs selected rs rs' u st
         Hprep Hearly Hcompile Hrun.
  assert (Hproceeds : Nat.eqb (List.length selected) 0
                      || debugWithoutSpecificFile options selected = false).
  { unfold returnsEarly in Hearly. rewrite Hprep in Hearly. exact Hearly. }
  destruct (drive_invariant options occs
              (startPool_invariant host env options selected rs))
    as [p [Hdrive Hinv]].
  assert (Hs : settled p = true).
  { destruct (settled p) eqn:Hs; [reflexivity|].
    unfold run in Hrun. rewrite Hprep in Hrun. unfold tryBlock in Hrun.
    rewrite Hproceeds, Hcompile, Hdrive, Hs in Hrun. discriminate. }
  destruct (run_settled host env options args occs Hprep Hproceeds Hcompile
                        Hdrive Hs)
    as [st' (Hrun' & Hb & _ & _ & Heff)].
  rewrite Hrun' in Hrun. injection Hrun as _ <-.
  split.
  - intros Hunbailed. rewrite Hb in Hunbailed.
    destruct (pool_accounted _ _ _ _ _ _ Hdrive)
      as (Hforked & skipped & Hsel & Hskip).
    apply settled_true in Hs. destruct Hs as [_ Hq].
    rewrite Heff, !forkedFiles_app, Hforked.
    replace (forkedFiles
               (match storeFailedTestFiles env with
                | Some touched => [EmitStateChange (EvTouchedFiles touched)]
                | None => []
                end))
      with (@nil string) by (destruct (storeFailedTestFiles env); reflexivity).
    simpl. rewrite !app_nil_r.
    rewrite (Hskip Hunbailed), Hq in Hsel. simpl in Hsel.
    rewrite app_nil_r in Hsel. exact Hsel.
  - intros Hff Hno. rewrite Hb.
    apply (@drive_preserves options (fun occ => occ <> Sigint)
             (fun q => bailed (closure q) = false)) with
        (occs := occs)
        (p := startPool host env options selected
                        (setListening (announced host options selected rs)))
        (p' := p).
    + intros now occ q q' Hocc Hq HP Hstep.
      eapply step_keeps_unbailed; eassumption.
    + exact Hno.
    + apply startPool_invariant.
    + unfold startPool.
      destruct (pump_frame (startTime env) selected
                  (mkPool (setListening (announced host options selected rs))
                          [] [] (resolveConcurrency host options)))
        as (Hbp & _).
      rewrite Hbp. reflexivity.
    + exact Hdrive.
Qed.

Lemma every_file_forked_unless_bailed_witness :
  exists rs st,
    run Samples.host Samples.threeFound Scenarios.patientOptions Samples.noArgs
        Scenarios.timeoutThenFinish = Returned rs st
    /\ bailed st = false
    /\ forkedFiles (effects st) = Samples.threeFiles
    /\ count isTimeoutEvent (effects st) = 1.
Proof.
  assert (Hrun : exists rs st,
             run Samples.host Samples.threeFound Scenarios.patientOptions
                 Samples.noArgs Scenarios.timeoutThenFinish = Returned rs st
             /\ count isTimeoutEvent (effects st) = 1)
    by (do 2 eexists; split; vm_compute; reflexivity).
  destruct Hrun as (rs & st & Hrun & Htimeout).
  exists rs, st. split; [exact Hrun|].
  destruct (every_file_forked_unless_bailed
              Samples.host Samples.threeFound Scenarios.patientOptions
              Samples.noArgs Scenarios.timeoutThenFinish
              (selected := Samples.threeFiles)
              (rs := mkRunStatus 3 None (mkInsights [] 3 3)) (u := tt)
              eq_refl eq_refl eq_refl Hrun) as [Hall Hnever].
  assert (Hb : bailed st = false).
  { apply Hnever; [reflexivity|]. repeat constructor; discriminate. }
  split; [exact Hb|]. split; [apply Hall; exact Hb | exact Htimeout].
Defined.

(** ** Completed workers *)

Lemma hasWorker_false (w : Worker) (ws : list Worker) :
  hasWorker w ws = false <-> (forall x, In x ws -> sameWorker w x = false).
Proof.
  unfold hasWorker. split.
  - intros Hno x Hx. destruct (sameWorker w x) eqn:Hsame; [|reflexivity].
    assert (Hex : existsb (sameWorker w) ws = true)
      by (apply existsb_exists; exists x; split; assumption).
    congruence.
  - intros Hall. destruct (existsb (sameWorker w) ws) eqn:Hex; [|reflexivity].
    apply existsb_exists in Hex. destruct Hex as [x [Hx Hsame]].
    rewrite (Hall x Hx) in Hsame. discriminate.
Qed.

Lemma count_map_absent (f : Worker -> Effect -> bool) (g : Worker -> Effect)
      (ws : list Worker) (w : Worker) :
  (forall a b, f a (g b) = sameWorker a b) ->
  (forall x, In x ws -> sameWorker w x = false) ->
  count (f w) (map g ws) = 0.
Proof.
  intros Hf. unfold count.
  induction ws as [|x ws IH]; simpl; intros Hno; [reflexivity|].
  rewrite Hf, (Hno x) by (left; reflexivity).
  apply IH. intros y Hy. apply Hno. right. exact Hy.
Qed.

Lemma hasWorker_deleteWorker (w : Worker) (s : list Worker) :
  hasWorker w (deleteWorker w s) = false.
Proof.
  unfold hasWorker, deleteWorker.
  induction s as [|x s IH]; simpl; [reflexivity|].
  destruct (sameWorker w x) eqn:Hx; simpl; [exact IH|].
  rewrite Hx. exact IH.
Qed.

Lemma pump_numbered (now : Z) (fs : list string) (p : Pool) :
  numbered p -> numbered (pump now fs p).
Proof.
  revert p. induction fs as [|f fs IH]; intros p Hnum; simpl.
  - exact Hnum.
  - destruct (Z.of_nat (List.length (pendingWorkers (closure p))) <? limit p)%Z.
    + destruct (bailed (closure p)) eqn:Hb.
      * rewrite (mapper_bailed now f p Hb). apply IH. exact Hnum.
      * apply IH. rewrite (mapper_fresh now f p Hb).
        intros i w. simpl. intros Hnth.
        destruct (Nat.lt_ge_cases i (List.length (forked p))) as [Hlt|Hge].
        -- rewrite nth_error_app1 in Hnth by exact Hlt. apply Hnum. exact Hnth.
        -- rewrite nth_error_app2 in Hnth by exact Hge.
           destruct (i - List.length (forked p)) as [|k] eqn:Hk; simpl in Hnth.
           ++ injection Hnth as <-. simpl. lia.
           ++ destruct k; discriminate.
    + exact Hnum.
Qed.

Lemma pump_retired (now : Z) (fs : list string) (p : Pool) (w : Worker) :
  (forall x, In x (pendingWorkers (closure p)) -> sameWorker w x = false) ->
  id w < List.length (forked p) ->
  (forall x, In x (pendingWorkers (closure (pump now fs p))) ->
             sameWorker w x = false)
  /\ id w < List.length (forked (pump now fs p)).
Proof.
  revert p. induction fs as [|f fs IH]; intros p Hno Hlt; simpl.
  - split; assumption.
  - destruct (Z.of_nat (List.length (pendingWorkers (closure p))) <? limit p)%Z.
    + destruct (bailed (closure p)) eqn:Hb.
      * rewrite (mapper_bailed now f p Hb). apply IH; assumption.
      * apply IH; rewrite (mapper_fresh now f p Hb); simpl.
        -- intros x Hx. apply addWorker_in in Hx. destruct Hx as [->|Hx].
           ++ unfold sameWorker. simpl. apply Nat.eqb_neq. lia.
           ++ apply Hno. exact Hx.
        -- rewrite length_app. simpl. lia.
    + split; assumption.
Qed.

Section Retired.

Variable apiOptions : Options.

Lemma step_keeps_numbered (now : Z) (occ : Occurrence) (p p' : Pool) :
  Invariant p -> numbered p ->
  step apiOptions now occ p = Ok p' -> numbered p'.
Proof.
  intros Hinv Hnum Hstep.
  step_cases Hinv Hstep; simpl; auto.
  apply pump_numbered. exact Hnum.
Qed.

Lemma step_keeps_retired (w : Worker) (exits notes : nat) (now : Z)
      (occ : Occurrence) (p p' : Pool) :
  Invariant p ->
  (forall x, In x (pendingWorkers (closure p)) -> sameWorker w x = false)
  /\ id w < List.length (forked p)
  /\ count (isExitOf w) (effects (closure p)) = exits
  /\ count (isNotifyOf w) (effects (closure p)) = notes ->
  step apiOptions now occ p = Ok p' ->
  (forall x, In x (pendingWorkers (closure p')) -> sameWorker w x = false)
  /\ id w < List.length (forked p')
  /\ count (isExitOf w) (effects (closure p')) = exits
  /\ count (isNotifyOf w) (effects (closure p')) = notes.
Proof.
  intros Hinv (Hno & Hlt & Hexits & Hnotes) Hstep.
  step_cases Hinv Hstep; simpl; auto.
  - splits; auto.
    + rewrite count_app, count_cons. simpl.
      destruct (listening (closure p) && _).
      * rewrite count_map_none by reflexivity. lia.
      * rewrite count_nil. lia.
    + rewrite count_app, count_cons. simpl.
      destruct (listening (closure p) && _).
      * rewrite (count_map_absent isNotifyOf NotifyOfPeerFailure)
          by (auto; reflexivity). lia.
      * rewrite count_nil. lia.
  - set (q := setClosure
                (setPendingWorkers
                   (deleteWorker worker (pendingWorkers (closure p)))
                   (closure p)) p).
    assert (Hq : forall x, In x (pendingWorkers (closure q)) ->
                           sameWorker w x = false).
    { intros x Hx. apply Hno. eapply deleteWorker_in. exact Hx. }
    destruct (pump_retired now (queue p) q w Hq Hlt) as [Hno' Hlt'].
    destruct (pump_frame now (queue p) q) as (_ & _ & _ & _ & _ & _ & _ & _ & Hc).
    splits; auto.
    + rewrite Hc by reflexivity. exact Hexits.
    + rewrite Hc by reflexivity. exact Hnotes.
  - splits; auto.
    + rewrite count_app, count_cons. simpl.
      rewrite (count_map_absent isExitOf Exit) by (auto; reflexivity). lia.
    + rewrite count_app, count_cons. simpl.
      rewrite count_map_none by reflexivity. lia.
  - splits; auto.
    + rewrite count_app, count_cons. simpl.
      rewrite (count_map_absent isExitOf Exit) by (auto; reflexivity). lia.
    + rewrite count_app, count_cons. simpl.
      rewrite count_map_none by reflexivity. lia.
Qed.

End Retired.

Lemma sample_pool_numbered : numbered Samples.pool.
Proof.
  unfold Samples.pool. apply pump_numbered.
  intros i w Hnth. destruct i; discriminate.
Qed.

(** X6: once a worker's completion signal has fired, the handle is no
    longer pending, and whatever happens afterwards (failures under
    fail-fast, timeouts, interrupts) it is neither told to exit nor
    notified of a peer failure again. *)
Theorem completed_worker_is_left_alone :
  forall (apiOptions : Options) (now : Z) (w : nat) (worker : Worker)
         (p : Pool),
    Invariant p ->
    numbered p ->
    nth_error (forked p) w = Some worker ->
    exists p1,
      step apiOptions now (WorkerExited w) p = Ok p1
      /\ hasWorker worker (pendingWorkers (closure p1)) = false
      /\ count (isExitOf worker) (effects (closure p1))
         = count (isExitOf worker) (effects (closure p))
      /\ count (isNotifyOf worker) (effects (closure p1))
         = count (isNotifyOf worker) (effects (closure p))
      /\ forall occs,
          exists p2,
            drive apiOptions occs p1 = Ok p2
            /\ hasWorker worker (pendingWorkers (closure p2)) = false
            /\ count (isExitOf worker) (effects (closure p2))
               = count (isExitOf worker) (effects (closure p))
            /\ count (isNotifyOf worker) (effects (closure p2))
               = count (isNotifyOf worker) (effects (closure p)).
Proof.
  intros apiOptions now w worker p Hinv Hnum Hnth.
  destruct (step_invariant apiOptions now (WorkerExited w) Hinv)
    as [p1 [Hstep Hinv1]].
  exists p1. split; [exact Hstep|].
  assert (Hid : id worker < List.length (forked p)).
  { rewrite (Hnum w worker Hnth). apply nth_error_Some. rewrite Hnth.
    discriminate. }
  assert (Hretired :
    (forall x, In x (pendingWorkers (closure p1)) -> sameWorker worker x = false)
    /\ id worker < List.length (forked p1)
    /\ count (isExitOf worker) (effects (closure p1))
       = count (isExitOf worker) (effects (closure p))
    /\ count (isNotifyOf worker) (effects (closure p1))
       = count (isNotifyOf worker) (effects (closure p))).
  { pose proof Hstep as Hclosed. simpl in Hclosed. rewrite Hnth in Hclosed.
    destruct (hasWorker worker (pendingWorkers (closure p))) eqn:Hhas.
    - injection Hclosed as Hp1.
      set (q := setClosure
                  (setPendingWorkers
                     (deleteWorker worker (pendingWorkers (closure p)))
                     (closure p)) p) in *.
      assert (Hq : forall x, In x (pendingWorkers (closure q)) ->
                             sameWorker worker x = false)
        by (apply hasWorker_false; apply hasWorker_deleteWorker).
      destruct (pump_retired now (queue p) q worker Hq Hid) as [Hno Hlt].
      destruct (pump_frame now (queue p) q)
        as (_ & _ & _ & _ & _ & _ & _ & _ & Hc).
      rewrite <- Hp1. splits; auto; rewrite Hc by reflexivity; reflexivity.
    - injection Hclosed as <-. splits; auto.
      apply hasWorker_false. exact Hhas. }
  destruct Hretired as (Hno1 & Hlt1 & Hex1 & Hnt1).
  splits; auto.
  - apply hasWorker_false. exact Hno1.
  - intros occs.
    destruct (drive_invariant apiOptions occs Hinv1) as [p2 [Hdrive _]].
    exists p2. split; [exact Hdrive|].
    assert (Hkept :
      (forall x, In x (pendingWorkers (closure p2)) -> sameWorker worker x = false)
      /\ id worker < List.length (forked p2)
      /\ count (isExitOf worker) (effects (closure p2))
         = count (isExitOf worker) (effects (closure p))
      /\ count (isNotifyOf worker) (effects (closure p2))
         = count (isNotifyOf worker) (effects (closure p))).
    { refine (@drive_preserves apiOptions (fun _ => True)
                (fun q =>
                   (forall x, In x (pendingWorkers (closure q)) ->
                              sameWorker worker x = false)
                   /\ id worker < List.length (forked q)
                   /\ count (isExitOf worker) (effects (closure q))
                      = count (isExitOf worker) (effects (closure p))
                   /\ count (isNotifyOf worker) (effects (closure q))
                      = count (isNotifyOf worker) (effects (closure p)))
                _ occs p1 p2 (Forall_any occs) Hinv1 _ Hdrive).
      - intros now' occ q q' _ Hq HP Hs. eapply step_keeps_retired; eassumption.
      - splits; assumption. }
    destruct Hkept as (Hno2 & _ & Hex2 & Hnt2).
    splits; auto. apply hasWorker_false. exact Hno2.
Qed.

Lemma completed_worker_is_left_alone_witness :
  Invariant Samples.pool
  /\ numbered Samples.pool
  /\ nth_error (forked Samples.pool) 0 = Some (mkWorker 0 "a.js")
  /\ exists p1,
      step Samples.failFastOptions 9 (WorkerExited 0) Samples.pool = Ok p1
      /\ hasWorker (mkWorker 0 "a.js") (pendingWorkers (closure p1)) = false
      /\ forall occs,
          exists p2,
            drive Samples.failFastOptions occs p1 = Ok p2
            /\ count (isExitOf (mkWorker 0 "a.js")) (effects (closure p2)) = 0
            /\ count (isNotifyOf (mkWorker 0 "a.js")) (effects (closure p2)) = 0.
Proof.
  split; [exact sample_pool_invariant|].
  split; [exact sample_pool_numbered|].
  split; [reflexivity|].
  destruct (completed_worker_is_left_alone
              Samples.failFastOptions 9 0 (worker := mkWorker 0 "a.js")
              sample_pool_invariant sample_pool_numbered eq_refl)
    as [p1 (Hstep & Hno & _ & _ & Hlater)].
  exists p1. split; [exact Hstep|]. split; [exact Hno|].
  intros occs. destruct (Hlater occs) as [p2 (Hdrive & _ & Hex & Hnt)].
  exists p2. split; [exact Hdrive|]. split; [exact Hex | exact Hnt].
Defined.

(** ** The stream of effects *)

Lemma pump_appends (now : Z) (fs : list string) (p : Pool) :
  exists added,
    effects (closure (pump now fs p)) = effects (closure p) ++ added.
Proof.
  revert p. induction fs as [|f fs IH]; intros p; simpl.
  - exists []. rewrite app_nil_r. reflexivity.
  - destruct (Z.of_nat (List.length (pendingWorkers (closure p))) <? limit p)%Z.
    + destruct (IH (mapper now f p)) as [added Hadded].
      destruct (bailed (closure p)) eqn:Hb.
      * rewrite (mapper_bailed now f p Hb) in *. exists added. exact Hadded.
      * assert (Hef : effects (closure (mapper now f p))
                      = effects (closure p)
                        ++ [Fork (mkWorker (List.length (forked p)) f)])
          by (rewrite (mapper_fresh now f p Hb); reflexivity).
        rewrite Hef, <- app_assoc in Hadded. eexists. exact Hadded.
    + exists []. simpl. rewrite app_nil_r. reflexivity.
Qed.

Lemma step_appends (apiOptions : Options) (now : Z) (occ : Occurrence)
      (p p' : Pool) :
  Invariant p ->
  step apiOptions now occ p = Ok p' ->
  exists added, effects (closure p') = effects (closure p) ++ added.
Proof.
  intros Hinv Hstep.
  step_cases Hinv Hstep; simpl;
    try (exists []; rewrite app_nil_r; reflexivity);
    try (eexists; reflexivity).
  destruct (pump_appends now (queue p)
              (setClosure
                 (setPendingWorkers
                    (deleteWorker worker (pendingWorkers (closure p)))
                    (closure p)) p)) as [added Hadded].
  exists added. exact Hadded.
Qed.

Lemma drive_appends (apiOptions : Options) (occs : list (Z * Occurrence))
      (p p' : Pool) :
  Invariant p ->
  drive apiOptions occs p = Ok p' ->
  exists added, effects (closure p') = effects (closure p) ++ added.
Proof.
  revert p. induction occs as [|[now occ] occs IH]; intros p Hinv Hdrive;
    simpl in Hdrive.
  - injection Hdrive as <-. exists []. rewrite app_nil_r. reflexivity.
  - destruct (settled p).
    + injection Hdrive as <-. exists []. rewrite app_nil_r. reflexivity.
    + destruct (step_invariant apiOptions now occ Hinv) as [p1 [Hstep Hinv1]].
      rewrite Hstep in Hdrive. simpl in Hdrive.
      destruct (step_appends _ _ _ Hinv Hstep) as [a1 Ha1].
      destruct (IH p1 Hinv1 Hdrive) as [a2 Ha2].
      exists (a1 ++ a2). rewrite Ha2, Ha1, app_assoc. reflexivity.
Qed.

Lemma pool_kind (host : Host) (env : Collaborators) (options : Options)
      (selected : list string) (rs : RunStatus) (occs : list (Z * Occurrence))
      (p : Pool) (f : Effect -> bool) :
  (forall r, f (EmitStateChange r) = false) ->
  (forall w, f (Fork w) = false) ->
  (forall w, f (Exit w) = false) ->
  (forall w, f (NotifyOfPeerFailure w) = false) ->
  drive options occs
        (startPool host env options selected
                   (setListening (announced host options selected rs)))
  = Ok p ->
  count f (effects (closure p)) = count f [EmitRun (plan options selected rs)].
Proof.
  intros Hsc Hfk Hex Hno Hdrive.
  refine (@drive_preserves options (fun _ => True)
            (fun q => count f (effects (closure q))
                      = count f [EmitRun (plan options selected rs)])
            _ occs _ p (Forall_any occs)
            (startPool_invariant host env options selected rs) _ Hdrive).
  - intros now occ q q' _ Hq HP Hstep.
    rewrite (@step_keeps_kind options f now occ q q'); auto.
  - destruct (startPool_frame host env options selected rs) as [_ Hc].
    apply Hc. exact Hfk.
Qed.

Lemma startPool_announced (host : Host) (env : Collaborators)
      (options : Options) (selected : list string) (rs : RunStatus) :
  exists added,
    effects (closure (startPool host env options selected
                                (setListening (announced host options selected rs))))
    = EmitRun (plan options selected rs) :: added.
Proof.
  unfold startPool.
  destruct (pump_appends (startTime env) selected
              (mkPool (setListening (announced host options selected rs))
                      [] [] (resolveConcurrency host options)))
    as [added Hadded].
  exists added. rewrite Hadded. reflexivity.
Qed.

(** X7: whenever test-file discovery succeeds - whether or not selecting
    among the files then fails - the [run] announcement is the first thing
    [run] emits and the only announcement it ever emits, and it lists the
    files that [run] is going to start. *)
Theorem run_is_announced_once_and_first :
  forall (host : Host) (env : Collaborators) (options : Options)
         (args : RunArgs) (occs : list (Z * Occurrence))
         (testFiles : list string),
    findTests env = Ok testFiles ->
    exists selected rs error rest,
      prepare host env options args = Some (selected, rs, error)
      /\ effectsOf (run host env options args occs)
         = EmitRun (plan options selected rs) :: rest
      /\ planFiles (plan options selected rs) = selected
      /\ status (plan options selected rs) = rs
      /\ count isRun rest = 0.
Proof.
  intros host env options args occs testFiles Hfind.
  destruct (prepare_discovered host env options args Hfind)
    as [selected0 [rs0 [error0 Hprep0]]].
  exists selected0, rs0, error0.
  destruct (run_outcome host env options args occs)
    as [[Hnone _]
       |[(selected & rs & error & e & st & Hprep & _ & Hrun & _ & Heff)
        |[(selected & rs & Hprep & _ & Hrun)
         |(selected & rs & p & Hprep & _ & Hdrive & Hinv & Hcases)]]];
    try congruence;
    rewrite Hprep in Hprep0; injection Hprep0 as <- <- <-.
  - rewrite Hrun. simpl. rewrite Heff. eexists. splits; try reflexivity; assumption.
  - rewrite Hrun. simpl. exists []. splits; try reflexivity; assumption.
  - destruct (startPool_announced host env options selected rs) as [a0 Ha0].
    destruct (drive_appends _ _
                (startPool_invariant host env options selected rs) Hdrive)
      as [a1 Ha1].
    rewrite Ha0 in Ha1.
    pose proof (pool_kind host env options selected rs occs isRun
                          (fun _ => eq_refl) (fun _ => eq_refl)
                          (fun _ => eq_refl) (fun _ => eq_refl) Hdrive)
      as Hcount.
    rewrite Ha1 in Hcount. simpl in Hcount.
    rewrite count_cons in Hcount. simpl in Hcount.
    change (count isRun [EmitRun (plan options selected rs)]) with 1 in Hcount.
    destruct Hcases as [[_ Hrun]|[_ (st & Hrun & _ & Hst)]];
      rewrite Hrun; simpl.
    + exists (a0 ++ a1). rewrite Ha1. splits; try reflexivity; try assumption. lia.
    + rewrite Hst, Ha1. simpl. eexists. splits; try reflexivity; try assumption.
      rewrite !count_app.
      assert (Htail :
        count isRun
              (match storeFailedTestFiles env with
               | Some touched => [EmitStateChange (EvTouchedFiles touched)]
               | None => []
               end) = 0 /\ count isRun [End] = 0)
        by (destruct (storeFailedTestFiles env); split; reflexivity).
      destruct Htail as [-> ->]. rewrite count_app in Hcount. lia.
Qed.

Lemma run_is_announced_once_and_first_witness :
  findTests Samples.threeFound = Ok Samples.threeFiles
  /\ exists selected rs error rest,
      prepare Samples.host Samples.threeFound Samples.failFastOptions Samples.noArgs
      = Some (selected, rs, error)
      /\ effectsOf (run Samples.host Samples.threeFound Samples.failFastOptions
                        Samples.noArgs [(5%Z, WorkerExited 1)])
         = EmitRun (plan Samples.failFastOptions selected rs) :: rest
      /\ count isRun rest = 0.
Proof.
  split; [reflexivity|].
  destruct (run_is_announced_once_and_first
              Samples.host Samples.threeFound Samples.failFastOptions
              Samples.noArgs [(5%Z, WorkerExited 1)]
              (testFiles := Samples.threeFiles) eq_refl)
    as (selected & rs & error & rest & Hprep & Heff & _ & _ & Hcount).
  exists selected, rs, error, rest. splits; assumption.
Defined.

(** ** Selection errors, and what holds when [run] returns *)

Lemma schedule_nothing (host : Host) (options : Options)
      (insights : SelectionInsights) :
  schedule host options insights []
  = ([], mkRunStatus 0
           (match parallelRuns options with
            | Some pr => Some (0, pr)
            | None => None
            end) insights).
Proof.
  unfold schedule, parallelFiles.
  destruct (parallelRuns options) as [pr|].
  - simpl. unfold chunkd, slice. simpl.
    rewrite skipn_nil, firstn_nil. reflexivity.
  - destruct (sortTestFiles options); reflexivity.
Qed.

(** X9: when choosing among the discovered files fails (the selector or
    the filter throws), [run] does not reject: it announces a run of the
    files the failure cache makes of an empty selection, with a status
    counting no selected file but all discovered ones, then emits one
    [internal-error] record carrying the error, ends the status and returns
    it.  No worker is forked, whatever the schedule. *)
Theorem selection_error_is_reported_after_announcement :
  forall (host : Host) (env : Collaborators) (options : Options)
         (args : RunArgs) (occs : list (Z * Occurrence))
         (testFiles : list string) (e : Error),
    findTests env = Ok testFiles ->
    chosen env args testFiles = Throw e ->
    exists rs st,
      run host env options args occs = Returned rs st
      /\ effects st
         = [EmitRun (plan options (failingTestsFirst env []) rs);
            EmitStateChange (EvInternalError e); End]
      /\ files rs = 0
      /\ selectionCount (selectionInsights rs) = 0
      /\ testFileCount (selectionInsights rs) = List.length testFiles
      /\ runStatus st = Some rs
      /\ bailed st = false.
Proof.
  intros host env options args occs testFiles e Hfind Hchosen.
  assert (Hprep :
    prepare host env options args
    = Some (failingTestsFirst env [],
            mkRunStatus 0
              (match parallelRuns options with
               | Some pr => Some (0, pr)
               | None => None
               end)
              (mkInsights (filterPatterns args) (List.length testFiles) 0),
            Some e)).
  { unfold prepare, select. rewrite Hfind, Hchosen, schedule_nothing.
    reflexivity. }
  unfold run. rewrite Hprep. simpl.
  eexists. eexists. split; [reflexivity|]. splits; reflexivity.
Qed.

Lemma selection_error_is_reported_after_announcement_witness :
  findTests Scenarios.brokenFilter = Ok Samples.threeFiles
  /\ chosen Scenarios.brokenFilter Scenarios.filtered Samples.threeFiles
     = Throw (Thrown "bad pattern")
  /\ exists rs st,
      run Samples.host Scenarios.brokenFilter Samples.failFastOptions
          Scenarios.filtered [] = Returned rs st
      /\ effects st
         = [EmitRun (plan Samples.failFastOptions [] rs);
            EmitStateChange (EvInternalError (Thrown "bad pattern")); End]
      /\ testFileCount (selectionInsights rs) = 3.
Proof.
  split; [reflexivity|]. split; [reflexivity|].
  destruct (selection_error_is_reported_after_announcement
              Samples.host Scenarios.brokenFilter Samples.failFastOptions
              Scenarios.filtered [] (testFiles := Samples.threeFiles)
              (e := Thrown "bad pattern") eq_refl eq_refl)
    as (rs & st & Hrun & Heff & _ & _ & Hcount & _).
  exists rs, st. split; [exact Hrun|]. split; [exact Heff | exact Hcount].
Defined.

Lemma newTimeoutTrigger_unset (host : Host) (options : Options) :
  TimeoutTrigger.timer (newTimeoutTrigger host options) = None.
Proof.
  unfold newTimeoutTrigger.
  destruct (truthyString (timeout options) && negb (truthyObject (debug options)));
    reflexivity.
Qed.

(** X10: whenever [run] returns a status, no Worker Handle is pending and
    the watchdog has no deadline scheduled.  Unless it is the early return,
    the last thing [run] did was to end the status, which it did not do
    before; on the early return [run] did nothing but announce, and the
    watchdog never had a timer. *)
Theorem nothing_pending_when_run_returns :
  forall (host : Host) (env : Collaborators) (options : Options)
         (args : RunArgs) (occs : list (Z * Occurrence))
         (rs : RunStatus) (st : RunState),
    run host env options args occs = Returned rs st ->
    pendingWorkers st = []
    /\ TimeoutTrigger.scheduledAt (timeoutTrigger st) = None
    /\ (returnsEarly host env options args = false ->
        exists before,
          effects st = before ++ [End] /\ count isEnd before = 0)
    /\ (returnsEarly host env options args = true ->
        TimeoutTrigger.timer (timeoutTrigger st) = None
        /\ exists selected,
            effects st = [EmitRun (plan options selected rs)]).
Proof.
  intros host env options args occs rs st Hrun.
  unfold returnsEarly. unfold run in Hrun.
  destruct (prepare host env options args) as [[[selected rs0] [e|]]|] eqn:Hprep;
    [ | | discriminate].
  - simpl in Hrun. injection Hrun as <- <-. simpl.
    splits; try reflexivity.
    + apply TimeoutTriggerFacts.discard_scheduledAt.
    + intros _.
      exists [EmitRun (plan options selected rs0);
              EmitStateChange (EvInternalError e)].
      split; reflexivity.
    + discriminate.
  - unfold tryBlock in Hrun.
    destruct (Nat.eqb (List.length selected) 0
              || debugWithoutSpecificFile options selected) eqn:Hearly.
    + injection Hrun as <- <-. simpl.
      pose proof (newTimeoutTrigger_unset host options) as Hunset.
      splits; try reflexivity; try discriminate.
      * unfold TimeoutTrigger.scheduledAt. rewrite Hunset. reflexivity.
      * intros _. split; [exact Hunset|]. exists selected. reflexivity.
    + destruct (compileProviders env) as [u|e] eqn:Hcompile.
      * destruct (drive_invariant options occs
                    (startPool_invariant host env options selected rs0))
          as [p [Hdrive Hinv]].
        destruct (settled p) eqn:Hs;
          [|rewrite Hdrive, Hs in Hrun; discriminate].
        assert (Hrun' : run host env options args occs = Returned rs st).
        { unfold run. rewrite Hprep. unfold tryBlock.
          rewrite Hearly, Hcompile. exact Hrun. }
        destruct (run_settled host env options args occs Hprep Hearly Hcompile
                              Hdrive Hs)
          as [st' (Hr & _ & Hpend & Htrig & Heff)].
        rewrite Hr in Hrun'. injection Hrun' as <- <-.
        apply settled_true in Hs. destruct Hs as [Hnone _].
        splits; try discriminate.
        -- rewrite Hpend. exact Hnone.
        -- rewrite Htrig. apply TimeoutTriggerFacts.discard_scheduledAt.
        -- intros _. rewrite Heff, app_assoc. eexists. split; [reflexivity|].
           rewrite count_app, (pool_not_ended _ _ _ _ _ _ Hdrive).
           destruct (storeFailedTestFiles env); reflexivity.
      * rewrite emitStateChange_closed with (rs := rs0) in Hrun by reflexivity.
        simpl in Hrun. injection Hrun as <- <-. simpl.
        rewrite !andb_false_r. simpl.
        splits; try reflexivity; try discriminate.
        -- apply TimeoutTriggerFacts.discard_scheduledAt.
        -- intros _.
           exists [EmitRun (plan options selected rs0);
                   EmitStateChange (EvInternalError e)].
           split; reflexivity.
Qed.

Lemma nothing_pending_when_run_returns_witness :
  exists rs st,
    run Samples.host Samples.threeFound Scenarios.patientOptions Samples.noArgs
        Scenarios.timeoutThenFinish = Returned rs st
    /\ pendingWorkers st = []
    /\ TimeoutTrigger.scheduledAt (timeoutTrigger st) = None
    /\ exists before, effects st = before ++ [End] /\ count isEnd before = 0.
Proof.
  assert (Hrun : exists rs st,
             run Samples.host Samples.threeFound Scenarios.patientOptions
                 Samples.noArgs Scenarios.timeoutThenFinish = Returned rs st)
    by (do 2 eexists; vm_compute; reflexivity).
  destruct Hrun as (rs & st & Hrun).
  destruct (nothing_pending_when_run_returns
              Samples.host Samples.threeFound Scenarios.patientOptions
              Samples.noArgs Scenarios.timeoutThenFinish Hrun)
    as (Hpend & Htimer & Hlast & _).
  exists rs, st. splits; auto.
Defined.

(** ** Counts in the Run Status, shares of parallel jobs *)

Lemma sort_length (cmp : string -> string -> Z) (l : list string) :
  List.length (sort cmp l) = List.length l.
Proof. apply Permutation_length. apply sort_perm. Qed.

Lemma chunkd_share {A : Type} (l : list A) (i total : nat) :
  0 < total -> i < total ->
  List.length (chunkd l i total)
  = List.length l / total + (if i <? List.length l mod total then 1 else 0).
Proof.
  intros Htotal Hi. rewrite chunkd_unfold.
  set (M := List.length l). set (size := M / total). set (r := M mod total).
  assert (Hr : r < total) by (apply Nat.mod_upper_bound; lia).
  assert (HM : M = total * size + r) by (apply Nat.div_mod_eq).
  assert (Hmul : (S i) * size <= total * size)
    by (apply Nat.mul_le_mono_r; lia).
  rewrite Nat.mul_succ_l in Hmul.
  rewrite firstn_length_le; [reflexivity|].
  rewrite length_skipn. fold M.
  destruct (Nat.ltb_spec i r); lia.
Qed.

Lemma chunkd_beyond {A : Type} (l : list A) (i total : nat) :
  0 < total -> total <= i -> chunkd l i total = [].
Proof.
  intros Htotal Hi. rewrite chunkd_unfold.
  set (M := List.length l). set (size := M / total). set (r := M mod total).
  assert (Hr : r < total) by (apply Nat.mod_upper_bound; lia).
  assert (HM : M = total * size + r) by (apply Nat.div_mod_eq).
  assert (Hmul : total * size <= i * size)
    by (apply Nat.mul_le_mono_r; lia).
  rewrite skipn_all2; [apply firstn_nil|].
  fold M. lia.
Qed.




(** With [chunkd] as modelled, the files of a parallel job are a fair
    share: job [i] of [N] gets the quotient of the selected files by [N],
    plus one when [i] is below the remainder, so no two jobs differ by more
    than one file; an index at or beyond [N] gets no file at all. *)
Theorem parallel_jobs_get_fair_shares :
  forall (host : Host) (options : Options) (selected : list string)
         (i N : nat),
    0 < N ->
    (i < N ->
     List.length (parallelFiles host options selected i N)
     = List.length selected / N
       + (if i <? List.length selected mod N then 1 else 0))
    /\ (N <= i -> parallelFiles host options selected i N = [])
    /\ (forall j, i < N -> j < N ->
                  List.length (parallelFiles host options selected i N)
                  <= S (List.length (parallelFiles host options selected j N))).
Proof.
  intros host options selected i N HN.
  assert (Hshare : forall k, k < N ->
             List.length (parallelFiles host options selected k N)
             = List.length selected / N
               + (if k <? List.length selected mod N then 1 else 0)).
  { intros k Hk. unfold parallelFiles.
    rewrite chunkd_share, sort_length by assumption. reflexivity. }
  splits.
  - apply Hshare.
  - intros Hi. unfold parallelFiles. apply chunkd_beyond; assumption.
  - intros j Hi Hj. rewrite (Hshare i Hi), (Hshare j Hj).
    destruct (i <? List.length selected mod N);
      destruct (j <? List.length selected mod N); lia.
Qed.

Lemma parallel_jobs_get_fair_shares_witness :
  List.length (parallelFiles Samples.host Samples.parallelOptions
                             Samples.sevenFiles 0 3) = 3
  /\ List.length (parallelFiles Samples.host Samples.parallelOptions
                                Samples.sevenFiles 2 3) = 2
  /\ parallelFiles Samples.host Samples.parallelOptions Samples.sevenFiles 3 3
     = [].
Proof.
  destruct (parallel_jobs_get_fair_shares Samples.host Samples.parallelOptions
              Samples.sevenFiles 0 (N := 3)) as (H0 & _ & _); [lia|].
  destruct (parallel_jobs_get_fair_shares Samples.host Samples.parallelOptions
              Samples.sevenFiles 2 (N := 3)) as (H2 & _ & _); [lia|].
  destruct (parallel_jobs_get_fair_shares Samples.host Samples.parallelOptions
              Samples.sevenFiles 3 (N := 3)) as (_ & H3 & _); [lia|].
  split; [apply H0; lia|]. split; [apply H2; lia | apply H3; lia].
Defined.

(** ** Activity and the watchdog *)




(** ** [normalizeRequireOption] *)

(** X13: [normalizeRequireOption] goes through the entries [arrify] makes
    of the option, in their order: an entry that is not a string is kept
    as it is, in its place; an entry that is a string is replaced, in its
    place, by the array [arrify] makes of it.  So the result has as many
    entries as [arrify] gave and none of them is a bare string.  With an
    [arrify] that returns arrays as they are and wraps a string, a single
    module name gives one one-element array, and normalizing a normalized
    option changes nothing. *)
Theorem normalizeRequireOption_leaves_no_bare_name :
  forall (arrify : Js -> list Js) (require : Js),
    (forall i name,
        nth_error (arrify require) i = Some name ->
        nth_error (normalizeRequireOption arrify require) i
        = Some (if isString name then JsArray (arrify name) else name))
    /\ List.length (normalizeRequireOption arrify require)
       = List.length (arrify require)
    /\ (forall x, In x (normalizeRequireOption arrify require) ->
                  isString x = false)
    /\ ((forall items, arrify (JsArray items) = items) ->
        normalizeRequireOption
          arrify (JsArray (normalizeRequireOption arrify require))
        = normalizeRequireOption arrify require)
    /\ ((forall s, arrify (JsString s) = [JsString s]) ->
        forall name,
          normalizeRequireOption arrify (JsString name)
          = [JsArray [JsString name]]).
Proof.
  intros arrify require. unfold normalizeRequireOption. splits.
  - intros i name Hnth. rewrite nth_error_map, Hnth. reflexivity.
  - apply length_map.
  - intros x Hx. apply in_map_iff in Hx. destruct Hx as [name [<- _]].
    destruct (isString name) eqn:Hname; [reflexivity | exact Hname].
  - intros Harray. rewrite Harray, map_map.
    apply map_ext. intros name.
    destruct (isString name) eqn:Hname; [reflexivity|].
    rewrite Hname. reflexivity.
  - intros Hstring name. rewrite Hstring. simpl. rewrite Hstring. reflexivity.
Qed.

Lemma normalizeRequireOption_leaves_no_bare_name_witness :
  normalizeRequireOption
    arrifyDocumented
    (JsArray [JsString "ts-node/register";
              JsArray [JsString "./setup.js"; JsOther "options"]])
  = [JsArray [JsString "ts-node/register"];
     JsArray [JsString "./setup.js"; JsOther "options"]]
  /\ normalizeRequireOption arrifyDocumented (JsString "esm")
     = [JsArray [JsString "esm"]]
  /\ normalizeRequireOption arrifyDocumented JsUndefined = [].
Proof.
  destruct (normalizeRequireOption_leaves_no_bare_name
              arrifyDocumented (JsString "esm")) as (_ & _ & _ & _ & Hname).
  split; [reflexivity|]. split; [|reflexivity].
  apply Hname. intros s. reflexivity.
Defined.

(** ** The cache directory *)

(** X14: [_createCacheDir] creates its directory once.  The first call
    makes the project's local cache directory, or a fresh temporary
    directory when caching is disabled, and remembers it; provided that
    path is not the empty string, every later call returns the same path
    and touches the file system no more, whatever the options have become. *)
Theorem createCacheDir_creates_once :
  forall (platform : Platform) (projectDir : string) (options : Options)
         (cached cached' : option string) (dir : string)
         (calls : list FsCall),
    _createCacheDir platform projectDir options cached = (dir, cached', calls) ->
    dir <> EmptyString ->
    cached' = Some dir
    /\ (forall platform' projectDir' options',
           _createCacheDir platform' projectDir' options' cached'
           = (dir, cached', []))
    /\ (truthyString cached = true -> cached' = cached /\ calls = [])
    /\ (truthyString cached = false ->
        if cacheEnabled options
        then dir = _getLocalCacheDir platform projectDir
             /\ calls = [Mkdir dir]
        else dir = mkdtempSync platform
                     (String.append (tempDir platform) (sep platform))
             /\ calls = [Mkdtemp (String.append (tempDir platform) (sep platform));
                         Mkdir dir]).
Proof.
  intros platform projectDir options cached cached' dir calls Hcall Hdir.
  assert (Htruthy : truthyString (Some dir) = true).
  { simpl. destruct (String.eqb_spec dir ""); [contradiction | reflexivity]. }
  unfold _createCacheDir in Hcall.
  destruct (truthyString cached) eqn:Hcached.
  - destruct cached as [d|]; [|discriminate].
    injection Hcall as <- <- <-.
    splits; try reflexivity; try discriminate.
    + intros platform' projectDir' options'. unfold _createCacheDir.
      rewrite Hcached. reflexivity.
    + intros _. split; reflexivity.
  - injection Hcall as Hd <- <-.
    splits; try discriminate.
    + rewrite Hd. reflexivity.
    + intros platform' projectDir' options'. unfold _createCacheDir.
      rewrite Hd, Htruthy. reflexivity.
    + intros _. destruct (cacheEnabled options); simpl in *;
        rewrite Hd; split; reflexivity || (symmetry; exact Hd).
Qed.

Lemma createCacheDir_creates_once_witness :
  _createCacheDir Scenarios.posix "/repo" Samples.failFastOptions None
  = ("/repo/node_modules/.cache/ava"%string,
     Some "/repo/node_modules/.cache/ava"%string,
     [Mkdir "/repo/node_modules/.cache/ava"])
  /\ _createCacheDir Scenarios.posix "/elsewhere" Samples.failFastOptions
                     (Some "/repo/node_modules/.cache/ava"%string)
     = ("/repo/node_modules/.cache/ava"%string,
        Some "/repo/node_modules/.cache/ava"%string, []).
Proof.
  split; [reflexivity|].
  destruct (createCacheDir_creates_once
              Scenarios.posix "/repo" Samples.failFastOptions None
              (cached' := Some "/repo/node_modules/.cache/ava"%string)
              (dir := "/repo/node_modules/.cache/ava"%string)
              (calls := [Mkdir "/repo/node_modules/.cache/ava"]) eq_refl)
    as (_ & Hagain & _).
  - discriminate.
  - apply Hagain.
Defined.

(** ** The reporter's line writer *)

Lemma lineWriter_calls_snoc (EOL : string)
      (indentString : string -> nat -> string)
      (cs : list LineWriter.Call) (c : LineWriter.Call) (w : LineWriter.t) :
  LineWriter.calls EOL indentString (cs ++ [c]) w
  = LineWriter.call EOL indentString c (LineWriter.calls EOL indentString cs w).
Proof.
  unfold LineWriter.calls. rewrite fold_left_app. reflexivity.
Qed.

Lemma lineWriter_call_blank (EOL : string)
      (indentString : string -> nat -> string)
      (c : LineWriter.Call) (w : LineWriter.t) :
  (LineWriter.lastLineIsEmpty w = true ->
   LineWriter.written w = []
   \/ exists before, LineWriter.written w = before ++ [EOL]) ->
  LineWriter.lastLineIsEmpty (LineWriter.call EOL indentString c w) = true ->
  LineWriter.written (LineWriter.call EOL indentString c w) = []
  \/ exists before,
      LineWriter.written (LineWriter.call EOL indentString c w)
      = before ++ [EOL].
Proof.
  intros Hw. destruct c as [s | s indent |]; simpl.
  - discriminate.
  - unfold LineWriter.writeLine.
    destruct (truthyString s); simpl; [discriminate|].
    intros _. right. exists (LineWriter.written w). reflexivity.
  - unfold LineWriter.ensureEmptyLine.
    destruct (LineWriter.lastLineIsEmpty w) eqn:Hflag; simpl.
    + intros _. apply Hw. reflexivity.
    + intros _. right. exists (LineWriter.written w). reflexivity.
Qed.

(** X15: whatever is called on a line writer, when it holds the last line
    for empty, either nothing was written yet or the last chunk written is a
    bare end of line, and the width it was made with is kept.
    [ensureEmptyLine] then leaves the writer as it is; otherwise it writes
    one end of line, and a second call in a row never writes.  After a plain
    [write] the last line is never held for empty, whatever was written, so
    [ensureEmptyLine] adds an end of line even to a chunk that is one. *)
Theorem lineWriter_tracks_blank_lines :
  forall (EOL : string) (indentString : string -> nat -> string)
         (destColumns : option nat) (cs : list LineWriter.Call),
    let w := LineWriter.calls EOL indentString cs (LineWriter.new destColumns) in
    let w' := LineWriter.ensureEmptyLine EOL indentString w in
    (LineWriter.lastLineIsEmpty w = true ->
     LineWriter.written w = []
     \/ exists before, LineWriter.written w = before ++ [EOL])
    /\ LineWriter.columns w
       = match destColumns with Some c => c | None => 80 end
    /\ LineWriter.lastLineIsEmpty w' = true
    /\ (if LineWriter.lastLineIsEmpty w
        then w' = w
        else LineWriter.written w' = LineWriter.written w ++ [EOL])
    /\ LineWriter.ensureEmptyLine EOL indentString w' = w'
    /\ (forall chunk,
           LineWriter.written
             (LineWriter.ensureEmptyLine
                EOL indentString (LineWriter.write chunk w))
           = LineWriter.written w ++ [chunk; EOL]).
Proof.
  intros EOL indentString destColumns cs w w'. splits.
  - subst w w'. induction cs as [|c cs IH] using rev_ind.
    + intros _. left. reflexivity.
    + rewrite lineWriter_calls_snoc. apply lineWriter_call_blank. exact IH.
  - subst w w'. induction cs as [|c cs IH] using rev_ind.
    + reflexivity.
    + rewrite lineWriter_calls_snoc. rewrite <- IH.
      destruct c as [s | s indent |]; simpl.
      * reflexivity.
      * unfold LineWriter.writeLine. destruct (truthyString s); reflexivity.
      * unfold LineWriter.ensureEmptyLine.
        destruct (LineWriter.lastLineIsEmpty _); reflexivity.
  - subst w'. unfold LineWriter.ensureEmptyLine.
    destruct (LineWriter.lastLineIsEmpty w) eqn:Hflag; simpl;
      [exact Hflag | reflexivity].
  - subst w'. unfold LineWriter.ensureEmptyLine.
    destruct (LineWriter.lastLineIsEmpty w); reflexivity.
  - subst w'. unfold LineWriter.ensureEmptyLine.
    destruct (LineWriter.lastLineIsEmpty w) eqn:Hflag; simpl.
    + rewrite Hflag. reflexivity.
    + reflexivity.
  - intros chunk. simpl. rewrite <- app_assoc. reflexivity.
Qed.

Lemma lineWriter_tracks_blank_lines_witness :
  let eol := String (Ascii.ascii_of_nat 10) EmptyString in
  let indent := fun (s : string) (n : nat) => String.append "  " s in
  let w :=
    LineWriter.calls
      eol indent
      [LineWriter.CallWriteLine (Some "ok"%string) true;
       LineWriter.CallWrite "1 test passed";
       LineWriter.CallEnsureEmptyLine;
       LineWriter.CallEnsureEmptyLine]
      (LineWriter.new None) in
  LineWriter.written w
  = [String.append "  ok" eol; "1 test passed"%string; eol]
  /\ LineWriter.ensureEmptyLine eol indent w = w.
Proof.
  intros eol indent w. split; [reflexivity|].
  destruct (lineWriter_tracks_blank_lines
              eol indent None
              [LineWriter.CallWriteLine (Some "ok"%string) true;
               LineWriter.CallWrite "1 test passed";
               LineWriter.CallEnsureEmptyLine;
               LineWriter.CallEnsureEmptyLine])
    as (_ & _ & _ & Hsame & _).
  exact Hsame.
Defined.

(** ** Parallel jobs *)

Lemma run_announces (host : Host) (env : Collaborators) (options : Options)
      (args : RunArgs) (occs : list (Z * Occurrence))
      (selected : list string) (rs : RunStatus) (error : option Error) :
  prepare host env options args = Some (selected, rs, error) ->
  exists rest,
    effectsOf (run host env options args occs)
    = EmitRun (plan options selected rs) :: rest.
Proof.
  intros Hprep0.
  destruct (run_outcome host env options args occs)
    as [[Hnone _]
       |[(selected' & rs' & error' & e & st & Hprep & _ & Hrun & _ & Heff)
        |[(selected' & rs' & Hprep & _ & Hrun)
         |(selected' & rs' & p & Hprep & _ & Hdrive & Hinv & Hcases)]]];
    try congruence;
    rewrite Hprep in Hprep0; injection Hprep0 as <- <- <-.
  - rewrite Hrun. simpl. rewrite Heff. eexists. reflexivity.
  - rewrite Hrun. simpl. exists []. reflexivity.
  - destruct (startPool_announced host env options selected' rs') as [a0 Ha0].
    destruct (drive_appends _ _
                (startPool_invariant host env options selected' rs') Hdrive)
      as [a1 Ha1].
    rewrite Ha0 in Ha1.
    destruct Hcases as [[_ Hrun]|[_ (st & Hrun & _ & Hst)]];
      rewrite Hrun; simpl.
    + exists (a0 ++ a1). rewrite Ha1. reflexivity.
    + rewrite Hst, Ha1. simpl. eexists. reflexivity.
Qed.

Lemma concat_map_perm (f : list string -> list string)
      (chunks : list (list string)) :
  (forall l, Permutation (f l) l) ->
  Permutation (List.concat (map f chunks)) (List.concat chunks).
Proof.
  intros Hf. induction chunks as [|c chunks IH]; simpl.
  - apply perm_nil.
  - apply Permutation_app; [apply Hf | exact IH].
Qed.

(** C9: in a parallel run with a consistent comparator - the caller's, or
    the numeric-aware locale compare when none is configured - job [i] of
    [N] takes the selected files sorted with that comparator and keeps the
    [i]-th chunk: that chunk, as the failure cache reorders it, is what the
    job announces, and its Run Status carries the count of all selected
    files and of the chunk.  For every [N >= 1] the chunks for indices
    [0..N-1], concatenated in index order, are exactly the sorted list: it
    is in comparator order, keeps files comparing as equal in their order,
    and is a permutation of the selected files, so that every file belongs
    to exactly one job, none omitted or duplicated; the same holds of the
    files the jobs announce when the failure cache only reorders. *)
Theorem parallel_chunks_partition_sorted_files :
  forall (host : Host) (env : Collaborators) (options : Options)
         (args : RunArgs) (testFiles selected : list string) (N : nat),
    0 < N ->
    consistent (comparator host options) ->
    findTests env = Ok testFiles ->
    chosen env args testFiles = Ok selected ->
    let cmp := comparator host options in
    let chunk := fun i => chunkd (sort cmp selected) i N in
    (forall i occs,
        exists rs rest,
          prepare host env (forJob options i N) args
          = Some (failingTestsFirst env (chunk i), rs, None)
          /\ files rs = List.length selected
          /\ partition rs = Some (List.length (chunk i), mkParallel i N)
          /\ effectsOf (run host env (forJob options i N) args occs)
             = EmitRun (plan (forJob options i N)
                             (failingTestsFirst env (chunk i)) rs) :: rest)
    /\ List.concat (map chunk (seq 0 N)) = sort cmp selected
    /\ Permutation (List.concat (map chunk (seq 0 N))) selected
    /\ StronglySorted (ordered cmp) (List.concat (map chunk (seq 0 N)))
    /\ (forall a,
           List.filter (equivalent cmp a) (List.concat (map chunk (seq 0 N)))
           = List.filter (equivalent cmp a) selected)
    /\ ((forall l, Permutation (failingTestsFirst env l) l) ->
        Permutation
          (List.concat (map (fun i => failingTestsFirst env (chunk i)) (seq 0 N)))
          selected).
Proof.
  intros host env options args testFiles selected N HN Hcmp Hfind Hchosen
         cmp chunk.
  assert (Hcat : List.concat (map chunk (seq 0 N)) = sort cmp selected)
    by (apply chunkd_concat; exact HN).
  splits.
  - intros i occs.
    assert (Hprep :
      prepare host env (forJob options i N) args
      = Some (failingTestsFirst env (chunk i),
              mkRunStatus (List.length selected)
                          (Some (List.length (chunk i), mkParallel i N))
                          (mkInsights (filterPatterns args)
                                      (List.length testFiles)
                                      (List.length selected)),
              None)).
    { unfold prepare, select. rewrite Hfind, Hchosen. reflexivity. }
    destruct (run_announces host env (forJob options i N) args occs Hprep)
      as [rest Hrest].
    eexists. exists rest. splits; [exact Hprep | | | exact Hrest]; reflexivity.
  - exact Hcat.
  - rewrite Hcat. apply sort_perm.
  - rewrite Hcat. apply sort_strongly_sorted. exact Hcmp.
  - intros a. rewrite Hcat. apply sort_stable. exact Hcmp.
  - intros Hreorder.
    apply perm_trans with (List.concat (map chunk (seq 0 N))).
    + rewrite <- (map_map chunk (failingTestsFirst env)).
      apply concat_map_perm. exact Hreorder.
    + rewrite Hcat. apply sort_perm.
Qed.

Lemma byLength_consistent : consistent Scenarios.byLength.
Proof.
  unfold Scenarios.byLength. constructor; intros; lia.
Qed.

Lemma parallel_chunks_partition_sorted_files_witness :
  (exists rs,
      prepare Samples.host Scenarios.fiveFound
              (forJob Scenarios.lengthOptions 1 2) Samples.noArgs
      = Some (["ccc.js"; "dddd.js"]%string, rs, None)
      /\ files rs = 5
      /\ partition rs = Some (2, mkParallel 1 2))
  /\ List.concat
       (map (fun i => chunkd (sort Scenarios.byLength Scenarios.fiveFiles) i 2)
            (seq 0 2))
     = ["a.js"; "b.js"; "bb.js"; "ccc.js"; "dddd.js"]%string
  /\ Permutation
       (List.concat
          (map (fun i => chunkd (sort Scenarios.byLength Scenarios.fiveFiles) i 2)
               (seq 0 2)))
       Scenarios.fiveFiles.
Proof.
  destruct (@parallel_chunks_partition_sorted_files
              Samples.host Scenarios.fiveFound Scenarios.lengthOptions
              Samples.noArgs Scenarios.fiveFiles Scenarios.fiveFiles 2)
    as (Hjob & Hcat & Hperm & _).
  - lia.
  - exact byLength_consistent.
  - reflexivity.
  - reflexivity.
  - split; [|split; [exact Hcat | exact Hperm]].
    destruct (Hjob 1 []) as [rs [rest (Hprep & Hfiles & Hpart & _)]].
    exists rs. splits; [exact Hprep | exact Hfiles | exact Hpart].
Defined.
